(** * Trigger-expression parser of the openHAB JavaScript helper libraries

    A shallow embedding of [core/triggers.js] (the [when] decorator and the
    trigger builders it uses) and of [validate_uid] from [core/utils.js],
    together with the properties of the parser that the specification
    states.

    JavaScript strings are [string]; a variable that holds a string or
    [null] is an [option string]; objects are property maps ([gmap]) in a
    heap of locations, so that a function that mutates and returns its
    argument returns the same location.  The host platform (item and thing
    registries, type parser, UUID generator) is a record of functions.

    The later sections embed the decorator of [core/rules.js], the other
    validators and [String.prototype.format] of [core/utils.js], the
    extension provider of [core/providers.js] and the functions of
    [core/metadata.js], with properties read off the code. *)

From Stdlib Require Import String Ascii List ZArith Lia Bool.
From stdpp Require Import gmap strings list option.

Open Scope string_scope.

(** ** JavaScript string and array primitives *)

Module JS.

(** [a + b] on strings is [a +:+ b]; a [null] operand prints as "null". *)
Definition str (o : option string) : string := default "null" o.

(** [s.split(" ")]: always at least one piece. *)
Fixpoint split (s : string) : list string :=
  match s with
  | EmptyString => [EmptyString]
  | String c r =>
      if Ascii.eqb c " " then EmptyString :: split r
      else match split r with
           | h :: t => String c h :: t
           | [] => [String c EmptyString]
           end
  end.

(** [a.join(sep)]. *)
Definition join (sep : string) (a : list string) : string := String.concat sep a.

(** [a.slice(0, n)] and what [a.splice(0, n)] returns. *)
Definition slice0 (n : nat) (a : list string) : list string := take n a.

(** What is left in [a] after [a.splice(0, n)]. *)
Definition spliced (n : nat) (a : list string) : list string := drop n a.

(** [~a.indexOf(x)] as a condition: [x] occurs in the array of strings
    [a]; a [null] never does. *)
Definition has (a : list string) (x : option string) : bool :=
  match x with
  | Some s => existsb (String.eqb s) a
  | None => false
  end.

(** [x === "lit"] for a variable that is a string or [null]. *)
Definition eq (x : option string) (lit : string) : bool :=
  match x with
  | Some s => String.eqb s lit
  | None => false
  end.

(** [x !== null] *)
Definition not_null (x : option string) : bool :=
  match x with
  | Some _ => true
  | None => false
  end.

(** Truthiness of a string or [null]: [null] and "" are falsy. *)
Definition truthy (x : option string) : bool :=
  match x with
  | Some EmptyString | None => false
  | Some _ => true
  end.

(** [s.replace(" ", "-")] with a string pattern: the first occurrence only. *)
Fixpoint replace_space (s : string) : string :=
  match s with
  | EmptyString => EmptyString
  | String c r => if Ascii.eqb c " " then String "-" r else String c (replace_space r)
  end.

(** [needle] occurs in [hay] (what it means for a message to carry a text). *)
Fixpoint starts_with (p s : string) : bool :=
  match p, s with
  | EmptyString, _ => true
  | String a p', String b s' => Ascii.eqb a b && starts_with p' s'
  | String _ _, EmptyString => false
  end.

Fixpoint includes (hay needle : string) : bool :=
  starts_with needle hay
  || match hay with
     | EmptyString => false
     | String _ r => includes r needle
     end.

End JS.

(** ** Character classes of the identifier patterns *)

Definition in_range (lo hi c : ascii) : bool :=
  (nat_of_ascii lo <=? nat_of_ascii c)%nat && (nat_of_ascii c <=? nat_of_ascii hi)%nat.

(** [[A-Za-z0-9]] *)
Definition is_alnum (c : ascii) : bool :=
  in_range "A" "Z" c || in_range "a" "z" c || in_range "0" "9" c.

Definition is_underscore (c : ascii) : bool := Ascii.eqb c "_".

(** [[A-Za-z0-9_-]] *)
Definition uid_char (c : ascii) : bool :=
  is_alnum c || is_underscore c || Ascii.eqb c "-".

(** [uid.match(/^[A-Za-z0-9]/)] *)
Definition starts_alnum (s : string) : bool :=
  match s with
  | String c _ => is_alnum c
  | EmptyString => false
  end.

Fixpoint all_chars (p : ascii -> bool) (s : string) : bool :=
  match s with
  | EmptyString => true
  | String c r => p c && all_chars p r
  end.

(** No match of [/__+/]. *)
Fixpoint no_double_underscore (s : string) : bool :=
  match s with
  | EmptyString => true
  | String c r =>
      match r with
      | String c' _ => negb (is_underscore c && is_underscore c') && no_double_underscore r
      | EmptyString => true
      end
  end.

(** The shape of a sanitized identifier. *)
Definition well_formed_uid (s : string) : bool :=
  starts_alnum s && all_chars uid_char s && no_double_underscore s.

(** The text of [java.util.UUID.toString()]: 36 characters, lower-case
    hexadecimal digits in groups of 8-4-4-4-12 separated by hyphens. *)
Definition is_hex (c : ascii) : bool := in_range "0" "9" c || in_range "a" "f" c.

Definition hyphen_position (i : nat) : bool :=
  existsb (Nat.eqb i) [8; 13; 18; 23].

Fixpoint uuid_from (i : nat) (s : string) : bool :=
  match s with
  | EmptyString => Nat.eqb i 36
  | String c r =>
      (if hyphen_position i then Ascii.eqb c "-" else is_hex c) && uuid_from (S i) r
  end.

Definition is_uuid (s : string) : bool := uuid_from 0 s.

(** ** Values, objects and the world a call runs in *)

(** What a JavaScript [throw] carries: the [RangeError]s of the parser, a
    [TypeError] of the interpreter, an exception of the Java host (by
    class name), or the generic [Error] that [when] re-raises. *)
Inductive exn :=
| RangeError (message : string)
| TypeError (message : string)
| JavaException (class : string)
| Error (message : string).

Inductive result (A : Type) :=
| Ok (a : A)
| Throw (e : exn).
Arguments Ok {A} a.
Arguments Throw {A} e.

(** Values stored in a trigger configuration ([java.util.HashMap]). *)
Inductive jsval :=
| JUndefined
| JNull
| JNum (n : Z)
| JStr (s : string).

Definition js_of (o : option string) : jsval :=
  match o with
  | Some s => JStr s
  | None => JNull
  end.

(** The module that [TriggerBuilder...build()] returns. *)
Record Trigger := mkTrigger {
  id : string;
  typeUID : string;
  configuration : gmap string jsval
}.

(** Property values of a callback object; an array holds triggers and
    [null] markers. *)
Inductive value :=
| VUndefined
| VNull
| VBool (b : bool)
| VNum (n : Z)
| VStr (s : string)
| VArray (a : list (option Trigger))
| VObject.

(** [!v] is false. *)
Definition truthy (v : option value) : bool :=
  match v with
  | None | Some VUndefined | Some VNull => false
  | Some (VBool b) => b
  | Some (VNum n) => negb (Z.eqb n 0)
  | Some (VStr s) => negb (String.eqb s "")
  | Some (VArray _) | Some VObject => true
  end.

Definition loc := nat.

Inductive log_entry :=
| LogTrace (format : string) (args : list (option string))
| LogWarn (message : string)
| LogError (message : string).

Record World := mkWorld {
  heap : gmap loc (gmap string value);
  uuids_drawn : nat;
  log : list log_entry
}.

(** Computations that read and change the world and may throw; what was
    changed before a throw stays changed. *)
Definition M (A : Type) : Type := World -> result A * World.

Definition ret {A} (a : A) : M A := fun w => (Ok a, w).

Definition throw {A} (e : exn) : M A := fun w => (Throw e, w).

Definition bind {A B} (m : M A) (k : A -> M B) : M B :=
  fun w =>
    match m w with
    | (Ok a, w') => k a w'
    | (Throw e, w') => (Throw e, w')
    end.

Definition lift {A} (r : result A) : M A := fun w => (r, w).

Notation "'let!' x ':=' m 'in' k" := (bind m (fun x => k))
  (at level 10, x name, m at level 200, k at level 200).
Notation "'do!' m 'in' k" := (bind m (fun _ => k))
  (at level 10, m at level 200, k at level 200).

Definition LOG (e : log_entry) : M unit :=
  fun w => (Ok tt, mkWorld (heap w) (uuids_drawn w) (log w ++ [e])).

(** [a.forEach(f)] *)
Fixpoint forEach {A} (a : list A) (f : A -> M unit) : M unit :=
  match a with
  | [] => ret tt
  | x :: r => do! f x in forEach r f
  end.

(** ** The host platform *)

Record Item := mkItem {
  name : string;
  type : string;
  acceptedDataTypes : list string;
  acceptedCommandTypes : list string
}.

Inductive ChannelKind := STATE | TRIGGER.

Definition same_kind (a b : ChannelKind) : bool :=
  match a, b with
  | STATE, STATE | TRIGGER, TRIGGER => true
  | _, _ => false
  end.

Record Channel := mkChannel { kind : ChannelKind }.

(** The Java objects and classes that the scripts reach through the
    script scope.  A lookup that throws in Java returns [None] where the
    comment says so; [null] results are [None] too. *)
Record Host := mkHost {
  (** [itemRegistry.getItem(name)]; [None]: ItemNotFoundException *)
  getItem : option string -> option Item;
  (** [itemRegistry.getItems(pattern)] *)
  getItems : option string -> list Item;
  (** [item.getMembers()]; [None]: not a group, no such method *)
  getMembers : Item -> option (list Item);
  (** [item.getAllMembers()]; [None]: not a group, no such method *)
  getAllMembers : Item -> option (list Item);
  (** [TypeParser.parseState(types, s)]; [None]: null *)
  parseState : list string -> string -> option string;
  (** [TypeParser.parseCommand(types, s)]; [None]: null *)
  parseCommand : list string -> string -> option string;
  (** [new ThingUID(s)]; [None]: IllegalArgumentException *)
  ThingUID : option string -> option string;
  (** [things.get(uid)]; [None]: null *)
  things_get : string -> option string;
  (** [ThingStatus.<member>], a static member of the enum class by
      property name; [None]: undefined *)
  ThingStatus : string -> option string;
  (** [new ChannelUID(s)]; [None]: IllegalArgumentException *)
  ChannelUID : option string -> option string;
  (** [things.getChannel(uid)]; [None]: null *)
  things_getChannel : string -> option Channel;
  (** [org.quartz.CronExpression.isValidExpression] *)
  isValidExpression : string -> bool;
  (** the text of the n-th [UUID.randomUUID()] drawn *)
  randomUUID : nat -> string;
  (** the stack frames that [get_stacktrace] prints for an exception *)
  traceback : exn -> string
}.

(** The generator hands out canonical UUID texts. *)
Definition canonical_uuids (H : Host) : Prop :=
  forall n, is_uuid (randomUUID H n) = true.

(** [UUID.randomUUID().toString()] *)
Definition UUID_randomUUID (H : Host) : M string :=
  fun w => (Ok (randomUUID H (uuids_drawn w)),
            mkWorld (heap w) (S (uuids_drawn w)) (log w)).

(** ** [validate_uid] (core/utils.js) *)

(** [uid.replace(/[^A-Za-z0-9_-]/, "_")], [None] when the pattern does
    not match. *)
Fixpoint replace_first_invalid (s : string) : option string :=
  match s with
  | EmptyString => None
  | String c r =>
      if uid_char c then option_map (String c) (replace_first_invalid r)
      else Some (String "_" r)
  end.

(** [while (uid.match(/[^A-Za-z0-9_-]/)) uid = uid.replace(..., "_")],
    with a bound on the number of rounds. *)
Fixpoint replace_invalid_loop (rounds : nat) (uid : string) : string :=
  match rounds with
  | 0 => uid
  | S n =>
      match replace_first_invalid uid with
      | None => uid
      | Some uid' => replace_invalid_loop n uid'
      end
  end.

Fixpoint skip_underscores (s : string) : string :=
  match s with
  | EmptyString => EmptyString
  | String c r => if is_underscore c then skip_underscores r else s
  end.

(** [uid.replace(/__+/, "_")], [None] when the pattern does not match:
    the first run of two or more underscores becomes one. *)
Fixpoint replace_first_run (s : string) : option string :=
  match s with
  | EmptyString => None
  | String c r =>
      match r with
      | EmptyString => None
      | String c' _ =>
          if is_underscore c && is_underscore c'
          then Some (String "_" (skip_underscores r))
          else option_map (String c) (replace_first_run r)
      end
  end.

(** [while (uid.match(/__+/)) uid = uid.replace(/__+/, "_")], with a
    bound on the number of rounds. *)
Fixpoint replace_runs_loop (rounds : nat) (uid : string) : string :=
  match rounds with
  | 0 => uid
  | S n =>
      match replace_first_run uid with
      | None => uid
      | Some uid' => replace_runs_loop n uid'
      end
  end.

(** Each round of either loop fixes one character or shortens the text,
    so the length of the text bounds the rounds (lemmas
    [replace_invalid_loop_done] and [replace_runs_loop_done]). *)
Definition validate_uid (H : Host) (uid : option string) : M string :=
  let! uid :=
    if negb (JS.truthy uid) then UUID_randomUUID H
    else
      let uid := replace_invalid_loop (String.length (JS.str uid)) (JS.str uid) in
      let! u := UUID_randomUUID H in
      ret (uid +:+ u) in
  let uid := if negb (starts_alnum uid) then "javascript" +:+ uid else uid in
  ret (replace_runs_loop (String.length uid) uid).

(** ** Trigger builders (core/triggers.js) *)

Definition put_unless_null (key : string) (v : option string)
    (configuration : gmap string jsval) : gmap string jsval :=
  match v with
  | Some s => <[key := JStr s]> configuration
  | None => configuration
  end.

Definition build (H : Host) (trigger_name : option string) (type_uid : string)
    (configuration : gmap string jsval) : M Trigger :=
  let! uid := validate_uid H trigger_name in
  ret (mkTrigger uid type_uid configuration).

Definition ItemStateUpdateTrigger (H : Host) (item_name : string)
    (state trigger_name : option string) : M Trigger :=
  let configuration := <["itemName" := JStr item_name]> ∅ in
  let configuration := put_unless_null "state" state configuration in
  build H trigger_name "core.ItemStateUpdateTrigger" configuration.

Definition ItemStateChangeTrigger (H : Host) (item_name : string)
    (previous_state state trigger_name : option string) : M Trigger :=
  let configuration := <["itemName" := JStr item_name]> ∅ in
  let configuration := put_unless_null "previousState" previous_state configuration in
  let configuration := put_unless_null "state" state configuration in
  build H trigger_name "core.ItemStateChangeTrigger" configuration.

Definition ItemCommandTrigger (H : Host) (item_name : string)
    (command trigger_name : option string) : M Trigger :=
  let configuration := <["itemName" := JStr item_name]> ∅ in
  let configuration := put_unless_null "command" command configuration in
  build H trigger_name "core.ItemCommandTrigger" configuration.

Definition ThingStatusUpdateTrigger (H : Host) (thing_uid : option string)
    (status trigger_name : option string) : M Trigger :=
  let configuration := <["thingUID" := js_of thing_uid]> ∅ in
  let configuration := put_unless_null "status" status configuration in
  build H trigger_name "core.ThingStatusUpdateTrigger" configuration.

Definition ThingStatusChangeTrigger (H : Host) (thing_uid : option string)
    (previous_status status trigger_name : option string) : M Trigger :=
  let configuration := <["thingUID" := js_of thing_uid]> ∅ in
  let configuration := put_unless_null "previousStatus" previous_status configuration in
  let configuration := put_unless_null "status" status configuration in
  build H trigger_name "core.ThingStatusChangeTrigger" configuration.

Definition ChannelEventTrigger (H : Host) (channel_uid : option string)
    (event trigger_name : option string) : M Trigger :=
  let configuration := <["channelUID" := js_of channel_uid]> ∅ in
  let configuration := put_unless_null "event" event configuration in
  build H trigger_name "core.ChannelEventTrigger" configuration.

(** [event_types] is never an array on the paths from [when]. *)
Definition GenericEventTrigger (H : Host) (event_source : string)
    (event_types : jsval) (trigger_name : option string) : M Trigger :=
  let configuration := <["eventTopic" := JStr "openhab/*"]> ∅ in
  let configuration :=
    <["eventSource" := JStr ("openhab/" +:+ event_source +:+ "/")]> configuration in
  let configuration := <["eventTypes" := event_types]> configuration in
  build H trigger_name "core.GenericEventTrigger" configuration.

Definition ItemEventTrigger (H : Host) (event_types : jsval)
    (item_name trigger_name : option string) : M Trigger :=
  GenericEventTrigger H
    ("items" +:+ (if JS.truthy item_name then "/" +:+ JS.str item_name else ""))
    event_types trigger_name.

Definition ThingEventTrigger (H : Host) (event_types : jsval)
    (thing_uid trigger_name : option string) : M Trigger :=
  GenericEventTrigger H
    ("things" +:+ (if JS.truthy thing_uid then "/" +:+ JS.str thing_uid else ""))
    event_types trigger_name.

Definition CronTrigger (H : Host) (cron_expression trigger_name : option string)
    : M Trigger :=
  let configuration := <["cronExpression" := js_of cron_expression]> ∅ in
  build H trigger_name "timer.GenericCronTrigger" configuration.

Definition StartupTrigger (H : Host) (trigger_name : option string) : M Trigger :=
  let configuration := <["startlevel" := JNum 20]> ∅ in
  build H trigger_name "core.SystemStartlevelTrigger" configuration.

(** ** The [when] decorator *)

(** [add_trigger(func, trigger)]: [func] is a reference; the object it
    points to is changed in place and the reference is returned. *)
Definition add_trigger (func : loc) (trigger : option Trigger) : M loc :=
  fun w =>
    match heap w !! func with
    | None => (Throw (TypeError "Cannot read property 'triggers'"), w)
    | Some object =>
        let object :=
          if negb (truthy (object !! "triggers"))
          then <["triggers" := VArray []]> object
          else object in
        match object !! "triggers" with
        | Some (VArray a) =>
            (Ok func,
             mkWorld (<[func := <["triggers" := VArray (a ++ [trigger])]> object]> (heap w))
                     (uuids_drawn w) (log w))
        | _ => (Throw (TypeError "func.triggers.push is not a function"), w)
        end
    end.

(** The variables of [when] that the parser fills and the builders read. *)
Record Slots := mkSlots {
  target_type : option string;
  trigger_target : option string;
  trigger_type : option string;
  old_state : option string;
  new_state : option string
}.

Definition set_target_type (x : string) (v : Slots) : Slots :=
  mkSlots (Some x) (trigger_target v) (trigger_type v) (old_state v) (new_state v).
Definition set_trigger_target (x : string) (v : Slots) : Slots :=
  mkSlots (target_type v) (Some x) (trigger_type v) (old_state v) (new_state v).
Definition set_trigger_type (x : string) (v : Slots) : Slots :=
  mkSlots (target_type v) (trigger_target v) (Some x) (old_state v) (new_state v).
Definition set_old_state (x : string) (v : Slots) : Slots :=
  mkSlots (target_type v) (trigger_target v) (trigger_type v) (Some x) (new_state v).
Definition set_new_state (x : string) (v : Slots) : Slots :=
  mkSlots (target_type v) (trigger_target v) (trigger_type v) (old_state v) (Some x).

Definition lifecycle : list string := ["added"; "removed"; "modified"].

Definition or_throw {A} (o : option A) (e : exn) : result A :=
  match o with
  | Some a => Ok a
  | None => Throw e
  end.

Definition ItemNotFound : exn := JavaException "ItemNotFoundException".
Definition IllegalArgument : exn := JavaException "IllegalArgumentException".

Section Builders.

Variable H : Host.
(** the variables captured by the closures *)
Variable v : Slots.
Variable trigger_name : option string.

(** The function that [item_trigger] passes to [forEach].  It assigns the
    captured [trigger_name] anew for every member before it reads it, so
    the name is a local variable here. *)
Definition for_member (func : loc) (member : Item) : M unit :=
  let! type :=
    lift (or_throw (trigger_type v) (TypeError "Cannot read property 'replace' of null")) in
  let trigger_name :=
    "Item-" +:+ name member +:+ "-" +:+ JS.replace_space type
    +:+ (match old_state v with Some o => "-from-" +:+ o | None => "" end)
    +:+ (if JS.not_null (new_state v) && String.eqb type "changed"
         then "-to-" else "")
    +:+ (if JS.not_null (new_state v) && String.eqb type "received update"
         then "-" else "")
    +:+ (match new_state v with Some n => n | None => "" end) in
  let! trigger_name := validate_uid H (Some trigger_name) in
  let! trigger :=
    if String.eqb type "received update"
    then ItemStateUpdateTrigger H (name member) (new_state v) (Some trigger_name)
    else if String.eqb type "received command"
    then ItemCommandTrigger H (name member) (new_state v) (Some trigger_name)
    else ItemStateChangeTrigger H (name member) (old_state v) (new_state v)
           (Some trigger_name) in
  do! LOG (LogTrace "when: Created item_trigger: '{}'" [Some trigger_name]) in
  let! _ := add_trigger func (Some trigger) in
  ret tt.

(** The array [group_members] that [item_trigger] fills from [item]. *)
Definition group_members_of (item : Item) : result (list Item) :=
  if JS.eq (target_type v) "Member of"
  then or_throw (getMembers H item) (TypeError "item.getMembers is not a function")
  else if JS.eq (target_type v) "Descendent of"
  then or_throw (getAllMembers H item) (TypeError "item.getAllMembers is not a function")
  else Ok [item].

Definition item_trigger (func : loc) : M loc :=
  let! item := lift (or_throw (getItem H (trigger_target v)) ItemNotFound) in
  let! group_members := lift (group_members_of item) in
  do! forEach group_members (for_member func) in
  ret func.

(** [event_names[trigger_type]] for an object literal with these keys *)
Definition property (table : list (string * string)) (key : option string) : jsval :=
  match key with
  | Some k =>
      match find (fun kv => String.eqb (fst kv) k) table with
      | Some kv => JStr (snd kv)
      | None => JUndefined
      end
  | None => JUndefined
  end.

Definition or_null (x : option string) : option string :=
  if JS.truthy x then x else None.

Definition item_event_trigger (func : loc) : M loc :=
  let event_names :=
    [("added", "ItemAddedEvent"); ("removed", "ItemRemovedEvent");
     ("modified", "ItemUpdatedEvent")] in
  let! trigger :=
    ItemEventTrigger H (property event_names (trigger_type v))
      (or_null (trigger_target v)) trigger_name in
  do! LOG (LogTrace "when: Created item_event_trigger: '{}'" [trigger_name]) in
  add_trigger func (Some trigger).

Definition cron_trigger (func : loc) : M loc :=
  let! trigger := CronTrigger H (trigger_type v) trigger_name in
  do! LOG (LogTrace "when: Created cron_trigger: '{}'" [trigger_name]) in
  add_trigger func (Some trigger).

Definition system_trigger (func : loc) : M loc :=
  let! trigger := StartupTrigger H trigger_name in
  do! LOG (LogTrace "when: Created system_trigger: '{}'" [trigger_name]) in
  add_trigger func (Some trigger).

Definition thing_trigger (func : loc) : M loc :=
  let! trigger :=
    if JS.not_null (new_state v) || JS.not_null (old_state v)
    then
      if JS.eq (trigger_type v) "changed"
      then ThingStatusChangeTrigger H (trigger_target v) (old_state v) (new_state v)
             trigger_name
      else ThingStatusUpdateTrigger H (trigger_target v) (new_state v) trigger_name
    else
      ThingEventTrigger H
        (JStr (if JS.eq (trigger_type v) "changed"
               then "ThingStatusInfoChangedEvent" else "ThingStatusInfoEvent"))
        (trigger_target v) trigger_name in
  do! LOG (LogTrace "when: Created thing_trigger: '{}'" [trigger_name]) in
  add_trigger func (Some trigger).

Definition thing_event_trigger (func : loc) : M loc :=
  let event_names :=
    [("added", "ThingAddedEvent"); ("removed", "ThingRemovedEvent");
     ("modified", "ThingUpdatedEvent")] in
  let! trigger :=
    ThingEventTrigger H (property event_names (trigger_type v))
      (or_null (trigger_target v)) trigger_name in
  do! LOG (LogTrace "when: Created thing_event_trigger: '{}'" [trigger_name]) in
  add_trigger func (Some trigger).

Definition channel_trigger (func : loc) : M loc :=
  let! trigger := ChannelEventTrigger H (trigger_target v) (new_state v) trigger_name in
  do! LOG (LogTrace "when: Created channel_trigger: '{}'" [trigger_name]) in
  add_trigger func (Some trigger).

End Builders.

Definition bad_trigger (func : loc) : M loc := add_trigger func None.

(** What [when] returns: one of its inner functions, closed over the
    variables of the call. *)
Inductive inner_function :=
| Fn_item_trigger
| Fn_item_event_trigger
| Fn_cron_trigger
| Fn_system_trigger
| Fn_thing_trigger
| Fn_thing_event_trigger
| Fn_channel_trigger.

Inductive closure :=
| Closure (f : inner_function) (v : Slots) (trigger_name : option string)
| BadTrigger.

(** Calling the returned function on a callback object. *)
Definition call (H : Host) (c : closure) (func : loc) : M loc :=
  match c with
  | Closure Fn_item_trigger v _ => item_trigger H v func
  | Closure Fn_item_event_trigger v n => item_event_trigger H v n func
  | Closure Fn_cron_trigger v n => cron_trigger H v n func
  | Closure Fn_system_trigger v n => system_trigger H n func
  | Closure Fn_thing_trigger v n => thing_trigger H v n func
  | Closure Fn_thing_event_trigger v n => thing_event_trigger H v n func
  | Closure Fn_channel_trigger v n => channel_trigger H v n func
  | BadTrigger => bad_trigger func
  end.

Section Parser.

Variable H : Host.
Variable expr : string.

Definition could_not_be_parsed (reason : string) : exn :=
  RangeError ("when: '" +:+ expr +:+ "' could not be parsed. " +:+ reason).

Definition invalid_for (keyword : string) (shown_type : option string) : exn :=
  could_not_be_parsed
    ("'" +:+ keyword +:+ "' is invalid for target_type '" +:+ JS.str shown_type +:+ "'").

(** [x = input_list.splice(0, n).join(sep)] *)
Definition take_tokens (n : nat) (sep : string) (input_list : list string)
    : string * list string :=
  (JS.join sep (JS.slice0 n input_list), JS.spliced n input_list).

Definition next_two (input_list : list string) : string :=
  JS.join " " (JS.slice0 2 input_list).

(** [input_list[0]] printed: "undefined" past the end *)
Definition first_token (input_list : list string) : string :=
  default "undefined" (head input_list).

(** [input_list[0] === null]: an element of the array is a string, and
    past the end it is [undefined]; neither is [null]. *)
Definition token_is_null (token : option string) : bool := false.

(** One round of the body of [while (input_list.length)]. *)
Definition parse_round (st : list string * Slots) : result (list string * Slots) :=
  let '(input_list, v) := st in
  if negb (JS.not_null (target_type v)) then
    if JS.has ["Member of"; "Descendent of"] (Some (next_two input_list)) then
      let '(x, rest) := take_tokens 2 " " input_list in Ok (rest, set_target_type x v)
    else
      let '(x, rest) := take_tokens 1 "" input_list in Ok (rest, set_target_type x v)
  else if negb (JS.not_null (trigger_target v)) then
    if JS.eq (target_type v) "System" && (1 <? length input_list)%nat then
      if String.eqb (next_two input_list) "shuts down" then
        let '(x, rest) := take_tokens 2 " " input_list in Ok (rest, set_trigger_target x v)
      else
        let '(x, rest) := take_tokens 1 "" input_list in Ok (rest, set_trigger_target x v)
    else if JS.has ["Item"; "Thing"] (target_type v) && (length input_list =? 1)%nat then
      Ok (input_list, set_trigger_target "" v)
    else
      let '(x, rest) := take_tokens 1 "" input_list in Ok (rest, set_trigger_target x v)
  else if negb (JS.not_null (trigger_type v)) then
    if String.eqb (next_two input_list) "received update" then
      if JS.has ["Item"; "Thing"; "Member of"; "Descendent of"] (target_type v) then
        let '(x, rest) := take_tokens 2 " " input_list in Ok (rest, set_trigger_type x v)
      else Throw (invalid_for "received update" (trigger_type v))
    else if String.eqb (next_two input_list) "received command" then
      if JS.has ["Item"; "Member of"; "Descendent of"] (target_type v) then
        let '(x, rest) := take_tokens 2 " " input_list in Ok (rest, set_trigger_type x v)
      else Throw (invalid_for "received command" (target_type v))
    else if JS.eq (head input_list) "changed" then
      if JS.has ["Item"; "Thing"; "Member of"; "Descendent of"] (target_type v) then
        let '(x, rest) := take_tokens 1 "" input_list in Ok (rest, set_trigger_type x v)
      else Throw (invalid_for "changed" (target_type v))
    else if JS.eq (head input_list) "triggered" then
      if JS.eq (target_type v) "Channel" then
        let '(x, rest) := take_tokens 1 "" input_list in Ok (rest, set_trigger_type x v)
      else Throw (invalid_for "triggered" (target_type v))
    else if JS.eq (trigger_target v) "cron" then
      if JS.eq (target_type v) "Time" then
        let '(x, rest) := take_tokens (length input_list) " " input_list in
        if negb (isValidExpression H x) then
          Throw (could_not_be_parsed
                   ("'" +:+ x +:+ "' is not a valid cron expression. See "
                    +:+ "http://www.quartz-scheduler.org/documentation/quartz-2.1.x/tutorials/tutorial-lesson-06"))
        else Ok (rest, set_trigger_type x v)
      else Throw (invalid_for "cron" (target_type v))
    else if JS.has lifecycle (head input_list) then
      if JS.has ["Item"; "Thing"] (target_type v) then
        let '(x, rest) := take_tokens 1 "" input_list in Ok (rest, set_trigger_type x v)
      else
        Throw (could_not_be_parsed
                 ("'" +:+ first_token input_list +:+ "' is invalid for "
                  +:+ "target_type '" +:+ JS.str (target_type v) +:+ "'"))
    else
      Throw (RangeError
               ("when: '" +:+ expr +:+ "' could not be parsed because the trigger_type "
                +:+ (if token_is_null (head input_list) then "is missing"
                     else "'" +:+ first_token input_list +:+ "' is invalid")))
  else
    if negb (JS.not_null (old_state v)) && JS.eq (trigger_type v) "changed"
       && JS.eq (head input_list) "from" then
      let '(_, rest) := take_tokens 1 "" input_list in
      let '(x, rest) := take_tokens 1 "" rest in Ok (rest, set_old_state x v)
    else if negb (JS.not_null (new_state v)) && JS.eq (trigger_type v) "changed"
            && JS.eq (head input_list) "to" then
      let '(_, rest) := take_tokens 1 "" input_list in
      let '(x, rest) := take_tokens 1 "" rest in Ok (rest, set_new_state x v)
    else if negb (JS.not_null (new_state v))
            && JS.has ["received update"; "received command"] (trigger_type v) then
      let '(x, rest) := take_tokens 1 "" input_list in Ok (rest, set_new_state x v)
    else if negb (JS.not_null (new_state v)) && JS.eq (target_type v) "Channel" then
      let '(x, rest) := take_tokens 1 "" input_list in Ok (rest, set_new_state x v)
    else if (0 <? length input_list)%nat then
      Throw (could_not_be_parsed
               ("'" +:+ JS.join " " input_list +:+ "' is invalid for '"
                +:+ JS.str (target_type v) +:+ " " +:+ JS.str (trigger_target v) +:+ " "
                +:+ JS.str (trigger_type v) +:+ "'"))
    else Ok (input_list, v).

(** [while (input_list.length) { ... }], with a bound on the rounds:
    every round removes a token or fills [trigger_target] (lemma
    [parse_loop_done]). *)
Fixpoint parse_loop (rounds : nat) (st : list string * Slots)
    : result (list string * Slots) :=
  match rounds with
  | 0 => Ok st
  | S n =>
      if (0 <? length (fst st))%nat then
        match parse_round st with
        | Ok st' => parse_loop n st'
        | Throw e => Throw e
        end
      else Ok st
  end.

(** The tokenizer and grammar state machine: the values of the five
    variables when validation starts. *)
Definition parse : result Slots :=
  let input_list := JS.split expr in
  let v := mkSlots None None None None None in
  if (1 <? length input_list)%nat then
    match parse_loop (S (length input_list)) (input_list, v) with
    | Ok (_, v) => Ok v
    | Throw e => Throw e
    end
  else
    Ok (mkSlots (Some "Item") (Some expr) (Some "changed") None None).

End Parser.

Section Validation.

Variable H : Host.
Variable expr : string.
Variable v : Slots.

(** [x === []]: the literal is a new array, and a new object is
    identical to no other value, whatever [x] holds. *)
Definition identical_to_new_array {A} (x : list A) : bool := false.

Definition not_lifecycle : bool := negb (JS.has lifecycle (trigger_type v)).

(** [b && c] where evaluating [c] calls the host and may throw *)
Definition and_then (b : bool) (c : result bool) : result bool :=
  if b then c else Ok false.

Definition then_test {A B} (r : result A) (test : A -> B) : result B :=
  match r with
  | Ok a => Ok (test a)
  | Throw e => Throw e
  end.

(** [if (c) { throw e } else ...] *)
Definition throw_if (c : result bool) (e : exn) (otherwise : result unit)
    : result unit :=
  match c with
  | Throw x => Throw x
  | Ok true => Throw e
  | Ok false => otherwise
  end.

Definition because (reason : string) : exn :=
  RangeError ("when: '" +:+ expr +:+ "' could not be parsed because " +:+ reason).

Definition target_item : result Item :=
  or_throw (getItem H (trigger_target v)) ItemNotFound.

Definition is_null {A} (o : option A) : bool :=
  match o with
  | Some _ => false
  | None => true
  end.

(** [TypeParser.parseState(itemRegistry.getItem(trigger_target).acceptedDataTypes, s) === null] *)
Definition state_rejected (s : option string) : result bool :=
  then_test target_item (fun item => is_null (parseState H (acceptedDataTypes item) (JS.str s))).

(** [TypeParser.parseCommand(itemRegistry.getItem(trigger_target).acceptedCommandTypes, s) !== null] *)
Definition command_parsed (s : option string) : result bool :=
  then_test target_item
    (fun item => negb (is_null (parseCommand H (acceptedCommandTypes item) (JS.str s)))).

Definition target_channel : result (option Channel) :=
  then_test (or_throw (ChannelUID H (trigger_target v)) IllegalArgument)
    (things_getChannel H).

(** The chain of [if ... else if ...] that validates the inputs. *)
Definition validate : result unit :=
  throw_if
    (Ok (negb (JS.not_null (target_type v))
         || negb (JS.has ["Item"; "Member of"; "Descendent of"; "Thing"; "Channel";
                          "System"; "Time"; "Item Event"] (target_type v))))
    (could_not_be_parsed expr
       ("target_type is missing or invalid. Valid target_type values are: "
        +:+ "Item, Member of, Descendent of, Thing, Channel, System, and Time."))
  (throw_if
    (Ok (negb (JS.eq (target_type v) "System") && not_lifecycle
         && negb (JS.not_null (trigger_type v))))
    (RangeError ("when: '" +:+ expr
                 +:+ "' could not be parsed because trigger_type cannot be null"))
  (throw_if
    (Ok (JS.has ["Item"; "Member of"; "Descendent of"] (target_type v) && not_lifecycle
         && identical_to_new_array (getItems H (trigger_target v))))
    (because ("Item '" +:+ JS.str (trigger_target v) +:+ "' is not in the ItemRegistry"))
  (throw_if
    (and_then (JS.has ["Member of"; "Descendent of"] (target_type v))
       (then_test target_item (fun item => negb (String.eqb (type item) "Group"))))
    (because ("'" +:+ JS.str (target_type v) +:+ "' was specified, but '"
              +:+ JS.str (trigger_target v) +:+ "' is not a group"))
  (throw_if
    (and_then (JS.eq (target_type v) "Item" && not_lifecycle
               && JS.not_null (old_state v) && JS.eq (trigger_type v) "changed")
       (state_rejected (old_state v)))
    (because ("'" +:+ JS.str (old_state v) +:+ "' is not a valid state for '"
              +:+ JS.str (trigger_target v) +:+ "'"))
  (throw_if
    (and_then (JS.eq (target_type v) "Item" && not_lifecycle
               && JS.not_null (new_state v)
               && JS.has ["changed"; "received update"] (trigger_type v))
       (state_rejected (new_state v)))
    (because ("'" +:+ JS.str (new_state v) +:+ "' is not a valid state for '"
              +:+ JS.str (trigger_target v) +:+ "'"))
  (throw_if
    (and_then (JS.eq (target_type v) "Item" && not_lifecycle
               && JS.not_null (new_state v) && JS.eq (trigger_type v) "received command")
       (command_parsed (new_state v)))
    (because ("'" +:+ JS.str (new_state v) +:+ "' is not a valid command for '"
              +:+ JS.str (trigger_target v) +:+ "'"))
  (throw_if
    (and_then (JS.eq (target_type v) "Thing" && not_lifecycle)
       (then_test (or_throw (ThingUID H (trigger_target v)) IllegalArgument)
          (fun uid => is_null (things_get H uid))))
    (because ("Thing '" +:+ JS.str (trigger_target v) +:+ "' is not in the ThingRegistry"))
  (throw_if
    (Ok (JS.eq (target_type v) "Thing" && not_lifecycle && JS.not_null (old_state v)
         && is_null (ThingStatus H "old_state")))
    (RangeError ("when: '" +:+ JS.str (old_state v) +:+ "' is not a valid Thing status"))
  (throw_if
    (Ok (JS.eq (target_type v) "Thing" && not_lifecycle && JS.not_null (new_state v)
         && is_null (ThingStatus H "new_state")))
    (RangeError ("when: '" +:+ JS.str (new_state v) +:+ "' is not a valid Thing status"))
  (throw_if
    (and_then (JS.eq (target_type v) "Channel") (then_test target_channel is_null))
    (because ("Channel '" +:+ JS.str (trigger_target v) +:+ "' does not exist"))
  (throw_if
    (and_then (JS.eq (target_type v) "Channel")
       (match target_channel with
        | Ok (Some channel) =>
            Ok (negb (same_kind (kind channel) TRIGGER))
        | Ok None => Throw (TypeError "Cannot read property 'kind' of null")
        | Throw e => Throw e
        end))
    (because ("'" +:+ JS.str (trigger_target v) +:+ "' is not a trigger Channel"))
  (throw_if
    (Ok (JS.eq (target_type v) "System" && negb (JS.eq (trigger_target v) "started")))
    (could_not_be_parsed expr
       ("trigger_target '" +:+ JS.str (trigger_target v)
        +:+ "' is invalid for target_type 'System'. "
        +:+ "The only valid trigger_type value is 'started'"))
  (Ok tt))))))))))))).

(** The function that the [try] block returns; [None] is [undefined],
    when the block falls off its end. *)
Definition select (trigger_name : option string) : option closure :=
  if JS.has ["Item"; "Member of"; "Descendent of"] (target_type v) then
    if JS.has lifecycle (trigger_type v)
    then Some (Closure Fn_item_event_trigger v trigger_name)
    else Some (Closure Fn_item_trigger v trigger_name)
  else if JS.eq (target_type v) "Thing" then
    if JS.has lifecycle (trigger_type v)
    then Some (Closure Fn_thing_event_trigger v trigger_name)
    else Some (Closure Fn_thing_trigger v trigger_name)
  else if JS.eq (target_type v) "Channel" then
    Some (Closure Fn_channel_trigger v trigger_name)
  else if JS.eq (target_type v) "System" then
    Some (Closure Fn_system_trigger v trigger_name)
  else if JS.eq (target_type v) "Time" then
    Some (Closure Fn_cron_trigger v trigger_name)
  else None.

End Validation.

(** [get_stacktrace(e, func_name)] (core/log.js); the frames are the host's. *)
Definition newline : string := String (ascii_of_nat 10) EmptyString.

Definition get_stacktrace (H : Host) (e : exn) (func_name : string) : string :=
  newline +:+ "Error during the evaluation of '"
  +:+ (if JS.truthy (Some func_name) then func_name else "{anonymous}") +:+ "'"
  +:+ traceback H e.

(** The [try] block of [when]. *)
Definition when_try (H : Host) (expr : string) : M (option closure) :=
  let! v := lift (parse H expr) in
  do! lift (validate H expr v) in
  do! LOG (LogTrace
             ("when: expr='{}', target_type='{}', trigger_target='{}', "
              +:+ "trigger_type='{}', old_state='{}', new_state='{}'")
             [Some expr; target_type v; trigger_target v; trigger_type v;
              old_state v; new_state v]) in
  (* trigger_name is still null here, so [trigger_name || expr] is [expr] *)
  let! trigger_name := validate_uid H (Some expr) in
  ret (select v (Some trigger_name)).

(** [when(expr)]: the [catch] block turns a [RangeError] into the function
    that marks the callback, and anything else into a generic [Error]. *)
Definition when (H : Host) (expr : string) : M (option closure) :=
  fun w =>
    match when_try H expr w with
    | (Ok f, w') => (Ok f, w')
    | (Throw (RangeError message), w') =>
        (do! LOG (LogWarn message) in ret (Some BadTrigger)) w'
    | (Throw e, w') =>
        (do! LOG (LogError (get_stacktrace H e "when")) in
         throw (Error "log_traceback caught an error (see the stack trace for details)")) w'
    end.

(** [when(expr)(func)] *)
Definition decorate (H : Host) (expr : string) (func : loc) : M loc :=
  let! f := when H expr in
  match f with
  | Some f => call H f func
  | None => throw (TypeError "undefined is not a function")
  end.

(** ** A small installation to run the code on *)

Module Demo.

Definition hex_digit (n : nat) : ascii :=
  nth (n mod 16) (list_ascii_of_string "0123456789abcdef") "0"%char.

Fixpoint hex (digits n : nat) : string :=
  match digits with
  | 0 => EmptyString
  | S d => hex d (n / 16) +:+ String (hex_digit n) EmptyString
  end.

(** The n-th UUID drawn: distinct for the first 16^12 draws. *)
Definition uuid (n : nat) : string := "00000000-0000-4000-8000-" +:+ hex 12 n.

Definition switch (n : string) : Item := mkItem n "Switch" ["OnOffType"] ["OnOffType"].
Definition group (n : string) : Item := mkItem n "Group" [] [].

Definition Motion_Hall := switch "Motion_Hall".
Definition Motion_Attic := switch "Motion_Attic".
Definition Motion_Cellar := switch "Motion_Cellar".
Definition Test_Switch_1 := switch "Test_Switch_1".
Definition gMotion_Sensors := mkItem "gMotion_Sensors" "Group" ["OnOffType"] ["OnOffType"].
Definition gUpstairs := group "gUpstairs".
Definition gEmpty := group "gEmpty".

Definition items : list Item :=
  [Motion_Hall; Motion_Attic; Motion_Cellar; Test_Switch_1; gMotion_Sensors;
   gUpstairs; gEmpty].

(** gMotion_Sensors holds Motion_Hall, Motion_Cellar and the group
    gUpstairs, which holds Motion_Attic. *)
Definition members (item : Item) : option (list Item) :=
  if String.eqb (name item) "gMotion_Sensors" then Some [Motion_Hall; Motion_Cellar; gUpstairs]
  else if String.eqb (name item) "gUpstairs" then Some [Motion_Attic]
  else if String.eqb (name item) "gEmpty" then Some []
  else None.

Definition all_members (item : Item) : option (list Item) :=
  if String.eqb (name item) "gMotion_Sensors"
  then Some [Motion_Hall; Motion_Cellar; Motion_Attic]
  else members item.

Definition on_off (types : list string) (s : string) : option string :=
  if existsb (String.eqb "OnOffType") types && existsb (String.eqb s) ["ON"; "OFF"]
  then Some s else None.

Definition thing_status (member : string) : option string :=
  if existsb (String.eqb member)
       ["UNINITIALIZED"; "INITIALIZING"; "UNKNOWN"; "ONLINE"; "OFFLINE"; "REMOVING";
        "REMOVED"]
  then Some member else None.

Definition host : Host := {|
  getItem := fun n => n ≫= fun n => find (fun i => String.eqb (name i) n) items;
  getItems := fun n => filter (fun i => Some (name i) = n) items;
  getMembers := members;
  getAllMembers := all_members;
  parseState := on_off;
  parseCommand := on_off;
  ThingUID := fun s => s;
  things_get := fun uid => if String.eqb uid "kodi:kodi:familyroom" then Some uid else None;
  ThingStatus := thing_status;
  ChannelUID := fun s => s;
  things_getChannel := fun uid =>
    if String.eqb uid "astro:sun:local:eclipse#event" then Some (mkChannel TRIGGER)
    else if String.eqb uid "astro:sun:local:rise#start" then Some (mkChannel STATE)
    else None;
  isValidExpression := fun _ => true;
  randomUUID := uuid;
  traceback := fun _ => EmptyString
|}.

(** One callback object, at location 0, with a name and no triggers. *)
Definition MyRule : loc := 0.

Definition MyRule_object : gmap string value := <["name" := VStr "MyRule"]> ∅.

Definition world : World := mkWorld (<[MyRule := MyRule_object]> ∅) 0 [].

(** [when(expr)(MyRule)] *)
Definition decorate (expr : string) : M loc := decorate host expr MyRule.

(** The triggers attribute of [MyRule] after a run. *)
Definition triggers_after {A} (r : result A * World) : option value :=
  heap (snd r) !! MyRule ≫= fun object => object !! "triggers".

End Demo.

(** ** Definitions used to state the properties *)

(** The text that [validate_uid] computes from [uid] and the UUID drawn. *)
Definition uid_text (uid : option string) (u : string) : string :=
  let uid :=
    if negb (JS.truthy uid) then u
    else replace_invalid_loop (String.length (JS.str uid)) (JS.str uid) +:+ u in
  let uid := if negb (starts_alnum uid) then "javascript" +:+ uid else uid in
  replace_runs_loop (String.length uid) uid.

Definition draw (w : World) : World :=
  mkWorld (heap w) (S (uuids_drawn w)) (log w).

Fixpoint count_invalid (s : string) : nat :=
  match s with
  | EmptyString => 0
  | String c r => (if uid_char c then 0 else 1) + count_invalid r
  end.

Definition not_underscore (c : ascii) : bool := negb (is_underscore c).

(** What bounds the rounds of the parser's loop. *)
Definition rounds_left (st : list string * Slots) : nat :=
  length (fst st) + (if JS.not_null (trigger_target (snd st)) then 0 else 1).

(** The triggers of a callback object read as a list: a missing or falsy
    attribute is the empty list; [None] when the attribute holds something
    else, on which [push] fails. *)
Definition triggers_of (object : gmap string value) : option (list (option Trigger)) :=
  match object !! "triggers" with
  | Some (VArray a) => Some a
  | other => if truthy other then None else Some []
  end.

(** The object with its triggers attribute set to the list [a]. *)
Definition with_triggers (a : list (option Trigger)) (object : gmap string value)
    : gmap string value :=
  <["triggers" := VArray a]> object.

Definition store (func : loc) (object : gmap string value) (w : World) : World :=
  mkWorld (<[func := object]> (heap w)) (uuids_drawn w) (log w).

Definition logged (e : log_entry) (w : World) : World :=
  mkWorld (heap w) (uuids_drawn w) (log w ++ [e]).

(** What a call did to the world, seen from the callback object [object]
    at [func]: no other object changed, the object kept every attribute
    but [triggers], and [specs] were appended to its triggers (nothing is
    touched when there is nothing to append). *)
Definition attached (specs : list (option Trigger)) (func : loc)
    (object : gmap string value) (w w' : World) : Prop :=
  (forall other, other ≠ func -> heap w' !! other = heap w !! other)
  /\ exists object',
       heap w' !! func = Some object'
       /\ (forall key, key ≠ "triggers" -> object' !! key = object !! key)
       /\ match specs with
          | [] => object' = object
          | _ => exists a, triggers_of object = Some a
                           /\ object' !! "triggers" = Some (VArray (a ++ specs))
          end.

(** The name that [for_member] derives for a member, before sanitizing. *)
Definition member_trigger_name (v : Slots) (type : string) (member : Item) : string :=
  "Item-" +:+ name member +:+ "-" +:+ JS.replace_space type
  +:+ (match old_state v with Some o => "-from-" +:+ o | None => "" end)
  +:+ (if JS.not_null (new_state v) && String.eqb type "changed" then "-to-" else "")
  +:+ (if JS.not_null (new_state v) && String.eqb type "received update" then "-" else "")
  +:+ (match new_state v with Some n => n | None => "" end).

(** The trigger that [for_member] attaches for a member when [n] UUIDs
    were drawn before: the name takes the n-th UUID and the id the next. *)
Definition member_spec (H : Host) (v : Slots) (type : string) (member : Item) (n : nat)
    : Trigger :=
  let trigger_name :=
    uid_text (Some (member_trigger_name v type member)) (randomUUID H n) in
  let uid := uid_text (Some trigger_name) (randomUUID H (S n)) in
  let item := <["itemName" := JStr (name member)]> ∅ in
  if String.eqb type "received update"
  then mkTrigger uid "core.ItemStateUpdateTrigger"
         (put_unless_null "state" (new_state v) item)
  else if String.eqb type "received command"
  then mkTrigger uid "core.ItemCommandTrigger"
         (put_unless_null "command" (new_state v) item)
  else mkTrigger uid "core.ItemStateChangeTrigger"
         (put_unless_null "state" (new_state v)
            (put_unless_null "previousState" (old_state v) item)).

Fixpoint member_specs (H : Host) (v : Slots) (type : string) (members : list Item)
    (n : nat) : list Trigger :=
  match members with
  | [] => []
  | member :: rest => member_spec H v type member n :: member_specs H v type rest (S (S n))
  end.

(** The heap after [specs] were appended to the triggers [a] of [object]. *)
Definition heap_with (specs : list (option Trigger)) (func : loc)
    (object : gmap string value) (a : list (option Trigger))
    (h : gmap loc (gmap string value)) : gmap loc (gmap string value) :=
  match specs with
  | [] => h
  | _ => <[func := with_triggers (a ++ specs) object]> h
  end.

(** The message of one of the two errors about a Thing status. *)
Definition thing_status_message (status : string) : string :=
  "when: '" +:+ status +:+ "' is not a valid Thing status".

Definition uuid_char (c : ascii) : bool := is_hex c || Ascii.eqb c "-".

(** A message that starts with "when: '", the expression and a reason. *)
Definition names_expression (expr : string) (e : exn) : Prop :=
  exists reason, e = RangeError ("when: '" +:+ expr +:+ reason).

(** A computation that builds a trigger: it draws one UUID and returns. *)
Definition builds (m : M Trigger) : Prop :=
  forall w, exists t, m w = (Ok t, draw w).

(** What a call of the closure needs from the registry to return: the
    item-state closure looks up its target and the members; the others
    look up nothing. *)
Definition resolves (H : Host) (c : closure) : Prop :=
  match c with
  | Closure Fn_item_trigger v _ =>
      exists type item members,
        trigger_type v = Some type
        /\ getItem H (trigger_target v) = Some item
        /\ group_members_of H v item = Ok members
  | _ => True
  end.

(** What the parser keeps true of the variables: a lifecycle keyword is
    only taken as the trigger type of an Item or a Thing (for Time, the
    trigger type is whatever the cron expression reads). *)
Definition lifecycle_target (v : Slots) : Prop :=
  JS.has lifecycle (trigger_type v) = true ->
  JS.has ["Item"; "Thing"; "Time"] (target_type v) = true.

(** A text without a space: one token for [split]. *)
Definition no_space (s : string) : bool :=
  all_chars (fun c => negb (Ascii.eqb c " ")) s.

(** Two validations of the same variables under different expressions end
    alike: both pass, both throw a [RangeError] (the messages name the
    expression), or both throw the same exception of the host. *)
Definition same_failure (r1 r2 : result unit) : Prop :=
  match r1, r2 with
  | Ok _, Ok _ => True
  | Throw (RangeError _), Throw (RangeError _) => True
  | Throw x, Throw y => x = y
  | _, _ => False
  end.

(** Two calls of [when] end alike: they leave the same objects and have
    drawn as many UUIDs, and they either return functions that do the same
    to every callback in every world (the same triggers, with the same ids
    when the same UUIDs are drawn), or throw the same error. *)
Definition same_outcome (H : Host) (r1 r2 : result (option closure) * World) : Prop :=
  heap (snd r1) = heap (snd r2)
  /\ uuids_drawn (snd r1) = uuids_drawn (snd r2)
  /\ match fst r1, fst r2 with
     | Ok (Some c1), Ok (Some c2) => forall func w, call H c1 func w = call H c2 func w
     | Ok None, Ok None => True
     | Throw e1, Throw e2 => e1 = e2
     | _, _ => False
     end.

(** ** [validate_uid] without its loops *)

(** Every character outside [A-Za-z0-9_-] becomes an underscore. *)
Fixpoint underscored (s : string) : string :=
  match s with
  | EmptyString => EmptyString
  | String c r => String (if uid_char c then c else "_"%char) (underscored r)
  end.

(** Every run of underscores becomes one: an underscore that another one
    follows is dropped. *)
Fixpoint squeezed (s : string) : string :=
  match s with
  | EmptyString => EmptyString
  | String c r =>
      match r with
      | String c' _ =>
          if is_underscore c && is_underscore c' then squeezed r
          else String c (squeezed r)
      | EmptyString => String c EmptyString
      end
  end.

(** The same text as [uid_text], written with the two functions above. *)
Definition uid_closed_form (uid : option string) (u : string) : string :=
  let text := if JS.truthy uid then underscored (JS.str uid) +:+ u else u in
  squeezed (if starts_alnum text then text else "javascript" +:+ text).

(** ** The variables of the parser *)

(** [b] is what [a] was, if [a] was set. *)
Definition kept (a b : option string) : Prop :=
  forall x, a = Some x -> b = Some x.

Definition slots_kept (v v' : Slots) : Prop :=
  kept (target_type v) (target_type v')
  /\ kept (trigger_target v) (trigger_target v')
  /\ kept (trigger_type v) (trigger_type v')
  /\ kept (old_state v) (old_state v')
  /\ kept (new_state v) (new_state v').

(** No variable is set before the ones the loop fills first. *)
Definition filled_in_order (v : Slots) : bool :=
  (JS.not_null (target_type v) || negb (JS.not_null (trigger_target v)))
  && (JS.not_null (trigger_target v) || negb (JS.not_null (trigger_type v)))
  && (JS.not_null (trigger_type v)
      || negb (JS.not_null (old_state v) || JS.not_null (new_state v))).

(** A target type as the loop can set it: one token, or one of the two
    phrases of two tokens. *)
Definition target_shape (t : option string) : bool :=
  match t with
  | None => true
  | Some t => no_space t || String.eqb t "Member of" || String.eqb t "Descendent of"
  end.

(** ** What the expressions of [when] build *)

(** The id of the trigger that a function for one trigger attaches: the
    expression with the first UUID drawn is the name, and the name with
    the second UUID is the id, both sanitized. *)
Definition expression_id (H : Host) (expr : string) (w : World) : string :=
  uid_text (Some (uid_text (Some expr) (randomUUID H (uuids_drawn w))))
    (randomUUID H (S (uuids_drawn w))).

(** The event type for a lifecycle keyword: [event_names[trigger_type]]
    of [item_event_trigger] and [thing_event_trigger]. *)
Definition lifecycle_event (T K : string) : string :=
  T +:+ (if String.eqb K "added" then "Added"
         else if String.eqb K "removed" then "Removed" else "Updated") +:+ "Event".

(** "Item added" and "Item X added". *)
Definition lifecycle_expression_text (T : string) (target : option string) (K : string)
    : string :=
  T +:+ (match target with Some X => " " +:+ X | None => "" end) +:+ " " +:+ K.

Definition not_a_cron_expression (expr c : string) : string :=
  "when: '" +:+ expr +:+ "' could not be parsed. '" +:+ c
  +:+ "' is not a valid cron expression. See "
  +:+ "http://www.quartz-scheduler.org/documentation/quartz-2.1.x/tutorials/tutorial-lesson-06".

Definition not_started (expr X : string) : string :=
  "when: '" +:+ expr +:+ "' could not be parsed. trigger_target '" +:+ X
  +:+ "' is invalid for target_type 'System'. "
  +:+ "The only valid trigger_type value is 'started'".

(** "Channel uid triggered" and "Channel uid triggered EVENT". *)
Definition channel_expression_text (uid : string) (event : option string) : string :=
  "Channel " +:+ uid +:+ " triggered"
  +:+ (match event with Some E => " " +:+ E | None => "" end).

(** What [when] throws for an exception that is not a [RangeError]. *)
Definition generic_error : exn :=
  Error "log_traceback caught an error (see the stack trace for details)".


(** The states are only set after the trigger types that take them. *)
Definition states_fit (v : Slots) : bool :=
  (negb (JS.not_null (old_state v)) || JS.eq (trigger_type v) "changed")
  && (negb (JS.not_null (new_state v))
      || JS.has ["changed"; "received update"; "received command"] (trigger_type v)
      || JS.eq (target_type v) "Channel").

(** ** The rule decorator (core/rules.js) *)

Inductive Visibility := VISIBLE | EXPERT.

(** [tags || callback.tags || []] *)
Inductive Tags :=
| TagsGiven (tags : list string)
| TagsOf (callback_tags : value)
| NoTags.

(** What [function_rule] sets on the [SimpleRule] it creates. *)
Record SimpleRule := mkSimpleRule {
  getName : value;
  getDescription : value;
  getTags : Tags;
  getVisibility : Visibility;
  getTriggers : list (option Trigger)
}.

(** The host, as the rules module reaches it. *)
Record Automation := mkAutomation {
  (** [object instanceof Function] *)
  instanceof_Function : loc -> bool;
  (** what [new SimpleRule(...)] throws, if it throws *)
  SimpleRule_throws : option exn;
  (** the UID of the n-th rule that [automationManager.addRule] returns *)
  rule_UID : nat -> string
}.

Inductive Level := DEBUG | WARN | ERROR.

(** An entry of the logger of core.rules. *)
Record RuleLogEntry := mkRuleLogEntry {
  entry_level : Level;
  entry_format : string;
  entry_arguments : list (option value)
}.

(** The world with the rules that the automation manager holds. *)
Record Engine := mkEngine {
  world : World;
  rules : list SimpleRule;
  rules_log : list RuleLogEntry
}.

(** The variables of a call [rule(name, description, tags, visible)],
    which the returned decorator captures; it assigns [name]. *)
Record RuleArgs := mkRuleArgs {
  rule_name : option value;
  rule_description : option string;
  rule_tags : option (list string);
  rule_visible : bool
}.

Definition rule (name description : option string) (tags : option (list string))
    (visible : bool) : RuleArgs :=
  mkRuleArgs (option_map VStr name) description tags visible.

Definition with_name (name : option value) (c : RuleArgs) : RuleArgs :=
  mkRuleArgs name (rule_description c) (rule_tags c) (rule_visible c).

(** [a || b] *)
Definition or_else (a b : option value) : option value :=
  if truthy a then a else b.

Definition LOG_rules (l : Level) (message : string) (arguments : list (option value))
    (e : Engine) : Engine :=
  mkEngine (world e) (rules e) (rules_log e ++ [mkRuleLogEntry l message arguments]).

Definition set_object (object : loc) (o : gmap string value) (e : Engine) : Engine :=
  mkEngine (mkWorld (<[object := o]> (heap (world e))) (uuids_drawn (world e))
              (log (world e)))
    (rules e) (rules_log e).

(** The rule that [function_rule] makes for the callback object [o]: the
    setters of the [SimpleRule] and their arguments. *)
Definition new_SimpleRule (c : RuleArgs) (o : gmap string value)
    (triggers : list (option Trigger)) : SimpleRule :=
  mkSimpleRule
    (default VUndefined
       (or_else (or_else (rule_name c) (o !! "name")) (Some (VStr "JSR223-JavaScript"))))
    (default VUndefined
       (or_else (or_else (option_map VStr (rule_description c)) (o !! "description"))
          (Some (VStr ""))))
    (match rule_tags c with
     | Some tags => TagsGiven tags
     | None => if truthy (o !! "tags")
               then TagsOf (default VUndefined (o !! "tags")) else NoTags
     end)
    (if rule_visible c then EXPERT else VISIBLE)
    triggers.

(** [function_rule(callback, triggers, name, description, tags, visible)];
    [o] is the object that [callback] points to.  The logger is stored on
    the callback before anything can throw. *)
Definition function_rule (A : Automation) (H : Host) (callback : loc)
    (o : gmap string value) (triggers : list (option Trigger)) (c : RuleArgs)
    (e : Engine) : option SimpleRule * Engine :=
  let o := <["log" := VObject]> o in
  let e := set_object callback o e in
  match SimpleRule_throws A with
  | None => (Some (new_SimpleRule c o triggers), e)
  | Some x => (None, LOG_rules ERROR (get_stacktrace H x "function_rule") [] e)
  end.

(** [addRule(rule)]: the UID of the rule that the manager returns. *)
Definition addRule (A : Automation) (simple_rule : SimpleRule) (e : Engine)
    : string * Engine :=
  let e := LOG_rules DEBUG "Added rule [{}]" [Some (getName simple_rule)] e in
  (rule_UID A (length (rules e)),
   mkEngine (world e) (rules e ++ [simple_rule]) (rules_log e)).

(** The decorator that [rule(...)] returns, applied to [object]; the
    captured variables come back as they are after the call. *)
Definition decorator (A : Automation) (H : Host) (c : RuleArgs) (object : loc)
    (e : Engine) : result (option loc) * RuleArgs * Engine :=
  match heap (world e) !! object with
  | None => (Throw (TypeError "Cannot read property 'name'"), c, e)
  | Some o =>
      let name := or_else (rule_name c) (o !! "name") in
      let c := with_name name c in
      if instanceof_Function A object then
        match o !! "triggers" with
        | Some (VArray (trigger :: rest)) =>
            let triggers := trigger :: rest in
            if negb (existsb is_null triggers) then
              match function_rule A H object o triggers c e with
              | (Some simple_rule, e) =>
                  let '(UID, e) := addRule A simple_rule e in
                  match heap (world e) !! object with
                  | Some o =>
                      (Ok (Some object), c,
                       set_object object
                         (<["triggers" := VNull]> (<["UID" := VStr UID]> o)) e)
                  | None => (Throw (TypeError "Cannot set property 'UID'"), c, e)
                  end
              | (None, e) => (Ok None, c, e)
              end
            else
              (Ok None, c,
               LOG_rules WARN
                 "rule: not creating rule [{}] due to an invalid trigger definition"
                 [name] e)
        | _ =>
            (Ok None, c,
             LOG_rules WARN
               "rule: not creating rule [{}] due to no triggers being defined"
               [name] e)
        end
      else
        (Ok None, c,
         LOG_rules ERROR "rule: not creating rule [{}] because it is not a function"
           [name] e)
  end.

(** [when(e_n)(... when(e_1)(func))]: the expressions in the order in
    which their functions are applied. *)
Fixpoint decorate_all (H : Host) (exprs : list string) (func : loc) : M loc :=
  match exprs with
  | [] => ret func
  | expr :: rest => let! func := decorate H expr func in decorate_all H rest func
  end.

(** The parser or the validation throws a [RangeError] on [expr]. *)
Definition rejected (H : Host) (expr : string) : bool :=
  match parse H expr with
  | Throw (RangeError _) => true
  | Throw _ => false
  | Ok v =>
      match validate H expr v with
      | Throw (RangeError _) => true
      | _ => false
      end
  end.

(** The triggers of the object hold a [null]. *)
Definition marked (o : gmap string value) : Prop :=
  exists a, o !! "triggers" = Some (VArray a) /\ In None a.

(** The callback object after its rule was added. *)
Definition registered_object (A : Automation) (o : gmap string value) (e : Engine)
    : gmap string value :=
  <["triggers" := VNull]>
    (<["UID" := VStr (rule_UID A (length (rules e)))]> (<["log" := VObject]> o)).

(** ** [validate_item] and [validate_channel_uid] (core/utils.js) *)

(** The argument of [validate_item]: a string, an Item, or a value
    without a [name], given by how the logger prints it. *)
Inductive item_argument :=
| ItemName (item_name : string)
| ItemObject (item : Item)
| NotAnItem (printed : string).

Definition not_in_the_itemRegistry (printed : string) : log_entry :=
  LogWarn ("'" +:+ printed +:+ "' is not in the itemRegistry").

Definition validate_item (H : Host) (item_or_item_name : item_argument)
    : M (option Item) :=
  let checked (item : Item) : M (option Item) :=
    if identical_to_new_array (getItems H (Some (name item)))
    then do! LOG (not_in_the_itemRegistry (name item)) in ret None
    else ret (Some item) in
  match item_or_item_name with
  | ItemName item =>
      if identical_to_new_array (getItems H (Some item))
      then do! LOG (not_in_the_itemRegistry item) in ret None
      else let! item := lift (or_throw (getItem H (Some item)) ItemNotFound) in
           checked item
  | ItemObject item => checked item
  | NotAnItem printed =>
      do! LOG (LogWarn ("'" +:+ printed +:+ "' is not and Item or string")) in ret None
  end.

(** The argument of [validate_channel_uid]: a string, a ChannelUID, or
    another value. *)
Inductive channel_argument :=
| ChannelString (s : string)
| ChannelObject (channel_uid : string)
| NotAChannel (printed : string).

Definition not_a_valid_channel (channel_uid : string) : log_entry :=
  LogWarn ("'" +:+ channel_uid +:+ "' is not a valid channel").

Definition validate_channel_uid (H : Host) (channel_uid_or_string : channel_argument)
    : M (option string) :=
  let checked (channel_uid : string) : M (option string) :=
    if negb (is_null (things_getChannel H channel_uid))
    then do! LOG (not_a_valid_channel channel_uid) in ret None
    else ret (Some channel_uid) in
  match channel_uid_or_string with
  | ChannelString s =>
      let! channel_uid := lift (or_throw (ChannelUID H (Some s)) IllegalArgument) in
      checked channel_uid
  | ChannelObject channel_uid => checked channel_uid
  | NotAChannel printed =>
      do! LOG (LogWarn ("'" +:+ printed +:+ "' is not a string or ChannelUID")) in
      ret None
  end.

(** ** The extension provider (core/providers.js) *)

Record ExtensionProvider := mkExtensionProvider {
  provider_name : string;
  default_presets : gset string;
  presets : gset string;
  preset_values : gmap string (gset string);
  values : gmap string value
}.

(** [new JavascriptExtensionProvider(name)] *)
Definition JavascriptExtensionProvider (name : string) : ExtensionProvider :=
  mkExtensionProvider name ∅ ∅ ∅ ∅.

Definition addValue (name : string) (v : value) (p : ExtensionProvider)
    : ExtensionProvider :=
  mkExtensionProvider (provider_name p) (default_presets p) (presets p)
    (preset_values p) (<[name := v]> (values p)).

Definition addPreset (preset_name : string) (value_names : list string)
    (is_default : bool) (p : ExtensionProvider) : ExtensionProvider :=
  mkExtensionProvider (provider_name p)
    (if is_default then {[preset_name]} ∪ default_presets p else default_presets p)
    ({[preset_name]} ∪ presets p)
    (<[preset_name := list_to_set value_names]> (preset_values p))
    (values p).

(** The methods of the provider object that [register] hands to the host. *)
Definition getDefaultPresets (p : ExtensionProvider) : gset string := default_presets p.
Definition getPresets (p : ExtensionProvider) : gset string := presets p.
Definition getTypes (p : ExtensionProvider) : gset string := dom (values p).
Definition get (p : ExtensionProvider) (name : string) : option value := values p !! name.

(** [importPreset(scriptIdentifier, preset)]: a name without a value is
    exported with [null], which is [None] in the map returned. *)
Definition importPreset (p : ExtensionProvider) (preset : string)
    : gmap string (option value) :=
  set_fold (fun name export_values => <[name := values p !! name]> export_values) ∅
    (default ∅ (preset_values p !! preset)).

(** A call of one of the two methods that fill a provider. *)
Inductive provider_call :=
| AddValue (name : string) (v : value)
| AddPreset (preset_name : string) (value_names : list string) (is_default : bool).

Definition provider_after (calls : list provider_call) (p : ExtensionProvider)
    : ExtensionProvider :=
  foldl (fun p call =>
           match call with
           | AddValue name v => addValue name v p
           | AddPreset preset_name value_names is_default =>
               addPreset preset_name value_names is_default p
           end) p calls.

(** ** [String.prototype.format] (core/utils.js) *)

(** [\w] *)
Definition is_word (c : ascii) : bool := is_alnum c || is_underscore c.

(** The longest prefix of word characters, and what follows it. *)
Fixpoint word_prefix (s : string) : string * string :=
  match s with
  | String c r =>
      if is_word c then let '(key, rest) := word_prefix r in (String c key, rest)
      else (EmptyString, s)
  | EmptyString => (EmptyString, EmptyString)
  end.

(** A match of [/{(\w+)}/] at the start of [s]: the key and what follows
    the closing brace. *)
Definition placeholder (s : string) : option (string * string) :=
  match s with
  | String c r =>
      if Ascii.eqb c "{" then
        match word_prefix r with
        | (String k key, String c' rest) =>
            if Ascii.eqb c' "}" then Some (String k key, rest) else None
        | _ => None
        end
      else None
  | EmptyString => None
  end.

(** [this.replace(/{(\w+)}/g, function (match, key) {...})]: [args key]
    is the text of [args[key]], [None] when it is undefined, where [args]
    is the arguments object or the one object given.  The matches are
    found from left to right, each search starting after the last match;
    [rounds] bounds the characters looked at. *)
Fixpoint format_loop (rounds : nat) (args : string -> option string) (s : string)
    : string :=
  match rounds with
  | 0 => s
  | S n =>
      match placeholder s with
      | Some (key, rest) =>
          default ("{" +:+ key +:+ "}") (args key) +:+ format_loop n args rest
      | None =>
          match s with
          | String c r => String c (format_loop n args r)
          | EmptyString => EmptyString
          end
      end
  end.

Definition format (args : string -> option string) (s : string) : string :=
  format_loop (String.length s) args s.

(** ** Item metadata (core/metadata.js) *)

(** A configuration is the [java.util.Map] of a Metadata object or a
    JavaScript object; only the first has a method [forEach]. *)
Inductive Configuration :=
| JavaMap (entries : gmap string jsval)
| JSObject (entries : gmap string jsval).

Definition entries_of (c : Configuration) : gmap string jsval :=
  match c with
  | JavaMap entries | JSObject entries => entries
  end.

(** [new Metadata(key, value, configuration)], without its key. *)
Record Metadata := mkMetadata {
  metadata_value : option string;
  metadata_configuration : gmap string jsval
}.

Inductive trace_argument :=
| Text (s : option string)
| Value (v : jsval)
| Json (configuration : gmap string jsval).

(** The registry of the host and the logger of core.metadata. *)
Record Store := mkStore {
  registry : gmap (string * string) Metadata;
  traced : list (string * list trace_argument)
}.

(** The host: the pairs that [new MetadataKey(namespace, item_name)]
    takes; it throws on the others. *)
Record MetadataHost := mkMetadataHost {
  valid_key : string -> string -> bool
}.

Definition MS (A : Type) : Type := Store -> result A * Store.

Definition ms_ret {A} (a : A) : MS A := fun s => (Ok a, s).

Definition ms_throw {A} (e : exn) : MS A := fun s => (Throw e, s).

Definition ms_bind {A B} (m : MS A) (k : A -> MS B) : MS B :=
  fun s =>
    match m s with
    | (Ok a, s') => k a s'
    | (Throw e, s') => (Throw e, s')
    end.

Notation "'let*' x ':=' m 'in' k" := (ms_bind m (fun x => k))
  (at level 10, x name, m at level 200, k at level 200).
Notation "'do*' m 'in' k" := (ms_bind m (fun _ => k))
  (at level 10, m at level 200, k at level 200).

Definition ms_lift {A} (r : result A) : MS A := fun s => (r, s).

Definition trace (message : string) (arguments : list trace_argument) : MS unit :=
  fun s => (Ok tt, mkStore (registry s) (traced s ++ [(message, arguments)])).

Definition new_MetadataKey (K : MetadataHost) (namespace item_name : string)
    : MS (string * string) :=
  if valid_key K namespace item_name then ms_ret (namespace, item_name)
  else ms_throw IllegalArgument.

(** [MetadataRegistry.get(key)] *)
Definition registry_get (key : string * string) : MS (option Metadata) :=
  fun s => (Ok (registry s !! key), s).

(** [MetadataRegistry.add(metadata)]: the registry refuses a key it has. *)
Definition registry_add (key : string * string) (metadata : Metadata) : MS unit :=
  fun s =>
    match registry s !! key with
    | Some _ => (Throw IllegalArgument, s)
    | None => (Ok tt, mkStore (<[key := metadata]> (registry s)) (traced s))
    end.

(** [MetadataRegistry.update(metadata)]: nothing happens without the key. *)
Definition registry_update (key : string * string) (metadata : Metadata) : MS unit :=
  fun s =>
    match registry s !! key with
    | Some _ => (Ok tt, mkStore (<[key := metadata]> (registry s)) (traced s))
    | None => (Ok tt, s)
    end.

(** [MetadataRegistry.remove(key)] *)
Definition registry_remove (key : string * string) : MS unit :=
  fun s => (Ok tt, mkStore (delete key (registry s)) (traced s)).

(** [MetadataRegistry.removeItemMetadata(item_name)] *)
Definition registry_removeItemMetadata (item_name : string) : MS unit :=
  fun s =>
    (Ok tt,
     mkStore (filter (fun entry => snd (fst entry) ≠ item_name) (registry s)) (traced s)).

(** [configuration.forEach(function (key, value) {...})] as the entries
    it hands out. *)
Definition forEach_entries (what : string) (c : Configuration)
    : result (gmap string jsval) :=
  match c with
  | JavaMap entries => Ok entries
  | JSObject _ => Throw (TypeError (what +:+ ".forEach is not a function"))
  end.

(** [configuration.delete(key)]: neither a JavaScript object nor a
    [java.util.Map] has a method [delete]. *)
Definition call_delete (c : Configuration) (key : string) : result Configuration :=
  Throw (TypeError "new_configuration.delete is not a function").

Definition merge_configuration (metadata_configuration new_configuration : Configuration)
    : result Configuration :=
  match forEach_entries "metadata_configuration" metadata_configuration with
  | Throw e => Throw e
  | Ok old_entries =>
      match forEach_entries "new_configuration" new_configuration with
      | Throw e => Throw e
      | Ok new_entries => Ok (JSObject (new_entries ∪ old_entries))
      end
  end.

Section MetadataFunctions.

Variable K : MetadataHost.

Definition get_metadata (item_name namespace : string) : MS (option Metadata) :=
  do* trace "get_metadata: Item [{}], namespace [{}]"
        [Text (Some item_name); Text (Some namespace)] in
  let* key := new_MetadataKey K namespace item_name in
  registry_get key.

Definition remove_metadata (item_name : string) (namespace : option string) : MS unit :=
  if JS.truthy namespace then
    do* trace "remove_metadata: Item [{}], namespace [{}]"
          [Text (Some item_name); Text namespace] in
    let* key := new_MetadataKey K (JS.str namespace) item_name in
    registry_remove key
  else
    do* trace "remove_metadata (all): Item [{}]" [Text (Some item_name)] in
    registry_removeItemMetadata item_name.

Definition set_metadata (item_name namespace : string) (configuration : Configuration)
    (value : option string) (overwrite : bool) : MS unit :=
  do* (if overwrite then remove_metadata item_name (Some namespace) else ms_ret tt) in
  let* metadata := get_metadata item_name namespace in
  match metadata with
  | Some metadata =>
      if overwrite then
        do* trace ("set_metadata: adding or overwriting metadata namespace with "
                   +:+ "[value: {}, configuration: {}]: Item [{}], namespace [{}]")
              [Text value; Json (entries_of configuration); Text (Some item_name);
               Text (Some namespace)] in
        let* key := new_MetadataKey K namespace item_name in
        registry_add key (mkMetadata value (entries_of configuration))
      else
        let value := match value with
                     | None => metadata_value metadata
                     | Some _ => value
                     end in
        let* new_configuration :=
          ms_lift (merge_configuration (JavaMap (metadata_configuration metadata))
                     configuration) in
        do* trace ("set_metadata: setting metadata namespace to "
                   +:+ "[value: {}, configuration: {}]: Item [{}], namespace [{}]")
              [Text value; Json (entries_of new_configuration); Text (Some item_name);
               Text (Some namespace)] in
        let* key := new_MetadataKey K namespace item_name in
        registry_update key (mkMetadata value (entries_of new_configuration))
  | None =>
      do* trace ("set_metadata: adding or overwriting metadata namespace with "
                 +:+ "[value: {}, configuration: {}]: Item [{}], namespace [{}]")
            [Text value; Json (entries_of configuration); Text (Some item_name);
             Text (Some namespace)] in
      let* key := new_MetadataKey K namespace item_name in
      registry_add key (mkMetadata value (entries_of configuration))
  end.

(** [undefined] without metadata, else the value, which may be [null]. *)
Definition get_value (item_name namespace : string) : MS jsval :=
  do* trace "get_value: Item [{}], namespace [{}]"
        [Text (Some item_name); Text (Some namespace)] in
  let* metadata := get_metadata item_name namespace in
  match metadata with
  | Some metadata => ms_ret (js_of (metadata_value metadata))
  | None => ms_ret JUndefined
  end.

Definition set_value (item_name namespace : string) (value : option string) : MS unit :=
  do* trace "set_value: Item [{}], namespace [{}], value [{}]"
        [Text (Some item_name); Text (Some namespace); Text value] in
  let* metadata := get_metadata item_name namespace in
  match metadata with
  | Some metadata =>
      set_metadata item_name namespace (JavaMap (metadata_configuration metadata))
        value true
  | None => set_metadata item_name namespace (JSObject ∅) value false
  end.

Definition set_key_value (item_name namespace key : string) (value : jsval) : MS unit :=
  do* trace "set_key_value: Item [{}], namespace [{}], key [{}], value [{}]"
        [Text (Some item_name); Text (Some namespace); Text (Some key); Value value] in
  let* metadata := get_metadata item_name namespace in
  let new_configuration := JSObject (<[key := value]> ∅) in
  let* new_configuration :=
    match metadata with
    | Some metadata =>
        ms_lift (merge_configuration (JavaMap (metadata_configuration metadata))
                   new_configuration)
    | None => ms_ret new_configuration
    end in
  set_metadata item_name namespace new_configuration None false.

Definition remove_key_value (item_name namespace key : string) : MS unit :=
  do* trace "remove_key_value: Item [{}], namespace [{}], key [{}]"
        [Text (Some item_name); Text (Some namespace); Text (Some key)] in
  let* metadata := get_metadata item_name namespace in
  match metadata with
  | Some metadata =>
      let* new_configuration :=
        ms_lift (merge_configuration (JavaMap (metadata_configuration metadata))
                   (JSObject ∅)) in
      let* new_configuration := ms_lift (call_delete new_configuration key) in
      set_metadata item_name namespace new_configuration (metadata_value metadata) true
  | None =>
      trace "remove_key_value: metadata does not exist: Item [{}], namespace [{}]"
        [Text (Some item_name); Text (Some namespace)]
  end.

End MetadataFunctions.

(** ** Callbacks and a rule engine to run the decorator on *)

Module DemoRules.

Definition automation : Automation := {|
  instanceof_Function := fun _ => true;
  SimpleRule_throws := None;
  rule_UID := fun n => "rule-" +:+ Demo.hex 4 n
|}.

Definition startup : Trigger :=
  mkTrigger "System_started" "core.SystemStartlevelTrigger" (<["startlevel" := JNum 20]> ∅).

Definition midnight : Trigger :=
  mkTrigger "Time_cron_0_0_0" "timer.GenericCronTrigger"
    (<["cronExpression" := JStr "0 0 0 * * ?"]> ∅).

(** Two callbacks with one trigger each. *)
Definition first : loc := 0.
Definition second : loc := 1.

Definition first_object : gmap string value :=
  <["triggers" := VArray [Some startup]]> (<["name" := VStr "first"]> ∅).

Definition second_object : gmap string value :=
  <["triggers" := VArray [Some midnight]]> (<["name" := VStr "second"]> ∅).

Definition engine : Engine :=
  mkEngine (mkWorld (<[second := second_object]> (<[first := first_object]> ∅)) 0 [])
    [] [].

Definition provider : ExtensionProvider :=
  provider_after
    [AddValue "when" VObject; AddPreset "Triggers" ["when"; "rule"] true;
     AddValue "rule" VObject; AddPreset "Extras" ["format"] false]
    (JavascriptExtensionProvider "core").

(** The keys 0 and 1 of [args] for a call with the two arguments ON
    and OFF. *)
Definition on_and_off (key : string) : option string :=
  if String.eqb key "0" then Some "ON"
  else if String.eqb key "1" then Some "OFF"
  else None.

(** A host that takes every pair as a key, and a registry with one
    entry. *)
Definition metadata_host : MetadataHost := mkMetadataHost (fun _ _ => true).

Definition store : Store :=
  mkStore
    (<[("homekit", "Test_Switch_1") :=
         mkMetadata (Some "Lighting") (<["name" := JStr "Switch"]> ∅)]> ∅)
    [].

End DemoRules.

(** * Properties *)

(** ** Strings *)

Arguments String.append !_ _ / : simpl nomatch.

Lemma append_assoc (a b c : string) : (a +:+ b) +:+ c = a +:+ (b +:+ c).
Proof. induction a as [|x a IH]; simpl; [reflexivity | now rewrite IH]. Qed.

Lemma append_empty_r (a : string) : a +:+ "" = a.
Proof. induction a as [|x a IH]; simpl; [reflexivity | now rewrite IH]. Qed.

Lemma length_append (a b : string) :
  String.length (a +:+ b) = String.length a + String.length b.
Proof. induction a as [|x a IH]; simpl; [reflexivity | now rewrite IH]. Qed.

Lemma append_same_length_suffix (p q a b : string) :
  String.length a = String.length b -> p +:+ a = q +:+ b -> a = b.
Proof.
  revert q. induction p as [|x p IH]; intros q Hlen Heq.
  - destruct q as [|y q]; simpl in Heq; [assumption |].
    apply (f_equal String.length) in Heq. simpl in Heq.
    rewrite length_append in Heq. lia.
  - destruct q as [|y q]; simpl in Heq.
    + apply (f_equal String.length) in Heq. simpl in Heq.
      rewrite length_append in Heq. lia.
    + injection Heq as _ Heq. eauto.
Qed.

Lemma all_chars_append p (a b : string) :
  all_chars p (a +:+ b) = all_chars p a && all_chars p b.
Proof.
  induction a as [|x a IH]; simpl; [reflexivity |].
  rewrite IH. now rewrite andb_assoc.
Qed.

Lemma all_chars_weaken (p q : ascii -> bool) (s : string) :
  (forall c, p c = true -> q c = true) -> all_chars p s = true -> all_chars q s = true.
Proof.
  intros Hpq. induction s as [|x s IH]; simpl; [reflexivity |].
  intros [Hx Hs]%andb_true_iff. rewrite (Hpq _ Hx). simpl. auto.
Qed.

(** ** Character classes *)

Ltac by_cases_on_char c :=
  destruct c as [[] [] [] [] [] [] [] []]; vm_compute; congruence.

Lemma is_underscore_eq c : is_underscore c = true -> c = "_"%char.
Proof. unfold is_underscore. now intros ->%Ascii.eqb_eq. Qed.

Lemma alnum_not_underscore c : is_alnum c = true -> is_underscore c = false.
Proof. by_cases_on_char c. Qed.

Lemma alnum_uid_char c : is_alnum c = true -> uid_char c = true.
Proof. unfold uid_char. now intros ->. Qed.

Lemma hex_alnum c : is_hex c = true -> is_alnum c = true.
Proof. by_cases_on_char c. Qed.

Lemma hex_not_underscore c : is_hex c = true -> not_underscore c = true.
Proof. by_cases_on_char c. Qed.

(** ** Canonical UUID texts *)

Lemma uuid_from_chars i s : uuid_from i s = true -> all_chars uuid_char s = true.
Proof.
  revert i. induction s as [|c s IH]; intros i; simpl; [reflexivity |].
  intros [Hc Hs]%andb_true_iff. rewrite (IH _ Hs), andb_true_r.
  unfold uuid_char. destruct (hyphen_position i); rewrite Hc;
    [apply orb_true_r | reflexivity].
Qed.

Lemma uuid_from_length i s : uuid_from i s = true -> i + String.length s = 36.
Proof.
  revert i. induction s as [|c s IH]; intros i; simpl.
  - intros ->%Nat.eqb_eq. lia.
  - intros [_ Hs]%andb_true_iff. apply IH in Hs. lia.
Qed.

Lemma is_uuid_length u : is_uuid u = true -> String.length u = 36.
Proof. intros Hu. now apply uuid_from_length in Hu. Qed.

Lemma is_uuid_uid_chars u : is_uuid u = true -> all_chars uid_char u = true.
Proof.
  intros Hu%uuid_from_chars. revert Hu. apply all_chars_weaken.
  intros c. unfold uuid_char, uid_char.
  intros [Hc%hex_alnum | Hc]%orb_true_iff; rewrite Hc; simpl;
    [reflexivity | apply orb_true_r].
Qed.

Lemma is_uuid_no_underscore u : is_uuid u = true -> all_chars not_underscore u = true.
Proof.
  intros Hu%uuid_from_chars. revert Hu. apply all_chars_weaken.
  intros c. unfold uuid_char.
  intros [Hc | Hc%Ascii.eqb_eq]%orb_true_iff;
    [now apply hex_not_underscore | now subst c].
Qed.

Lemma is_uuid_starts_alnum u : is_uuid u = true -> starts_alnum u = true.
Proof.
  destruct u as [|c u]; [discriminate |].
  unfold is_uuid. simpl. intros [Hc _]%andb_true_iff. now apply hex_alnum.
Qed.

(** ** The two loops of [validate_uid] *)

Lemma count_invalid_zero s : count_invalid s = 0 -> all_chars uid_char s = true.
Proof.
  induction s as [|c s IH]; simpl; [reflexivity |].
  destruct (uid_char c); simpl; [exact IH | discriminate].
Qed.

Lemma count_invalid_length s : count_invalid s <= String.length s.
Proof.
  induction s as [|c s IH]; simpl; [lia |]. destruct (uid_char c); simpl; lia.
Qed.

Lemma replace_first_invalid_none s :
  replace_first_invalid s = None -> count_invalid s = 0.
Proof.
  induction s as [|c s IH]; simpl; [reflexivity |].
  destruct (uid_char c); simpl; [| discriminate].
  destruct (replace_first_invalid s); simpl; [discriminate | auto].
Qed.

Lemma replace_first_invalid_some s s' :
  replace_first_invalid s = Some s' -> S (count_invalid s') = count_invalid s.
Proof.
  revert s'. induction s as [|c s IH]; intros s'; simpl; [discriminate |].
  destruct (uid_char c) eqn:Hc; simpl.
  - destruct (replace_first_invalid s) as [r|]; simpl; [| discriminate].
    intros [= <-]. simpl. rewrite Hc. simpl. now apply IH.
  - intros [= <-]. simpl. reflexivity.
Qed.

(** The bound on the rounds is never what ends the first loop: its
    result has no character left for the pattern to match. *)
Lemma replace_invalid_loop_done rounds s :
  count_invalid s <= rounds ->
  all_chars uid_char (replace_invalid_loop rounds s) = true.
Proof.
  revert s. induction rounds as [|n IH]; intros s Hs; simpl.
  - apply count_invalid_zero. lia.
  - destruct (replace_first_invalid s) as [s'|] eqn:Hstep.
    + apply IH. apply replace_first_invalid_some in Hstep. lia.
    + now apply count_invalid_zero, replace_first_invalid_none.
Qed.

Lemma skip_underscores_chars p s :
  all_chars p s = true -> all_chars p (skip_underscores s) = true.
Proof.
  induction s as [|c s IH]; simpl; [reflexivity |].
  intros Hcs. destruct (is_underscore c); [| exact Hcs].
  apply andb_true_iff in Hcs as [_ Hs]. auto.
Qed.

Lemma skip_underscores_length s :
  String.length (skip_underscores s) <= String.length s.
Proof.
  induction s as [|c s IH]; simpl; [lia |].
  destruct (is_underscore c); simpl; lia.
Qed.

Lemma skip_underscores_append s u :
  all_chars not_underscore u = true ->
  skip_underscores (s +:+ u) = skip_underscores s +:+ u.
Proof.
  intros Hu. induction s as [|c s IH]; simpl.
  - destruct u as [|d u]; simpl in *; [reflexivity |].
    apply andb_true_iff in Hu as [Hd _].
    unfold not_underscore in Hd. now destruct (is_underscore d).
  - destruct (is_underscore c); [exact IH | reflexivity].
Qed.

Lemma replace_first_run_cons c c' s :
  replace_first_run (String c (String c' s))
  = if is_underscore c && is_underscore c'
    then Some (String "_" (skip_underscores (String c' s)))
    else option_map (String c) (replace_first_run (String c' s)).
Proof. reflexivity. Qed.

Lemma no_double_underscore_cons c c' s :
  no_double_underscore (String c (String c' s))
  = negb (is_underscore c && is_underscore c') && no_double_underscore (String c' s).
Proof. reflexivity. Qed.

Lemma replace_first_run_none s :
  replace_first_run s = None -> no_double_underscore s = true.
Proof.
  induction s as [|c s IH]; [reflexivity |].
  destruct s as [|c' s]; [reflexivity |].
  rewrite replace_first_run_cons, no_double_underscore_cons.
  destruct (is_underscore c && is_underscore c'); [discriminate |].
  destruct (replace_first_run (String c' s)); [discriminate |].
  intros _. now rewrite IH.
Qed.

Lemma replace_first_run_length s s' :
  replace_first_run s = Some s' -> String.length s' < String.length s.
Proof.
  revert s'. induction s as [|c s IH]; intros s'; [discriminate |].
  destruct s as [|c' s]; [discriminate |].
  rewrite replace_first_run_cons.
  destruct (is_underscore c && is_underscore c') eqn:Hcc.
  - intros [= <-]. apply andb_true_iff in Hcc as [_ Hc'].
    cbn [skip_underscores]. rewrite Hc'.
    pose proof (skip_underscores_length s). cbn [String.length]. lia.
  - destruct (replace_first_run (String c' s)) as [r|]; [| discriminate].
    intros [= <-]. specialize (IH r eq_refl). cbn [String.length] in *. lia.
Qed.

Lemma all_chars_cons p c s : all_chars p (String c s) = p c && all_chars p s.
Proof. reflexivity. Qed.

Lemma replace_first_run_chars p s s' :
  replace_first_run s = Some s' -> all_chars p s = true -> all_chars p s' = true.
Proof.
  revert s'. induction s as [|c s IH]; intros s'; [discriminate |].
  destruct s as [|c' s]; [discriminate |].
  rewrite replace_first_run_cons.
  destruct (is_underscore c && is_underscore c') eqn:Hcc.
  - intros [= <-] Hall. apply andb_true_iff in Hcc as [Hc%is_underscore_eq _].
    subst c. rewrite all_chars_cons in Hall. apply andb_true_iff in Hall as [H_ Hs].
    rewrite all_chars_cons, H_. exact (skip_underscores_chars p (String c' s) Hs).
  - destruct (replace_first_run (String c' s)) as [r|]; [| discriminate].
    intros [= <-] Hall. rewrite all_chars_cons in Hall.
    apply andb_true_iff in Hall as [Hc Hs].
    rewrite all_chars_cons, Hc. now apply IH.
Qed.

Lemma replace_first_run_start s s' :
  replace_first_run s = Some s' -> starts_alnum s = true -> starts_alnum s' = true.
Proof.
  destruct s as [|c s]; [discriminate |].
  destruct s as [|c' s]; [discriminate |].
  rewrite replace_first_run_cons. intros Hstep Hc. simpl in Hc.
  rewrite (alnum_not_underscore _ Hc) in Hstep.
  destruct (replace_first_run (String c' s)); [| discriminate].
  injection Hstep as <-. exact Hc.
Qed.

Lemma replace_first_run_clean s :
  all_chars not_underscore s = true -> replace_first_run s = None.
Proof.
  induction s as [|c s IH]; [reflexivity |].
  destruct s as [|c' s]; [reflexivity |].
  rewrite replace_first_run_cons. intros Hall. rewrite all_chars_cons in Hall.
  apply andb_true_iff in Hall as [Hc Hs]. rewrite (IH Hs).
  unfold not_underscore in Hc. now destruct (is_underscore c).
Qed.

Lemma replace_first_run_suffix s u s' :
  all_chars not_underscore u = true ->
  replace_first_run (s +:+ u) = Some s' -> exists p, s' = p +:+ u.
Proof.
  intros Hu. revert s'. induction s as [|c s IH]; intros s'.
  - simpl. now rewrite (replace_first_run_clean u Hu).
  - change (String c s +:+ u) with (String c (s +:+ u)).
    destruct (s +:+ u) as [|c' r] eqn:Hsu; [discriminate |].
    rewrite replace_first_run_cons.
    destruct (is_underscore c && is_underscore c') eqn:Hcc.
    + intros Heq.
      assert (s' = String "_" (skip_underscores (s +:+ u))) as ->
        by (rewrite Hsu; congruence).
      rewrite (skip_underscores_append _ _ Hu).
      exists (String "_" (skip_underscores s)). reflexivity.
    + destruct (replace_first_run (String c' r)) as [t|]; [| discriminate].
      intros [= <-]. destruct (IH t eq_refl) as [p ->].
      exists (String c p). reflexivity.
Qed.

(** The bound on the rounds is never what ends the second loop either. *)
Lemma replace_runs_loop_done rounds s :
  String.length s <= rounds -> no_double_underscore (replace_runs_loop rounds s) = true.
Proof.
  revert s. induction rounds as [|n IH]; intros s Hs; simpl.
  - destruct s; [reflexivity | simpl in Hs; lia].
  - destruct (replace_first_run s) as [s'|] eqn:Hstep.
    + apply IH. apply replace_first_run_length in Hstep. lia.
    + now apply replace_first_run_none.
Qed.

Lemma replace_runs_loop_chars p rounds s :
  all_chars p s = true -> all_chars p (replace_runs_loop rounds s) = true.
Proof.
  revert s. induction rounds as [|n IH]; intros s Hs; simpl; [exact Hs |].
  destruct (replace_first_run s) as [s'|] eqn:Hstep; [| exact Hs].
  eauto using replace_first_run_chars.
Qed.

Lemma replace_runs_loop_start rounds s :
  starts_alnum s = true -> starts_alnum (replace_runs_loop rounds s) = true.
Proof.
  revert s. induction rounds as [|n IH]; intros s Hs; simpl; [exact Hs |].
  destruct (replace_first_run s) as [s'|] eqn:Hstep; [| exact Hs].
  eauto using replace_first_run_start.
Qed.

Lemma replace_runs_loop_suffix rounds s u :
  all_chars not_underscore u = true ->
  exists p, replace_runs_loop rounds (s +:+ u) = p +:+ u.
Proof.
  intros Hu. revert s. induction rounds as [|n IH]; intros s; simpl; [eauto |].
  destruct (replace_first_run (s +:+ u)) as [s'|] eqn:Hstep; [| eauto].
  destruct (replace_first_run_suffix _ _ _ Hu Hstep) as [p ->]. apply IH.
Qed.

(** ** [validate_uid] *)

Lemma validate_uid_run H uid w :
  validate_uid H uid w = (Ok (uid_text uid (randomUUID H (uuids_drawn w))), draw w).
Proof.
  unfold validate_uid, uid_text, bind, UUID_randomUUID, ret, draw.
  destruct (JS.truthy uid); reflexivity.
Qed.

Lemma uid_text_well_formed uid u :
  is_uuid u = true -> well_formed_uid (uid_text uid u) = true.
Proof.
  intros Hu. unfold uid_text.
  set (base := if negb (JS.truthy uid) then u else _ +:+ u).
  assert (Hbase : all_chars uid_char base = true).
  { subst base. destruct (JS.truthy uid); simpl.
    - rewrite all_chars_append, (is_uuid_uid_chars u Hu).
      rewrite replace_invalid_loop_done by apply count_invalid_length. reflexivity.
    - now apply is_uuid_uid_chars. }
  set (full := if negb (starts_alnum base) then _ else base).
  assert (Hfull : all_chars uid_char full = true /\ starts_alnum full = true).
  { subst full. destruct (starts_alnum base) eqn:Hstart; simpl; [now split |].
    split; [exact Hbase | reflexivity]. }
  destruct Hfull as [Hchars Hstart]. unfold well_formed_uid.
  rewrite replace_runs_loop_start, replace_runs_loop_chars by assumption.
  rewrite replace_runs_loop_done by lia. reflexivity.
Qed.

Lemma uid_text_suffix uid u :
  is_uuid u = true -> exists p, uid_text uid u = p +:+ u.
Proof.
  intros Hu%is_uuid_no_underscore. unfold uid_text.
  set (base := replace_invalid_loop _ _).
  destruct (JS.truthy uid); cbn [negb].
  - destruct (starts_alnum (base +:+ u)); cbn [negb].
    + apply replace_runs_loop_suffix, Hu.
    + rewrite <- (append_assoc "javascript" base u).
      apply replace_runs_loop_suffix, Hu.
  - destruct (starts_alnum u); cbn [negb].
    + apply (replace_runs_loop_suffix _ "" u Hu).
    + apply (replace_runs_loop_suffix _ "javascript" u Hu).
Qed.

(** Two identifiers made with different UUIDs differ. *)
Lemma uid_text_injective uid1 uid2 u1 u2 :
  is_uuid u1 = true -> is_uuid u2 = true ->
  uid_text uid1 u1 = uid_text uid2 u2 -> u1 = u2.
Proof.
  intros H1 H2 Heq.
  destruct (uid_text_suffix uid1 u1 H1) as [p1 E1].
  destruct (uid_text_suffix uid2 u2 H2) as [p2 E2].
  rewrite E1, E2 in Heq. apply append_same_length_suffix in Heq; [exact Heq |].
  now rewrite !is_uuid_length.
Qed.

(** C7: every string that [validate_uid] returns, and so the result of
    applying it to its own result, begins with a letter or digit, has
    only characters of [A-Za-z0-9_-] and has no two underscores in a
    row; the call always returns, having drawn one UUID. *)
Theorem validate_uid_shape (H : Host) (uid : option string) (w : World) :
  canonical_uuids H ->
  exists s1 w1 s2 w2,
    validate_uid H uid w = (Ok s1, w1)
    /\ validate_uid H (Some s1) w1 = (Ok s2, w2)
    /\ well_formed_uid s1 = true
    /\ well_formed_uid s2 = true.
Proof.
  intros Huuid. do 4 eexists. rewrite !validate_uid_run.
  repeat split; apply uid_text_well_formed, Huuid.
Qed.

Lemma Demo_uuid_hex d n : all_chars is_hex (Demo.hex d n) = true.
Proof.
  revert n. induction d as [|d IH]; intros n; simpl; [reflexivity |].
  rewrite all_chars_append, IH. simpl. rewrite andb_true_r.
  unfold Demo.hex_digit.
  assert (Hlt : n mod 16 < 16) by (apply Nat.mod_upper_bound; lia).
  generalize dependent (n mod 16). intros k Hlt.
  do 16 (destruct k as [|k]; [reflexivity |]). lia.
Qed.

Lemma Demo_uuid_length d n : String.length (Demo.hex d n) = d.
Proof.
  revert n. induction d as [|d IH]; intros n; simpl; [reflexivity |].
  rewrite length_append, IH. simpl. lia.
Qed.

Lemma uuid_from_tail i s :
  24 <= i -> all_chars is_hex s = true -> i + String.length s = 36 ->
  uuid_from i s = true.
Proof.
  revert i. induction s as [|c s IH]; intros i Hi Hs Hlen; simpl in *.
  - apply Nat.eqb_eq. lia.
  - apply andb_true_iff in Hs as [Hc Hs].
    replace (hyphen_position i) with false.
    + rewrite Hc. apply IH; [lia | assumption | lia].
    + unfold hyphen_position. simpl. symmetry.
      rewrite !orb_false_iff. repeat split; try apply Nat.eqb_neq; lia.
Qed.

Lemma Demo_uuid_canonical : canonical_uuids Demo.host.
Proof.
  intros n. change (randomUUID Demo.host n) with (Demo.uuid n).
  unfold Demo.uuid, is_uuid.
  change (uuid_from 24 (Demo.hex 12 n) = true).
  apply uuid_from_tail; [lia | apply Demo_uuid_hex |].
  rewrite Demo_uuid_length. reflexivity.
Qed.

Lemma validate_uid_shape_witness :
  canonical_uuids Demo.host
  /\ exists s1 w1 s2 w2,
       validate_uid Demo.host (Some "__a  b__c_") Demo.world = (Ok s1, w1)
       /\ validate_uid Demo.host (Some s1) w1 = (Ok s2, w2)
       /\ well_formed_uid s1 = true
       /\ well_formed_uid s2 = true.
Proof.
  split; [exact Demo_uuid_canonical |].
  apply validate_uid_shape. exact Demo_uuid_canonical.
Defined.

(** ** The parser's loop *)

Ltac split_ifs :=
  repeat match goal with
         | H : context [if ?b then _ else _] |- _ => destruct b eqn:?
         | |- context [if ?b then _ else _] => destruct b eqn:?
         end.

Section ParserFacts.

Variable H : Host.
Variable expr : string.

Lemma parse_round_progress st st' :
  0 < length (fst st) ->
  parse_round H expr st = Ok st' -> rounds_left st' < rounds_left st.
Proof.
  destruct st as [input_list v]. unfold parse_round, take_tokens, JS.spliced, rounds_left.
  cbn [fst snd]. intros Hlen Hround.
  split_ifs; try discriminate; injection Hround as <-; cbn [fst snd];
    repeat match goal with
           | |- context [length (drop ?n ?l)] => rewrite (length_drop l n)
           end;
    repeat match goal with
           | E : negb ?b = _ |- _ => destruct b eqn:?; try discriminate; clear E
           end;
    cbn [set_target_type set_trigger_target set_trigger_type set_old_state
         set_new_state trigger_target JS.not_null fst snd] in *;
    split_ifs; try congruence;
    repeat match goal with
           | E : (_ <? _)%nat = false |- _ => apply Nat.ltb_ge in E
           end;
    lia.
Qed.

Lemma parse_round_error st e :
  parse_round H expr st = Throw e -> names_expression expr e.
Proof.
  destruct st as [input_list v]. unfold parse_round, take_tokens.
  intros Hround.
  split_ifs; try discriminate; injection Hround as <-;
    unfold names_expression, invalid_for, could_not_be_parsed; eexists; reflexivity.
Qed.

(** The bound on the rounds is never what ends the loop: when it returns,
    no token is left. *)
Lemma parse_loop_done rounds st st' :
  rounds_left st <= rounds ->
  parse_loop H expr rounds st = Ok st' -> fst st' = [].
Proof.
  revert st. induction rounds as [|n IH]; intros st Hbound; simpl.
  - intros [= <-]. unfold rounds_left in Hbound.
    destruct (fst st); [reflexivity | simpl in Hbound; lia].
  - destruct (0 <? length (fst st))%nat eqn:Hlen.
    + apply Nat.ltb_lt in Hlen.
      destruct (parse_round H expr st) as [st1|] eqn:Hround; [| discriminate].
      apply IH. apply parse_round_progress in Hround; [lia | assumption].
    + intros [= <-]. apply Nat.ltb_ge in Hlen.
      destruct (fst st); [reflexivity | simpl in Hlen; lia].
Qed.

Lemma parse_consumes_all rest v :
  parse_loop H expr (S (length (JS.split expr)))
    (JS.split expr, mkSlots None None None None None) = Ok (rest, v) ->
  rest = [].
Proof.
  intros Hloop. apply parse_loop_done in Hloop; [exact Hloop |].
  unfold rounds_left. simpl. lia.
Qed.

Lemma parse_loop_error rounds st e :
  parse_loop H expr rounds st = Throw e -> names_expression expr e.
Proof.
  revert st. induction rounds as [|n IH]; intros st; simpl; [discriminate |].
  destruct (0 <? length (fst st))%nat; [| discriminate].
  destruct (parse_round H expr st) as [st1|e1] eqn:Hround; [apply IH |].
  intros [= <-]. eapply parse_round_error, Hround.
Qed.

Lemma parse_error e : parse H expr = Throw e -> names_expression expr e.
Proof.
  unfold parse. destruct (1 <? length (JS.split expr))%nat; [| discriminate].
  destruct (parse_loop _ _ _ _) as [[rest v]|e1] eqn:Hloop; [discriminate |].
  intros [= <-]. eapply parse_loop_error, Hloop.
Qed.

End ParserFacts.

(** ** Validation errors *)

Ltac split_matches H :=
  repeat match type of H with
         | context [match ?x with _ => _ end] => destruct x eqn:?
         end.

Lemma throw_if_range c e k message :
  throw_if c e k = Throw (RangeError message) ->
  c = Throw (RangeError message) \/ e = RangeError message
  \/ k = Throw (RangeError message).
Proof. unfold throw_if. destruct c as [[]|x]; intros [= ->]; auto. Qed.

(** The conditions of the chain call the host, which throws its own
    exceptions and no [RangeError]. *)
Ltac host_does_not_throw_range Hc :=
  unfold and_then, then_test, state_rejected, command_parsed, target_channel,
    target_item, then_test, or_throw, ItemNotFound, IllegalArgument in Hc;
  repeat match goal with
         | E : context [match ?x with _ => _ end] |- _ => destruct x eqn:?
         end;
  simplify_eq.

Lemma validate_error H expr v message :
  validate H expr v = Throw (RangeError message) ->
  names_expression expr (RangeError message)
  \/ exists status, message = thing_status_message status.
Proof.
  unfold validate. intros Hv.
  repeat (apply throw_if_range in Hv as [Hc | [He | Hv]];
          [host_does_not_throw_range Hc
          | first [ left; unfold names_expression; rewrite <- He;
                    unfold because, could_not_be_parsed; eexists; reflexivity
                  | right; injection He as <-; unfold thing_status_message;
                    eexists; reflexivity ]
          | ]).
  discriminate.
Qed.

(** The [try] block changes nothing before it throws a [RangeError]: it
    is the parser or the validation that threw. *)
Lemma when_try_range H expr w message w1 :
  when_try H expr w = (Throw (RangeError message), w1) ->
  w1 = w
  /\ (parse H expr = Throw (RangeError message)
      \/ exists v, parse H expr = Ok v /\ validate H expr v = Throw (RangeError message)).
Proof.
  unfold when_try, bind, lift.
  destruct (parse H expr) as [v|e] eqn:Hparse.
  - destruct (validate H expr v) as [[]|e] eqn:Hval.
    + unfold LOG. rewrite validate_uid_run. discriminate.
    + intros [= -> <-]. split; [reflexivity | right; eauto].
  - intros [= -> <-]. split; [reflexivity | now left].
Qed.

Lemma starts_with_append p s : JS.starts_with p (p +:+ s) = true.
Proof.
  induction p as [|c p IH]; simpl; [reflexivity |].
  now rewrite Ascii.eqb_refl, IH.
Qed.

Lemma includes_here hay needle :
  JS.starts_with needle hay = true -> JS.includes hay needle = true.
Proof. intros Hs. destruct hay; simpl; now rewrite Hs. Qed.

Lemma includes_later prefix hay needle :
  JS.includes hay needle = true -> JS.includes (prefix +:+ hay) needle = true.
Proof.
  intros Hi. induction prefix as [|c p IH]; simpl; [exact Hi |].
  rewrite IH. apply orb_true_r.
Qed.

Lemma names_expression_includes expr message :
  names_expression expr (RangeError message) -> JS.includes message expr = true.
Proof.
  intros [reason [= ->]].
  apply (includes_later "when: '"), includes_here, starts_with_append.
Qed.

(** ** Attaching triggers *)

Lemma with_triggers_twice a b object :
  with_triggers a (with_triggers b object) = with_triggers a object.
Proof. unfold with_triggers. apply insert_insert_eq. Qed.

Lemma triggers_of_with_triggers a object :
  triggers_of (with_triggers a object) = Some a.
Proof. unfold triggers_of, with_triggers. now rewrite lookup_insert_eq. Qed.

Lemma with_triggers_other a object key :
  key ≠ "triggers" -> with_triggers a object !! key = object !! key.
Proof. intros Hk. unfold with_triggers. now rewrite lookup_insert_ne. Qed.

Lemma triggers_of_cases object a :
  triggers_of object = Some a ->
  object !! "triggers" = Some (VArray a)
  \/ (truthy (object !! "triggers") = false /\ a = []).
Proof.
  unfold triggers_of.
  destruct (object !! "triggers") as [t|]; [destruct t |]; intros Ha;
    try (left; congruence);
    right; destruct (truthy _); simplify_eq; auto.
Qed.

Lemma triggers_of_none object :
  triggers_of object = None ->
  truthy (object !! "triggers") = true
  /\ forall a, object !! "triggers" ≠ Some (VArray a).
Proof.
  unfold triggers_of.
  destruct (object !! "triggers") as [t|]; [destruct t |]; intros Ha;
    try discriminate; destruct (truthy _); simplify_eq; auto.
Qed.

Lemma add_trigger_run func trigger w object a :
  heap w !! func = Some object -> triggers_of object = Some a ->
  add_trigger func trigger w
  = (Ok func, store func (with_triggers (a ++ [trigger]) object) w).
Proof.
  unfold add_trigger, store, with_triggers. intros -> Ha.
  destruct (triggers_of_cases _ _ Ha) as [Ht | [Ht ->]]; rewrite Ht.
  - simpl. rewrite Ht. reflexivity.
  - simpl. rewrite lookup_insert_eq, insert_insert_eq. reflexivity.
Qed.

Lemma add_trigger_ok func trigger w f' w' :
  add_trigger func trigger w = (Ok f', w') ->
  f' = func
  /\ exists object a,
       heap w !! func = Some object /\ triggers_of object = Some a
       /\ w' = store func (with_triggers (a ++ [trigger]) object) w.
Proof.
  intros Hrun.
  destruct (heap w !! func) as [object|] eqn:Hobj;
    [| unfold add_trigger in Hrun; rewrite Hobj in Hrun; discriminate].
  destruct (triggers_of object) as [a|] eqn:Ha.
  - rewrite (add_trigger_run _ _ _ _ _ Hobj Ha) in Hrun.
    injection Hrun as <- <-. eauto 6.
  - exfalso. unfold add_trigger in Hrun. rewrite Hobj in Hrun.
    destruct (triggers_of_none _ Ha) as [Htruthy Hnot].
    rewrite Htruthy in Hrun. simpl in Hrun.
    destruct (object !! "triggers") as [[]|]; try discriminate.
    now apply (Hnot a).
Qed.

Lemma heap_with_attached specs func object a w w' :
  heap w !! func = Some object -> triggers_of object = Some a ->
  heap w' = heap_with specs func object a (heap w) ->
  attached specs func object w w'.
Proof.
  intros Hobj Ha Hheap. unfold attached, heap_with in *. rewrite Hheap.
  destruct specs as [|s specs].
  - split; [reflexivity |]. exists object. auto.
  - split; [intros other Hother; now rewrite lookup_insert_ne |].
    exists (with_triggers (a ++ s :: specs) object).
    rewrite lookup_insert_eq. split; [reflexivity |].
    split; [intros key Hkey; now apply with_triggers_other |].
    exists a. split; [assumption |].
    unfold with_triggers. now rewrite lookup_insert_eq.
Qed.

Lemma store_attached trigger func object a w :
  heap w !! func = Some object -> triggers_of object = Some a ->
  attached [trigger] func object w (store func (with_triggers (a ++ [trigger]) object) w).
Proof.
  intros Hobj Ha.
  apply (heap_with_attached [trigger] func object a); [assumption .. | reflexivity].
Qed.

(** C1, as the code has it: when the parser or the validation throws a
    grammar or semantic error, [when] does not throw; it logs one warning,
    the message of the error, and returns the function that appends one
    [null] marker, and nothing else, to the triggers of the callback it is
    applied to.  The message holds the expression, unless it is one of the
    two messages about a Thing status. *)
Theorem when_returns_poison (H : Host) (expr : string) (w w1 : World) (message : string) :
  when_try H expr w = (Throw (RangeError message), w1) ->
  when H expr w = (Ok (Some BadTrigger), logged (LogWarn message) w)
  /\ (JS.includes message expr = true
      \/ exists status, message = thing_status_message status)
  /\ forall func object a w2,
       heap w2 !! func = Some object -> triggers_of object = Some a ->
       exists w3, call H BadTrigger func w2 = (Ok func, w3)
                  /\ attached [None] func object w2 w3.
Proof.
  intros Htry. destruct (when_try_range _ _ _ _ _ Htry) as [-> Hwhere].
  split; [| split].
  - unfold when. rewrite Htry. reflexivity.
  - destruct Hwhere as [Hparse | [v [_ Hval]]].
    + left. eapply names_expression_includes, parse_error, Hparse.
    + destruct (validate_error _ _ _ _ Hval) as [Hnames | Hstatus];
        [left; exact (names_expression_includes _ _ Hnames) | right; exact Hstatus].
  - intros func object a w2 Hobj Ha.
    exists (store func (with_triggers (a ++ [None]) object) w2).
    split; [exact (add_trigger_run _ _ _ _ _ Hobj Ha)
           | exact (store_attached _ _ _ _ _ Hobj Ha)].
Qed.

Lemma when_returns_poison_witness :
  when_try Demo.host "Item gMotion_Sensors changed from FOO" Demo.world
  = (Throw (RangeError
       ("when: 'Item gMotion_Sensors changed from FOO' could not be parsed because "
        +:+ "'FOO' is not a valid state for 'gMotion_Sensors'")),
     Demo.world)
  /\ when Demo.host "Item gMotion_Sensors changed from FOO" Demo.world
     = (Ok (Some BadTrigger),
        logged (LogWarn
          ("when: 'Item gMotion_Sensors changed from FOO' could not be parsed because "
           +:+ "'FOO' is not a valid state for 'gMotion_Sensors'")) Demo.world).
Proof.
  split; [vm_compute; reflexivity |].
  apply (when_returns_poison Demo.host _ Demo.world Demo.world).
  vm_compute. reflexivity.
Defined.

(** C1 as stated fails on the messages about a Thing status: the warning
    names the status and not the expression. *)
Lemma warning_without_expression :
  when Demo.host "Thing kodi:kodi:familyroom changed to BOGUS" Demo.world
  = (Ok (Some BadTrigger),
     logged (LogWarn "when: 'BOGUS' is not a valid Thing status") Demo.world)
  /\ JS.includes "when: 'BOGUS' is not a valid Thing status"
       "Thing kodi:kodi:familyroom changed to BOGUS" = false.
Proof. split; vm_compute; reflexivity. Qed.

(** ** Running the builders *)

Lemma bind_ok {A B} (m : M A) (k : A -> M B) w a w1 :
  m w = (Ok a, w1) -> bind m k w = k a w1.
Proof. unfold bind. now intros ->. Qed.

Lemma bind_throw {A B} (m : M A) (k : A -> M B) w e w1 :
  m w = (Throw e, w1) -> bind m k w = (Throw e, w1).
Proof. unfold bind. now intros ->. Qed.

Lemma build_run H trigger_name type_uid configuration w :
  build H trigger_name type_uid configuration w
  = (Ok (mkTrigger (uid_text trigger_name (randomUUID H (uuids_drawn w)))
           type_uid configuration),
     draw w).
Proof. unfold build. now rewrite (bind_ok _ _ _ _ _ (validate_uid_run _ _ _)). Qed.

Lemma for_member_run H v type func member w object a :
  trigger_type v = Some type ->
  heap w !! func = Some object -> triggers_of object = Some a ->
  exists w',
    for_member H v func member w = (Ok tt, w')
    /\ uuids_drawn w' = S (S (uuids_drawn w))
    /\ heap w'
       = <[func := with_triggers
                     (a ++ [Some (member_spec H v type member (uuids_drawn w))]) object]>
           (heap w).
Proof.
  intros Hty Hobj Ha. unfold for_member. rewrite Hty.
  unfold lift at 1. cbn [or_throw]. unfold bind at 1.
  rewrite (bind_ok _ _ _ _ _ (validate_uid_run _ _ _)).
  fold (member_trigger_name v type member).
  set (trigger_name := uid_text _ _).
  assert (Hbuilt :
    (if String.eqb type "received update"
     then ItemStateUpdateTrigger H (name member) (new_state v) (Some trigger_name)
     else if String.eqb type "received command"
     then ItemCommandTrigger H (name member) (new_state v) (Some trigger_name)
     else ItemStateChangeTrigger H (name member) (old_state v) (new_state v)
            (Some trigger_name)) (draw w)
    = (Ok (member_spec H v type member (uuids_drawn w)), draw (draw w))).
  { unfold member_spec. fold trigger_name.
    unfold ItemStateUpdateTrigger, ItemCommandTrigger, ItemStateChangeTrigger.
    destruct (String.eqb type "received update");
      [| destruct (String.eqb type "received command")];
      rewrite build_run; reflexivity. }
  rewrite (bind_ok _ _ _ _ _ Hbuilt).
  unfold LOG at 1. unfold bind at 1.
  set (w2 := mkWorld _ _ _).
  assert (Hobj2 : heap w2 !! func = Some object) by exact Hobj.
  rewrite (bind_ok _ _ _ _ _ (add_trigger_run _ _ _ _ _ Hobj2 Ha)).
  eexists. split; [reflexivity |]. split; reflexivity.
Qed.

Lemma for_member_ok H v func member w w' :
  for_member H v func member w = (Ok tt, w') ->
  exists type object a,
    trigger_type v = Some type /\ heap w !! func = Some object
    /\ triggers_of object = Some a.
Proof.
  unfold for_member. destruct (trigger_type v) as [type|] eqn:Hty;
    [| unfold lift, bind; discriminate].
  unfold lift at 1. cbn [or_throw]. unfold bind at 1.
  rewrite (bind_ok _ _ _ _ _ (validate_uid_run _ _ _)).
  set (trigger_name := uid_text _ _).
  assert (Hbuilt : exists t,
    (if String.eqb type "received update"
     then ItemStateUpdateTrigger H (name member) (new_state v) (Some trigger_name)
     else if String.eqb type "received command"
     then ItemCommandTrigger H (name member) (new_state v) (Some trigger_name)
     else ItemStateChangeTrigger H (name member) (old_state v) (new_state v)
            (Some trigger_name)) (draw w)
    = (Ok t, draw (draw w))).
  { unfold ItemStateUpdateTrigger, ItemCommandTrigger, ItemStateChangeTrigger.
    destruct (String.eqb type "received update");
      [| destruct (String.eqb type "received command")];
      rewrite build_run; eauto. }
  destruct Hbuilt as [t Hbuilt]. rewrite (bind_ok _ _ _ _ _ Hbuilt).
  unfold LOG at 1. unfold bind at 1.
  set (w2 := mkWorld _ _ _).
  destruct (add_trigger func (Some t) w2) as [[f'|e] w3] eqn:Hadd;
    [| rewrite (bind_throw _ _ _ _ _ Hadd); discriminate].
  intros _. apply add_trigger_ok in Hadd as [_ (object & a & Hobj & Ha & _)].
  exists type, object, a. auto.
Qed.

Lemma for_each_member_run H v type func members :
  forall w object a,
    trigger_type v = Some type ->
    heap w !! func = Some object -> triggers_of object = Some a ->
    exists w',
      forEach members (for_member H v func) w = (Ok tt, w')
      /\ uuids_drawn w' = uuids_drawn w + 2 * length members
      /\ heap w'
         = heap_with (map Some (member_specs H v type members (uuids_drawn w)))
             func object a (heap w).
Proof.
  induction members as [|member rest IH]; intros w object a Hty Hobj Ha.
  - exists w. simpl. split; [reflexivity |]. split; [lia | reflexivity].
  - destruct (for_member_run H v type func member w object a Hty Hobj Ha)
      as (w1 & Hrun & Hdrawn & Hheap).
    set (t := member_spec H v type member (uuids_drawn w)) in *.
    assert (Hobj1 : heap w1 !! func = Some (with_triggers (a ++ [Some t]) object))
      by (rewrite Hheap; apply lookup_insert_eq).
    destruct (IH w1 _ _ Hty Hobj1 (triggers_of_with_triggers _ _))
      as (w' & Hrest & Hdrawn' & Hheap').
    exists w'. cbn [forEach]. rewrite (bind_ok _ _ _ _ _ Hrun).
    split; [exact Hrest |]. split; [cbn [length]; lia |].
    rewrite Hheap', Hdrawn, Hheap. cbn [member_specs map]. fold t.
    clear Hheap'. unfold heap_with.
    destruct (member_specs H v type rest (S (S (uuids_drawn w)))) as [|t' ts].
    + reflexivity.
    + cbn [map]. rewrite with_triggers_twice, insert_insert_eq, <- app_assoc.
      reflexivity.
Qed.

Lemma attached_nothing func object w :
  heap w !! func = Some object -> attached [] func object w w.
Proof. intros Hobj. split; [reflexivity |]. exists object. auto. Qed.

Lemma item_trigger_run H v type item members func w object a :
  trigger_type v = Some type ->
  getItem H (trigger_target v) = Some item ->
  group_members_of H v item = Ok members ->
  heap w !! func = Some object -> triggers_of object = Some a ->
  exists w',
    item_trigger H v func w = (Ok func, w')
    /\ uuids_drawn w' = uuids_drawn w + 2 * length members
    /\ heap w'
       = heap_with (map Some (member_specs H v type members (uuids_drawn w)))
           func object a (heap w).
Proof.
  intros Hty Hitem Hmembers Hobj Ha.
  destruct (for_each_member_run H v type func members w object a Hty Hobj Ha)
    as (w' & Hrun & Hdrawn & Hheap).
  exists w'. split; [| now split].
  unfold item_trigger. rewrite Hitem. cbn [or_throw]. unfold lift at 1, bind at 1.
  rewrite Hmembers. unfold lift at 1, bind at 1.
  now rewrite (bind_ok _ _ _ _ _ Hrun).
Qed.

Lemma item_trigger_ok H v func w f' w' object :
  heap w !! func = Some object ->
  item_trigger H v func w = (Ok f', w') ->
  f' = func /\ exists specs, attached (map Some specs) func object w w'.
Proof.
  intros Hobj. unfold item_trigger.
  destruct (getItem H (trigger_target v)) as [item|] eqn:Hitem;
    [| unfold lift, bind; discriminate].
  cbn [or_throw]. unfold lift at 1, bind at 1.
  destruct (group_members_of H v item) as [members|e] eqn:Hmembers;
    [| unfold lift, bind; discriminate].
  unfold lift at 1, bind at 1.
  destruct (forEach members (for_member H v func) w) as [[[]|e] w1] eqn:Hrun;
    [| rewrite (bind_throw _ _ _ _ _ Hrun); discriminate].
  rewrite (bind_ok _ _ _ _ _ Hrun). intros [= <- <-]. split; [reflexivity |].
  destruct members as [|member rest].
  - injection Hrun as <-. exists []. now apply attached_nothing.
  - assert (Hfirst : exists type a, trigger_type v = Some type
                                    /\ triggers_of object = Some a).
    { cbn [forEach] in Hrun.
      destruct (for_member H v func member w) as [[[]|e] w2] eqn:Hm;
        [| rewrite (bind_throw _ _ _ _ _ Hm) in Hrun; discriminate].
      apply for_member_ok in Hm as (type & object' & a & Hty & Hobj' & Ha).
      exists type, a. split; [assumption | congruence]. }
    destruct Hfirst as (type & a & Hty & Ha).
    destruct (for_each_member_run H v type func (member :: rest) w object a Hty Hobj Ha)
      as (w' & Hrun' & _ & Hheap).
    assert (w' = w1) as -> by congruence.
    eexists. eapply heap_with_attached; eassumption.
Qed.

Lemma single_run (m : M Trigger) (e : log_entry) func w object a :
  builds m -> heap w !! func = Some object -> triggers_of object = Some a ->
  exists t w',
    (let! trigger := m in do! LOG e in add_trigger func (Some trigger)) w = (Ok func, w')
    /\ m w = (Ok t, draw w)
    /\ heap w' = <[func := with_triggers (a ++ [Some t]) object]> (heap w)
    /\ attached [Some t] func object w w'.
Proof.
  intros Hm Hobj Ha. destruct (Hm w) as [t Ht].
  exists t. rewrite (bind_ok _ _ _ _ _ Ht). unfold LOG at 1, bind at 1.
  set (w2 := mkWorld _ _ _).
  assert (Hobj2 : heap w2 !! func = Some object) by exact Hobj.
  rewrite (add_trigger_run _ _ _ _ _ Hobj2 Ha). eexists.
  split; [reflexivity |]. split; [exact Ht |]. split; [reflexivity |].
  apply (heap_with_attached [Some t] func object a); [assumption .. | reflexivity].
Qed.

Lemma single_ok (m : M Trigger) (e : log_entry) func w f' w' object :
  builds m -> heap w !! func = Some object ->
  (let! trigger := m in do! LOG e in add_trigger func (Some trigger)) w = (Ok f', w') ->
  f' = func /\ exists t, attached [Some t] func object w w'.
Proof.
  intros Hm Hobj Hrun. destruct (triggers_of object) as [a|] eqn:Ha.
  - destruct (single_run m e func w object a Hm Hobj Ha) as (t & w1 & Hrun1 & _ & _ & Hatt).
    rewrite Hrun1 in Hrun. injection Hrun as <- <-. eauto.
  - exfalso. destruct (Hm w) as [t Ht]. rewrite (bind_ok _ _ _ _ _ Ht) in Hrun.
    unfold LOG at 1, bind at 1 in Hrun.
    apply add_trigger_ok in Hrun as [_ (object' & a & Hobj' & Ha' & _)].
    cbn [heap draw] in Hobj'. congruence.
Qed.

Lemma build_builds H trigger_name type_uid configuration :
  builds (build H trigger_name type_uid configuration).
Proof. intros w. rewrite build_run. eauto. Qed.

Lemma closure_builds H f v n func :
  f ≠ Fn_item_trigger ->
  exists m e,
    builds m
    /\ call H (Closure f v n) func
       = (let! trigger := m in do! LOG e in add_trigger func (Some trigger)).
Proof.
  intros Hf. destruct f; try congruence; cbn [call];
    unfold item_event_trigger, cron_trigger, system_trigger, thing_trigger,
      thing_event_trigger, channel_trigger;
    do 2 eexists; (split; [| reflexivity]);
    unfold ItemEventTrigger, ThingEventTrigger, GenericEventTrigger, CronTrigger,
      StartupTrigger, ThingStatusChangeTrigger, ThingStatusUpdateTrigger,
      ChannelEventTrigger;
    repeat match goal with
           | |- context [if ?b then _ else _] => destruct b
           end;
    apply build_builds.
Qed.

(** C9, as the code has it: a function returned by [when] for an
    expression that parsed, applied to a callback object, returns that
    same object, leaves every other object and every attribute but
    [triggers] as they were, and appends its triggers after the entries
    the object already had.  The list is created when it is missing and a
    trigger is appended; with nothing to append (a group without members)
    the object is left as it was.  The call returns whenever the triggers
    attribute is missing, falsy or a list and the registry resolves the
    target. *)
Theorem builder_only_appends (H : Host) (f : inner_function) (v : Slots)
    (n : option string) (func : loc) (w : World) (object : gmap string value) :
  heap w !! func = Some object ->
  (forall f' w',
      call H (Closure f v n) func w = (Ok f', w') ->
      f' = func /\ exists specs, attached (map Some specs) func object w w')
  /\ (forall a,
        triggers_of object = Some a -> resolves H (Closure f v n) ->
        exists specs w',
          call H (Closure f v n) func w = (Ok func, w')
          /\ attached (map Some specs) func object w w').
Proof.
  intros Hobj.
  assert (Hdec : f = Fn_item_trigger \/ f <> Fn_item_trigger)
    by (destruct f; auto; right; discriminate).
  destruct Hdec as [-> | Hf].
  - split.
    + intros f' w' Hrun. cbn [call] in Hrun.
      now apply (item_trigger_ok H v func w f' w' object).
    + intros a Ha (type & item & members & Hty & Hitem & Hmembers).
      destruct (item_trigger_run H v type item members func w object a
                  Hty Hitem Hmembers Hobj Ha) as (w' & Hrun & _ & Hheap).
      exists (member_specs H v type members (uuids_drawn w)), w'.
      split; [exact Hrun | eapply heap_with_attached; eassumption].
  - destruct (closure_builds H f v n func Hf) as (m & e & Hm & ->). split.
    + intros f' w' Hrun.
      destruct (single_ok m e func w f' w' object Hm Hobj Hrun) as [-> [t Hatt]].
      split; [reflexivity | now exists [t]].
    + intros a Ha _.
      destruct (single_run m e func w object a Hm Hobj Ha) as (t & w' & Hrun & _ & _ & Hatt).
      now exists [t], w'.
Qed.

(** ** Running [when] on an expression that parses and validates *)

Lemma when_run H expr v w :
  parse H expr = Ok v -> validate H expr v = Ok tt ->
  exists w',
    when H expr w
    = (Ok (select v (Some (uid_text (Some expr) (randomUUID H (uuids_drawn w))))), w')
    /\ heap w' = heap w /\ uuids_drawn w' = S (uuids_drawn w).
Proof.
  intros Hparse Hval. eexists. split.
  - unfold when, when_try. rewrite Hparse.
    unfold lift at 1, bind at 1. rewrite Hval.
    unfold lift at 1, bind at 1. unfold LOG at 1, bind at 1.
    rewrite (bind_ok _ _ _ _ _ (validate_uid_run _ _ _)). reflexivity.
  - split; reflexivity.
Qed.

Lemma heap_with_lookup specs func object a h :
  h !! func = Some object -> triggers_of object = Some a ->
  exists object',
    heap_with specs func object a h !! func = Some object'
    /\ triggers_of object' = Some (a ++ specs)%list.
Proof.
  intros Hobj Ha. unfold heap_with. destruct specs as [|s specs].
  - exists object. now rewrite app_nil_r.
  - eexists. rewrite lookup_insert_eq. split; [reflexivity |].
    apply triggers_of_with_triggers.
Qed.

Lemma decorate_item_run H expr v type item members func w object a :
  parse H expr = Ok v -> validate H expr v = Ok tt ->
  JS.has ["Item"; "Member of"; "Descendent of"] (target_type v) = true ->
  JS.has lifecycle (trigger_type v) = false ->
  trigger_type v = Some type ->
  getItem H (trigger_target v) = Some item ->
  group_members_of H v item = Ok members ->
  heap w !! func = Some object -> triggers_of object = Some a ->
  exists w',
    decorate H expr func w = (Ok func, w')
    /\ uuids_drawn w' = S (uuids_drawn w) + 2 * length members
    /\ heap w'
       = heap_with (map Some (member_specs H v type members (S (uuids_drawn w))))
           func object a (heap w).
Proof.
  intros Hparse Hval Htarget Hlife Hty Hitem Hmembers Hobj Ha.
  destruct (when_run H expr v w Hparse Hval) as (w1 & Hwhen & Hheap1 & Hdrawn1).
  assert (Hobj1 : heap w1 !! func = Some object) by now rewrite Hheap1.
  destruct (item_trigger_run H v type item members func w1 object a
              Hty Hitem Hmembers Hobj1 Ha) as (w' & Hrun & Hdrawn & Hheap).
  exists w'. unfold decorate. rewrite (bind_ok _ _ _ _ _ Hwhen).
  unfold select. rewrite Htarget, Hlife. cbn [call].
  rewrite Hdrawn, Hheap, Hdrawn1, Hheap1. auto.
Qed.

(** ** The triggers of the members *)

Lemma member_specs_lookup H v type members :
  forall n i t,
    member_specs H v type members n !! i = Some t ->
    exists member, members !! i = Some member
                   /\ t = member_spec H v type member (n + 2 * i).
Proof.
  induction members as [|member rest IH]; intros n i t; [discriminate |].
  destruct i as [|i]; cbn [member_specs lookup list_lookup].
  - intros [= <-]. exists member. split; [reflexivity |]. f_equal. lia.
  - intros Hi. destruct (IH _ _ _ Hi) as (m & Hm & ->). exists m.
    split; [exact Hm |]. f_equal. lia.
Qed.

Lemma member_specs_length H v type members n :
  length (member_specs H v type members n) = length members.
Proof.
  revert n. induction members as [|member rest IH]; intros n; simpl; [reflexivity |].
  now rewrite IH.
Qed.

Lemma member_spec_id H v type member n :
  exists base, id (member_spec H v type member n) = uid_text base (randomUUID H (S n)).
Proof.
  unfold member_spec.
  destruct (String.eqb type "received update");
    [| destruct (String.eqb type "received command")]; eexists; reflexivity.
Qed.

Lemma put_unless_null_other key value configuration other :
  other ≠ key ->
  put_unless_null key value configuration !! other = configuration !! other.
Proof.
  intros Hother. unfold put_unless_null. destruct value; [| reflexivity].
  now rewrite lookup_insert_ne.
Qed.

Lemma member_spec_item_name H v type member n :
  configuration (member_spec H v type member n) !! "itemName"
  = Some (JStr (name member)).
Proof.
  unfold member_spec.
  destruct (String.eqb type "received update");
    [| destruct (String.eqb type "received command")]; cbn [configuration];
    rewrite ?put_unless_null_other by discriminate; apply lookup_insert_eq.
Qed.

Lemma member_specs_item_names H v type members n :
  map (fun t => configuration t !! "itemName") (member_specs H v type members n)
  = map (fun member => Some (JStr (name member))) members.
Proof.
  revert n. induction members as [|member rest IH]; intros n; simpl; [reflexivity |].
  now rewrite IH, member_spec_item_name.
Qed.

Lemma distinct_draws H first count i j :
  NoDup (map (randomUUID H) (seq first count)) ->
  first <= i < first + count -> first <= j < first + count ->
  randomUUID H i = randomUUID H j -> i = j.
Proof.
  change (map (randomUUID H) (seq first count))
    with (randomUUID H <$> seq first count).
  intros Hnodup Hi Hj Heq.
  assert (Hat : forall k, first <= k < first + count ->
                (randomUUID H <$> seq first count) !! (k - first)
                = Some (randomUUID H k)).
  { intros k Hk. rewrite list_lookup_fmap, lookup_seq_lt by lia.
    simpl. do 2 f_equal. lia. }
  pose proof (Hat i Hi) as Hi'. pose proof (Hat j Hj) as Hj'. rewrite <- Heq in Hj'.
  pose proof (proj1 (NoDup_alt _) Hnodup _ _ _ Hi' Hj'). lia.
Qed.

(** The ids of the triggers that two runs over the members attach are
    pairwise different when the UUIDs drawn are. *)
Lemma member_ids_distinct H v type members n1 n2 first bound :
  canonical_uuids H ->
  (forall i j, first <= i < bound -> first <= j < bound ->
               randomUUID H i = randomUUID H j -> i = j) ->
  first <= n1 ->
  n1 + 2 * length members <= n2 -> n2 + 2 * length members <= bound ->
  NoDup (map id (member_specs H v type members n1 ++ member_specs H v type members n2)).
Proof.
  intros Hcanon Hinj Hfirst Hn1 Hn2.
  set (N := length members).
  assert (Hdraw : forall i x,
            map id (member_specs H v type members n1
                    ++ member_specs H v type members n2) !! i = Some x ->
            exists base k, x = uid_text base (randomUUID H k) /\ first <= k < bound
                           /\ ((i < N /\ k = n1 + 2 * i + 1)
                               \/ (N <= i /\ k = n2 + 2 * (i - N) + 1))).
  { intros i x. change (map id ?l) with (id <$> l).
    rewrite list_lookup_fmap. intros Hx.
    destruct (_ !! i) as [t|] eqn:Ht; [| discriminate]. injection Hx as <-.
    destruct (Nat.lt_ge_cases i N) as [Hi | Hi].
    - rewrite lookup_app_l in Ht by now rewrite member_specs_length.
      apply member_specs_lookup in Ht as (m & Hm & ->).
      destruct (member_spec_id H v type m (n1 + 2 * i)) as [base Hid].
      exists base, (S (n1 + 2 * i)). split; [exact Hid |].
      subst N. split; [lia | left; lia].
    - rewrite lookup_app_r in Ht by now rewrite member_specs_length.
      rewrite member_specs_length in Ht.
      pose proof (lookup_lt_Some _ _ _ Ht) as Hlt.
      rewrite member_specs_length in Hlt.
      apply member_specs_lookup in Ht as (m & Hm & ->).
      destruct (member_spec_id H v type m (n2 + 2 * (i - length members)))
        as [base Hid].
      exists base, (S (n2 + 2 * (i - length members))). split; [exact Hid |].
      subst N. split; [lia | right; lia]. }
  apply NoDup_alt. intros i j x Hi Hj.
  destruct (Hdraw _ _ Hi) as (b1 & k1 & -> & Hk1 & Hpos1).
  destruct (Hdraw _ _ Hj) as (b2 & k2 & Heq & Hk2 & Hpos2).
  apply uid_text_injective in Heq; [| apply Hcanon ..].
  apply Hinj in Heq; [| assumption ..]. subst N. lia.
Qed.

(** ** What parsing and validation establish *)

Ltac eqb_facts :=
  repeat match goal with
         | E : String.eqb _ _ = true |- _ => apply String.eqb_eq in E
         | E : negb _ = true |- _ => apply negb_true_iff in E
         | E : negb _ = false |- _ => apply negb_false_iff in E
         | E : _ && _ = true |- _ => apply andb_true_iff in E as [? ?]
         end.

Lemma parse_round_lifecycle H expr st st' :
  parse_round H expr st = Ok st' ->
  lifecycle_target (snd st) -> lifecycle_target (snd st').
Proof.
  destruct st as [input_list v]. unfold parse_round, take_tokens, next_two.
  cbn [snd]. intros Hround Hinv.
  split_ifs; try discriminate; injection Hround as <-; cbn [snd];
    unfold lifecycle_target, JS.slice0 in *; eqb_facts;
    try exact Hinv;
    try (destruct (target_type v) as [t|]; [discriminate |];
         intros Hl; apply Hinv in Hl; discriminate);
    cbn [set_trigger_type trigger_type target_type];
    repeat match goal with
           | E : JS.join ?sep (take ?n ?l) = _ |- context [JS.join ?sep ?m] =>
               change m with (take n l); rewrite E
           end;
    try (intros [=]; fail);
    try (destruct input_list as [|t1 rest]; [discriminate |];
         cbn [head JS.eq] in *; eqb_facts; subst t1; intros [=]; fail);
    try (destruct (target_type v) as [t|]; [| discriminate];
         cbn [JS.eq] in *; eqb_facts; subst t; reflexivity);
    try match goal with
        | E : JS.has ["Item"; "Thing"] (target_type v) = true |- _ =>
            intros _; destruct (target_type v) as [t|];
            cbn [JS.has existsb] in E |- *; [| discriminate E];
            apply orb_true_iff in E as [E | E]; [rewrite E; reflexivity |];
            apply orb_true_iff in E as [E | E]; [| discriminate E];
            rewrite E; apply orb_true_r
        end.
Qed.

Lemma parse_loop_lifecycle H expr rounds st st' :
  parse_loop H expr rounds st = Ok st' ->
  lifecycle_target (snd st) -> lifecycle_target (snd st').
Proof.
  revert st. induction rounds as [|n IH]; intros st; simpl; [now intros [= <-] |].
  destruct (0 <? length (fst st))%nat; [| now intros [= <-]].
  destruct (parse_round H expr st) as [st1|] eqn:Hround; [| discriminate].
  intros Hloop Hinv. eapply IH; [exact Hloop |].
  eapply parse_round_lifecycle; eassumption.
Qed.

Lemma parse_lifecycle H expr v : parse H expr = Ok v -> lifecycle_target v.
Proof.
  unfold parse. destruct (1 <? length (JS.split expr))%nat.
  - destruct (parse_loop _ _ _ _) as [[rest v']|] eqn:Hloop; [| discriminate].
    intros [= <-]. apply (parse_loop_lifecycle _ _ _ _ _ Hloop). intros [=].
  - intros [= <-]. intros [=].
Qed.

Lemma throw_if_ok c e k : throw_if c e k = Ok tt -> c = Ok false /\ k = Ok tt.
Proof. unfold throw_if. destruct c as [[]|]; try discriminate. auto. Qed.

(** For a group target, validation has found the trigger type set and
    the target in the registry, of type Group. *)
Lemma validate_group H expr v :
  validate H expr v = Ok tt ->
  JS.has ["Member of"; "Descendent of"] (target_type v) = true ->
  exists kind group,
    trigger_type v = Some kind
    /\ getItem H (trigger_target v) = Some group
    /\ type group = "Group".
Proof.
  unfold validate. intros Hv Htarget.
  apply throw_if_ok in Hv as [_ Hv]. apply throw_if_ok in Hv as [Hnull Hv].
  apply throw_if_ok in Hv as [_ Hv]. apply throw_if_ok in Hv as [Hgroup _].
  rewrite Htarget in Hgroup. unfold and_then, then_test, target_item in Hgroup.
  destruct (getItem H (trigger_target v)) as [group|]; [| discriminate].
  cbn [or_throw] in Hgroup. injection Hgroup as Hgroup.
  apply negb_false_iff, String.eqb_eq in Hgroup.
  destruct (trigger_type v) as [kind|] eqn:Hty; [eauto |].
  exfalso. injection Hnull as Hnull. unfold not_lifecycle in Hnull.
  rewrite Hty in Hnull. destruct (target_type v) as [t|]; [| discriminate].
  cbn [JS.has existsb JS.eq JS.not_null negb andb] in *.
  rewrite !andb_true_r in Hnull. apply negb_false_iff, String.eqb_eq in Hnull.
  subst t. discriminate.
Qed.

(** C2: an expression that parses and validates with target type
    "Member of" or "Descendent of", whose target has the members
    [members] (direct ones for "Member of", all descendants for
    "Descendent of"), attaches one trigger per member, in order, each
    naming its member; and the ids of all triggers attached, also by a
    second [when] of the same expression, differ from one another as long
    as the UUIDs drawn do. *)
Theorem group_fan_out (H : Host) (expr : string) (v : Slots) (group : Item)
    (members : list Item) (func : loc) (w : World) (object : gmap string value)
    (a : list (option Trigger)) :
  canonical_uuids H ->
  parse H expr = Ok v ->
  validate H expr v = Ok tt ->
  getItem H (trigger_target v) = Some group ->
  (target_type v = Some "Member of" /\ getMembers H group = Some members
   \/ target_type v = Some "Descendent of" /\ getAllMembers H group = Some members) ->
  heap w !! func = Some object ->
  triggers_of object = Some a ->
  NoDup (map (randomUUID H) (seq (uuids_drawn w) (2 + 4 * length members))) ->
  exists specs1 w1 specs2 w2 object2,
    decorate H expr func w = (Ok func, w1)
    /\ attached (map Some specs1) func object w w1
    /\ length specs1 = length members
    /\ map (fun t => configuration t !! "itemName") specs1
       = map (fun member => Some (JStr (name member))) members
    /\ decorate H expr func w1 = (Ok func, w2)
    /\ heap w2 !! func = Some object2
    /\ triggers_of object2 = Some (a ++ map Some specs1 ++ map Some specs2)%list
    /\ length specs2 = length members
    /\ map (fun t => configuration t !! "itemName") specs2
       = map (fun member => Some (JStr (name member))) members
    /\ NoDup (map id (specs1 ++ specs2)).
Proof.
  intros Hcanon Hparse Hval Hgroup Hmembers Hobj Ha Hdistinct.
  assert (Htarget : JS.has ["Member of"; "Descendent of"] (target_type v) = true)
    by (destruct Hmembers as [[-> _] | [-> _]]; reflexivity).
  assert (Hitem : JS.has ["Item"; "Member of"; "Descendent of"] (target_type v) = true)
    by (destruct Hmembers as [[-> _] | [-> _]]; reflexivity).
  assert (Hlife : JS.has lifecycle (trigger_type v) = false).
  { destruct (JS.has lifecycle (trigger_type v)) eqn:Hl; [| reflexivity].
    apply (parse_lifecycle _ _ _ Hparse) in Hl.
    destruct Hmembers as [[Ht _] | [Ht _]]; rewrite Ht in Hl; discriminate. }
  destruct (validate_group _ _ _ Hval Htarget) as (type & group' & Hty & Hgroup' & _).
  assert (Hresolved : group_members_of H v group = Ok members).
  { unfold group_members_of.
    destruct Hmembers as [[-> ->] | [-> ->]]; reflexivity. }
  destruct (decorate_item_run H expr v type group members func w object a
              Hparse Hval Hitem Hlife Hty Hgroup Hresolved Hobj Ha)
    as (w1 & Hrun1 & Hdrawn1 & Hheap1).
  set (specs1 := member_specs H v type members (S (uuids_drawn w))) in *.
  destruct (heap_with_lookup (map Some specs1) func object a (heap w) Hobj Ha)
    as (object1 & Hobj1 & Ha1).
  rewrite <- Hheap1 in Hobj1.
  destruct (decorate_item_run H expr v type group members func w1 object1 _
              Hparse Hval Hitem Hlife Hty Hgroup Hresolved Hobj1 Ha1)
    as (w2 & Hrun2 & Hdrawn2 & Hheap2).
  set (specs2 := member_specs H v type members (S (uuids_drawn w1))) in *.
  destruct (heap_with_lookup (map Some specs2) func object1 _ (heap w1) Hobj1 Ha1)
    as (object2 & Hobj2 & Ha2).
  rewrite <- Hheap2 in Hobj2.
  exists specs1, w1, specs2, w2, object2.
  split; [exact Hrun1 |].
  split; [eapply heap_with_attached; eassumption |].
  split; [apply member_specs_length |].
  split; [apply member_specs_item_names |].
  split; [exact Hrun2 |].
  split; [exact Hobj2 |].
  split; [now rewrite Ha2, <- app_assoc |].
  split; [apply member_specs_length |].
  split; [apply member_specs_item_names |].
  apply (member_ids_distinct H v type members _ _ (uuids_drawn w)
           (uuids_drawn w + (2 + 4 * length members))); [assumption | | lia ..].
  intros i j Hi Hj. now apply (distinct_draws H (uuids_drawn w) (2 + 4 * length members)).
Qed.

Lemma group_fan_out_witness :
  parse Demo.host "Member of gMotion_Sensors changed"
  = Ok (mkSlots (Some "Member of") (Some "gMotion_Sensors") (Some "changed") None None)
  /\ exists specs1 w1 specs2 w2 object2,
       decorate Demo.host "Member of gMotion_Sensors changed" Demo.MyRule Demo.world
       = (Ok Demo.MyRule, w1)
       /\ attached (map Some specs1) Demo.MyRule Demo.MyRule_object Demo.world w1
       /\ length specs1 = 3
       /\ map (fun t => configuration t !! "itemName") specs1
          = [Some (JStr "Motion_Hall"); Some (JStr "Motion_Cellar"); Some (JStr "gUpstairs")]
       /\ decorate Demo.host "Member of gMotion_Sensors changed" Demo.MyRule w1
          = (Ok Demo.MyRule, w2)
       /\ heap w2 !! Demo.MyRule = Some object2
       /\ triggers_of object2 = Some ([] ++ map Some specs1 ++ map Some specs2)%list
       /\ length specs2 = 3
       /\ map (fun t => configuration t !! "itemName") specs2
          = [Some (JStr "Motion_Hall"); Some (JStr "Motion_Cellar"); Some (JStr "gUpstairs")]
       /\ NoDup (map id (specs1 ++ specs2)).
Proof.
  split; [vm_compute; reflexivity |].
  apply (group_fan_out Demo.host "Member of gMotion_Sensors changed"
           (mkSlots (Some "Member of") (Some "gMotion_Sensors") (Some "changed") None None)
           Demo.gMotion_Sensors
           [Demo.Motion_Hall; Demo.Motion_Cellar; Demo.gUpstairs]
           Demo.MyRule Demo.world Demo.MyRule_object []).
  - exact Demo_uuid_canonical.
  - vm_compute; reflexivity.
  - vm_compute; reflexivity.
  - vm_compute; reflexivity.
  - left. split; vm_compute; reflexivity.
  - vm_compute; reflexivity.
  - vm_compute; reflexivity.
  - apply (bool_decide_unpack _). vm_compute. reflexivity.
Defined.

Lemma builder_only_appends_witness :
  heap Demo.world !! Demo.MyRule = Some Demo.MyRule_object
  /\ forall a,
       triggers_of Demo.MyRule_object = Some a ->
       resolves Demo.host
         (Closure Fn_cron_trigger
            (mkSlots (Some "Time") (Some "cron") (Some "55 55 5 * * ?") None None)
            (Some "Time_cron")) ->
       exists specs w',
         call Demo.host
           (Closure Fn_cron_trigger
              (mkSlots (Some "Time") (Some "cron") (Some "55 55 5 * * ?") None None)
              (Some "Time_cron")) Demo.MyRule Demo.world
         = (Ok Demo.MyRule, w')
         /\ attached (map Some specs) Demo.MyRule Demo.MyRule_object Demo.world w'.
Proof.
  split; [vm_compute; reflexivity |].
  apply (builder_only_appends Demo.host Fn_cron_trigger _ _ Demo.MyRule Demo.world
           Demo.MyRule_object).
  vm_compute; reflexivity.
Defined.

(** C9 as stated fails for a group without members: the function that
    [when] returns attaches nothing, and a callback without a triggers
    attribute is returned without one. *)
Lemma empty_group_creates_no_list :
  parse Demo.host "Member of gEmpty changed"
  = Ok (mkSlots (Some "Member of") (Some "gEmpty") (Some "changed") None None)
  /\ fst (when Demo.host "Member of gEmpty changed" Demo.world)
     = Ok (Some (Closure Fn_item_trigger
                   (mkSlots (Some "Member of") (Some "gEmpty") (Some "changed") None None)
                   (Some "Member_of_gEmpty_changed00000000-0000-4000-8000-000000000000")))
  /\ Demo.MyRule_object !! "triggers" = None
  /\ fst (Demo.decorate "Member of gEmpty changed" Demo.world) = Ok Demo.MyRule
  /\ Demo.triggers_after (Demo.decorate "Member of gEmpty changed" Demo.world) = None.
Proof. repeat split; vm_compute; reflexivity. Qed.

(** C8: with gMotion_Sensors in the registry and ON and OFF states that
    its accepted data types parse, the expression
    "Item gMotion_Sensors changed from ON to OFF" attaches exactly one
    trigger, of type core.ItemStateChangeTrigger, whose configuration maps
    itemName to the item's name, previousState to "ON" and state to "OFF". *)
Theorem motion_sensors_changed_from_on_to_off (H : Host) (item : Item) (func : loc)
    (w : World) (object : gmap string value) (a : list (option Trigger)) :
  getItem H (Some "gMotion_Sensors") = Some item ->
  parseState H (acceptedDataTypes item) "ON" <> None ->
  parseState H (acceptedDataTypes item) "OFF" <> None ->
  heap w !! func = Some object ->
  triggers_of object = Some a ->
  exists t w',
    decorate H "Item gMotion_Sensors changed from ON to OFF" func w = (Ok func, w')
    /\ attached [Some t] func object w w'
    /\ typeUID t = "core.ItemStateChangeTrigger"
    /\ configuration t
       = <["state" := JStr "OFF"]>
           (<["previousState" := JStr "ON"]> (<["itemName" := JStr (name item)]> ∅)).
Proof.
  intros Hitem Hon Hoff Hobj Ha.
  set (v := mkSlots (Some "Item") (Some "gMotion_Sensors") (Some "changed")
              (Some "ON") (Some "OFF")).
  assert (Hparse : parse H "Item gMotion_Sensors changed from ON to OFF" = Ok v)
    by (vm_compute; reflexivity).
  assert (Hval : validate H "Item gMotion_Sensors changed from ON to OFF" v = Ok tt).
  { assert (Hstate : forall s,
              parseState H (acceptedDataTypes item) s <> None ->
              state_rejected H v (Some s) = Ok false).
    { intros s Hs. unfold state_rejected, target_item. simpl.
      rewrite Hitem. simpl.
      destruct (parseState H (acceptedDataTypes item) s); [reflexivity | congruence]. }
    unfold validate. cbn [v old_state new_state]. fold v.
    rewrite (Hstate "ON" Hon), (Hstate "OFF" Hoff). reflexivity. }
  destruct (decorate_item_run H _ v "changed" item [item] func w object a
              Hparse Hval eq_refl eq_refl eq_refl Hitem eq_refl Hobj Ha)
    as (w' & Hrun & _ & Hheap).
  exists (member_spec H v "changed" item (S (uuids_drawn w))), w'.
  split; [exact Hrun |].
  split; [eapply (heap_with_attached [_]); eassumption |].
  split; reflexivity.
Qed.

Lemma motion_sensors_changed_from_on_to_off_witness :
  getItem Demo.host (Some "gMotion_Sensors") = Some Demo.gMotion_Sensors
  /\ exists t w',
       decorate Demo.host "Item gMotion_Sensors changed from ON to OFF"
         Demo.MyRule Demo.world = (Ok Demo.MyRule, w')
       /\ attached [Some t] Demo.MyRule Demo.MyRule_object Demo.world w'
       /\ typeUID t = "core.ItemStateChangeTrigger"
       /\ configuration t
          = <["state" := JStr "OFF"]>
              (<["previousState" := JStr "ON"]>
                 (<["itemName" := JStr "gMotion_Sensors"]> ∅)).
Proof.
  split; [vm_compute; reflexivity |].
  apply (motion_sensors_changed_from_on_to_off Demo.host Demo.gMotion_Sensors
           Demo.MyRule Demo.world Demo.MyRule_object []).
  - vm_compute; reflexivity.
  - vm_compute; discriminate.
  - vm_compute; discriminate.
  - vm_compute; reflexivity.
  - vm_compute; reflexivity.
Defined.

(** ** Tokens *)

Lemma split_no_space s : no_space s = true -> JS.split s = [s].
Proof.
  unfold no_space. induction s as [|c s IH]; [reflexivity |].
  rewrite all_chars_cons. intros [Hc Hs]%andb_true_iff.
  apply negb_true_iff in Hc. cbn [JS.split]. now rewrite Hc, (IH Hs).
Qed.

Lemma split_token a b :
  no_space a = true -> JS.split (a +:+ String " " b) = a :: JS.split b.
Proof.
  unfold no_space. induction a as [|c a IH]; [reflexivity |].
  rewrite all_chars_cons. intros [Hc Ha]%andb_true_iff.
  apply negb_true_iff in Hc.
  change (String c a +:+ String " " b) with (String c (a +:+ String " " b)).
  cbn [JS.split]. now rewrite Hc, (IH Ha).
Qed.

(** ** Validation does not look at the expression *)

Lemma throw_if_same c m1 m2 k1 k2 :
  same_failure k1 k2 ->
  same_failure (throw_if c (RangeError m1) k1) (throw_if c (RangeError m2) k2).
Proof.
  intros Hk. destruct c as [[]|x]; simpl; auto. destruct x; simpl; auto.
Qed.

Lemma validate_same H e1 e2 v : same_failure (validate H e1 v) (validate H e2 v).
Proof.
  unfold validate, because, could_not_be_parsed.
  repeat apply throw_if_same. exact I.
Qed.

Lemma when_throws H expr v x w :
  parse H expr = Ok v -> validate H expr v = Throw x ->
  when H expr w
  = match x with
    | RangeError message => (Ok (Some BadTrigger), logged (LogWarn message) w)
    | _ => (Throw (Error "log_traceback caught an error (see the stack trace for details)"),
            logged (LogError (get_stacktrace H x "when")) w)
    end.
Proof.
  intros Hparse Hval. unfold when, when_try. rewrite Hparse.
  unfold lift at 1, bind at 1. rewrite Hval. unfold lift at 1, bind at 1.
  destruct x; reflexivity.
Qed.

Lemma when_same_outcome H e1 e2 v :
  parse H e1 = Ok v -> parse H e2 = Ok v ->
  (validate H e1 v = Ok tt ->
   JS.has ["Item"; "Member of"; "Descendent of"] (target_type v) = true
   /\ JS.has lifecycle (trigger_type v) = false) ->
  forall w, same_outcome H (when H e1 w) (when H e2 w).
Proof.
  intros Hp1 Hp2 Hitem w. pose proof (validate_same H e1 e2 v) as Hsame.
  destruct (validate H e1 v) as [[]|x1] eqn:Hv1;
    destruct (validate H e2 v) as [[]|x2] eqn:Hv2;
    try (destruct x1; contradiction); try contradiction.
  - destruct (when_run H e1 v w Hp1 Hv1) as (w1 & -> & Hh1 & Hd1).
    destruct (when_run H e2 v w Hp2 Hv2) as (w2 & -> & Hh2 & Hd2).
    destruct (Hitem eq_refl) as [Htarget Hlife].
    unfold same_outcome, select. cbn [fst snd]. rewrite Htarget, Hlife.
    split; [congruence |]. split; [congruence |]. reflexivity.
  - rewrite (when_throws H e1 v x1 w Hp1 Hv1), (when_throws H e2 v x2 w Hp2 Hv2).
    unfold same_outcome.
    destruct x1, x2; simpl in Hsame; try contradiction; try discriminate;
      cbn [fst snd logged heap uuids_drawn]; auto.
Qed.

(** C3: for an expression X without a space, X and "Item X changed" give
    the same values to the five variables: target_type "Item",
    trigger_target X, trigger_type "changed", no old or new state.  The two
    calls of [when] then end alike: validation does not depend on the
    expression, and the functions returned attach the same triggers, whose
    ids differ only through the UUIDs drawn. *)
Theorem single_word_shortcut (H : Host) (X : string) :
  no_space X = true ->
  parse H X = Ok (mkSlots (Some "Item") (Some X) (Some "changed") None None)
  /\ parse H ("Item " +:+ X +:+ " changed")
     = Ok (mkSlots (Some "Item") (Some X) (Some "changed") None None)
  /\ forall w, same_outcome H (when H X w) (when H ("Item " +:+ X +:+ " changed") w).
Proof.
  intros HX.
  assert (Hshort : parse H X
                   = Ok (mkSlots (Some "Item") (Some X) (Some "changed") None None)).
  { unfold parse. rewrite (split_no_space X HX). reflexivity. }
  assert (Hlong : parse H ("Item " +:+ X +:+ " changed")
                  = Ok (mkSlots (Some "Item") (Some X) (Some "changed") None None)).
  { unfold parse.
    change ("Item " +:+ X +:+ " changed")
      with ("Item" +:+ String " " (X +:+ String " " "changed")).
    rewrite (split_token "Item") by reflexivity.
    rewrite (split_token X) by exact HX.
    vm_compute. reflexivity. }
  split; [exact Hshort |]. split; [exact Hlong |].
  apply (when_same_outcome H _ _ _ Hshort Hlong). intros _. split; reflexivity.
Qed.

Lemma single_word_shortcut_witness :
  no_space "gMotion_Sensors" = true
  /\ parse Demo.host "gMotion_Sensors"
     = parse Demo.host "Item gMotion_Sensors changed"
  /\ forall w, same_outcome Demo.host (when Demo.host "gMotion_Sensors" w)
                 (when Demo.host "Item gMotion_Sensors changed" w).
Proof.
  split; [reflexivity |].
  destruct (single_word_shortcut Demo.host "gMotion_Sensors" eq_refl)
    as (Hshort & Hlong & Hsame).
  split; [| exact Hsame]. rewrite Hshort. symmetry. exact Hlong.
Defined.

Lemma split_join tokens :
  tokens <> [] -> forallb no_space tokens = true ->
  JS.split (JS.join " " tokens) = tokens.
Proof.
  induction tokens as [|a rest IH]; [congruence |]. intros _.
  cbn [forallb]. intros [Ha Hrest]%andb_true_iff.
  destruct rest as [|b rest].
  - apply split_no_space, Ha.
  - change (JS.join " " (a :: b :: rest))
      with (a +:+ String " " (JS.join " " (b :: rest))).
    rewrite (split_token a _ Ha), IH; [reflexivity | discriminate | exact Hrest].
Qed.

Lemma validate_thing_status H expr v :
  JS.eq (target_type v) "Thing" = true ->
  JS.has lifecycle (trigger_type v) = false ->
  JS.not_null (old_state v) = true ->
  ThingStatus H "old_state" = None ->
  validate H expr v <> Ok tt.
Proof.
  intros Hthing Hlife Hold Hstatus Hv. unfold validate in Hv.
  do 8 (apply throw_if_ok in Hv as [_ Hv]). apply throw_if_ok in Hv as [Hc _].
  unfold not_lifecycle in Hc. rewrite Hthing, Hlife, Hold, Hstatus in Hc.
  discriminate.
Qed.

(** C10: after "changed", the qualifiers "to Y from X" fill the same
    variables as "from X to Y" (old_state X, new_state Y), for each of the
    four target types that take "changed"; and the two calls of [when] end
    alike: the functions returned attach the same triggers, whose ids
    differ only through the UUIDs drawn.  (For a Thing no function that
    attaches a trigger is returned when a state is given, as the status
    enumeration has no member called old_state.) *)
Theorem qualifiers_in_either_order (H : Host) (T target X Y : string) :
  T = "Item" \/ T = "Thing" \/ T = "Member of" \/ T = "Descendent of" ->
  no_space target = true -> no_space X = true -> no_space Y = true ->
  (T = "Thing" -> ThingStatus H "old_state" = None) ->
  parse H (T +:+ " " +:+ target +:+ " changed to " +:+ Y +:+ " from " +:+ X)
  = Ok (mkSlots (Some T) (Some target) (Some "changed") (Some X) (Some Y))
  /\ parse H (T +:+ " " +:+ target +:+ " changed from " +:+ X +:+ " to " +:+ Y)
     = Ok (mkSlots (Some T) (Some target) (Some "changed") (Some X) (Some Y))
  /\ forall w,
       same_outcome H
         (when H (T +:+ " " +:+ target +:+ " changed to " +:+ Y +:+ " from " +:+ X) w)
         (when H (T +:+ " " +:+ target +:+ " changed from " +:+ X +:+ " to " +:+ Y) w).
Proof.
  intros HT Htarget HX HY Hstatus.
  assert (Htokens : forall before after,
            forallb no_space (before ++ target :: "changed" :: after) = true ->
            before <> [] ->
            JS.split (JS.join " " (before ++ target :: "changed" :: after))
            = (before ++ target :: "changed" :: after)%list).
  { intros before after Hall Hne. apply split_join; [| exact Hall].
    destruct before; [congruence | discriminate]. }
  assert (Hparse :
    parse H (T +:+ " " +:+ target +:+ " changed to " +:+ Y +:+ " from " +:+ X)
    = Ok (mkSlots (Some T) (Some target) (Some "changed") (Some X) (Some Y))
    /\ parse H (T +:+ " " +:+ target +:+ " changed from " +:+ X +:+ " to " +:+ Y)
       = Ok (mkSlots (Some T) (Some target) (Some "changed") (Some X) (Some Y))).
  { destruct HT as [-> | [-> | [-> | ->]]]; split; unfold parse.
    - change ("Item" +:+ " " +:+ target +:+ " changed to " +:+ Y +:+ " from " +:+ X)
        with (JS.join " " (["Item"] ++ target :: "changed" :: ["to"; Y; "from"; X])).
      rewrite Htokens; [vm_compute; reflexivity | | discriminate].
      cbn [app forallb]. rewrite Htarget, HX, HY. reflexivity.
    - change ("Item" +:+ " " +:+ target +:+ " changed from " +:+ X +:+ " to " +:+ Y)
        with (JS.join " " (["Item"] ++ target :: "changed" :: ["from"; X; "to"; Y])).
      rewrite Htokens; [vm_compute; reflexivity | | discriminate].
      cbn [app forallb]. rewrite Htarget, HX, HY. reflexivity.
    - change ("Thing" +:+ " " +:+ target +:+ " changed to " +:+ Y +:+ " from " +:+ X)
        with (JS.join " " (["Thing"] ++ target :: "changed" :: ["to"; Y; "from"; X])).
      rewrite Htokens; [vm_compute; reflexivity | | discriminate].
      cbn [app forallb]. rewrite Htarget, HX, HY. reflexivity.
    - change ("Thing" +:+ " " +:+ target +:+ " changed from " +:+ X +:+ " to " +:+ Y)
        with (JS.join " " (["Thing"] ++ target :: "changed" :: ["from"; X; "to"; Y])).
      rewrite Htokens; [vm_compute; reflexivity | | discriminate].
      cbn [app forallb]. rewrite Htarget, HX, HY. reflexivity.
    - change ("Member of" +:+ " " +:+ target +:+ " changed to " +:+ Y +:+ " from " +:+ X)
        with (JS.join " "
                (["Member"; "of"] ++ target :: "changed" :: ["to"; Y; "from"; X])).
      rewrite Htokens; [vm_compute; reflexivity | | discriminate].
      cbn [app forallb]. rewrite Htarget, HX, HY. reflexivity.
    - change ("Member of" +:+ " " +:+ target +:+ " changed from " +:+ X +:+ " to " +:+ Y)
        with (JS.join " "
                (["Member"; "of"] ++ target :: "changed" :: ["from"; X; "to"; Y])).
      rewrite Htokens; [vm_compute; reflexivity | | discriminate].
      cbn [app forallb]. rewrite Htarget, HX, HY. reflexivity.
    - change ("Descendent of" +:+ " " +:+ target +:+ " changed to " +:+ Y
              +:+ " from " +:+ X)
        with (JS.join " "
                (["Descendent"; "of"] ++ target :: "changed" :: ["to"; Y; "from"; X])).
      rewrite Htokens; [vm_compute; reflexivity | | discriminate].
      cbn [app forallb]. rewrite Htarget, HX, HY. reflexivity.
    - change ("Descendent of" +:+ " " +:+ target +:+ " changed from " +:+ X
              +:+ " to " +:+ Y)
        with (JS.join " "
                (["Descendent"; "of"] ++ target :: "changed" :: ["from"; X; "to"; Y])).
      rewrite Htokens; [vm_compute; reflexivity | | discriminate].
      cbn [app forallb]. rewrite Htarget, HX, HY. reflexivity. }
  destruct Hparse as [Hto Hfrom]. split; [exact Hto |]. split; [exact Hfrom |].
  apply (when_same_outcome H _ _ _ Hto Hfrom). intros Hval.
  destruct HT as [-> | [-> | [-> | ->]]]; try (split; reflexivity).
  exfalso. revert Hval. apply validate_thing_status; try reflexivity.
  now apply Hstatus.
Qed.

Lemma qualifiers_in_either_order_witness :
  no_space "gMotion_Sensors" = true
  /\ parse Demo.host "Item gMotion_Sensors changed to OFF from ON"
     = Ok (mkSlots (Some "Item") (Some "gMotion_Sensors") (Some "changed")
             (Some "ON") (Some "OFF"))
  /\ parse Demo.host "Item gMotion_Sensors changed from ON to OFF"
     = Ok (mkSlots (Some "Item") (Some "gMotion_Sensors") (Some "changed")
             (Some "ON") (Some "OFF"))
  /\ forall w,
       same_outcome Demo.host
         (when Demo.host "Item gMotion_Sensors changed to OFF from ON" w)
         (when Demo.host "Item gMotion_Sensors changed from ON to OFF" w).
Proof.
  split; [reflexivity |].
  apply (qualifiers_in_either_order Demo.host "Item" "gMotion_Sensors" "ON" "OFF").
  - left. reflexivity.
  - reflexivity.
  - reflexivity.
  - reflexivity.
  - discriminate.
Defined.

(** ** Where the validation misses what it tests for *)

(** The registry check compares [itemRegistry.getItems(...)] with a new
    array, which is false for every registry: an expression over one word
    passes validation whether its item exists or not. *)
Lemma item_existence_not_checked (H : Host) (X : string) :
  validate H X (mkSlots (Some "Item") (Some X) (Some "changed") None None) = Ok tt.
Proof. reflexivity. Qed.

(** C4 fails on the code: NoSuchItem is not in the registry, yet
    "Item NoSuchItem changed" passes validation and [when] returns the
    item-trigger function, not the function that marks the callback; the
    missing item only shows when that function is called, as an exception
    of the registry.  With "Member of", the lookup of the group check
    throws that exception inside [when], which raises a generic error. *)
Theorem missing_item_is_not_a_semantic_error :
  getItem Demo.host (Some "NoSuchItem") = None
  /\ getItems Demo.host (Some "NoSuchItem") = []
  /\ validate Demo.host "Item NoSuchItem changed"
       (mkSlots (Some "Item") (Some "NoSuchItem") (Some "changed") None None) = Ok tt
  /\ fst (when Demo.host "Item NoSuchItem changed" Demo.world)
     = Ok (Some (Closure Fn_item_trigger
                   (mkSlots (Some "Item") (Some "NoSuchItem") (Some "changed") None None)
                   (Some "Item_NoSuchItem_changed00000000-0000-4000-8000-000000000000")))
  /\ fst (Demo.decorate "Item NoSuchItem changed" Demo.world)
     = Throw (JavaException "ItemNotFoundException")
  /\ fst (when Demo.host "Member of NoSuchItem changed" Demo.world)
     = Throw (Error "log_traceback caught an error (see the stack trace for details)").
Proof. repeat split; vm_compute; reflexivity. Qed.

(** The command check for any host: the error is thrown when the value
    parses as a command, and validation passes when it does not. *)
Lemma command_check (H : Host) (expr X s : string) (item : Item) :
  getItem H (Some X) = Some item ->
  validate H expr (mkSlots (Some "Item") (Some X) (Some "received command") None (Some s))
  = if is_null (parseCommand H (acceptedCommandTypes item) s)
    then Ok tt
    else Throw (because expr ("'" +:+ s +:+ "' is not a valid command for '" +:+ X +:+ "'")).
Proof.
  intros Hitem. unfold validate, command_parsed, state_rejected, target_item. simpl.
  rewrite Hitem. simpl.
  destruct (parseCommand H (acceptedCommandTypes item) s); reflexivity.
Qed.

(** C5 fails on the code: the test on [parseCommand] is [!== null], so a
    value that parses as a command of the item (ON for a Switch) is
    rejected as "not a valid command", and one that does not parse (FOO)
    passes. *)
Theorem valid_command_is_rejected :
  getItem Demo.host (Some "Test_Switch_1") = Some Demo.Test_Switch_1
  /\ parseCommand Demo.host (acceptedCommandTypes Demo.Test_Switch_1) "ON" = Some "ON"
  /\ when Demo.host "Item Test_Switch_1 received command ON" Demo.world
     = (Ok (Some BadTrigger),
        logged (LogWarn
          ("when: 'Item Test_Switch_1 received command ON' could not be parsed because "
           +:+ "'ON' is not a valid command for 'Test_Switch_1'")) Demo.world)
  /\ parseCommand Demo.host (acceptedCommandTypes Demo.Test_Switch_1) "FOO" = None
  /\ fst (when Demo.host "Item Test_Switch_1 received command FOO" Demo.world)
     = Ok (Some (Closure Fn_item_trigger
                   (mkSlots (Some "Item") (Some "Test_Switch_1") (Some "received command")
                      None (Some "FOO"))
                   (Some ("Item_Test_Switch_1_received_command_FOO"
                          +:+ "00000000-0000-4000-8000-000000000000")))).
Proof. repeat split; vm_compute; reflexivity. Qed.

(** C6 fails on the code: the tests read the members [old_state] and
    [new_state] of the status enumeration, not the members named by the
    values of the variables; the enumeration has no such members, so every
    status given for a Thing is rejected, ONLINE and OFFLINE included. *)
Theorem valid_thing_status_is_rejected :
  things_get Demo.host "kodi:kodi:familyroom" = Some "kodi:kodi:familyroom"
  /\ ThingStatus Demo.host "ONLINE" = Some "ONLINE"
  /\ ThingStatus Demo.host "OFFLINE" = Some "OFFLINE"
  /\ when Demo.host "Thing kodi:kodi:familyroom changed from ONLINE to OFFLINE" Demo.world
     = (Ok (Some BadTrigger),
        logged (LogWarn "when: 'ONLINE' is not a valid Thing status") Demo.world)
  /\ when Demo.host "Thing kodi:kodi:familyroom received update ONLINE" Demo.world
     = (Ok (Some BadTrigger),
        logged (LogWarn "when: 'ONLINE' is not a valid Thing status") Demo.world).
Proof. repeat split; vm_compute; reflexivity. Qed.

(** * Further properties of the code *)

(** ** [validate_uid]: what the two loops compute *)

Lemma replace_first_invalid_clean s :
  all_chars uid_char s = true -> replace_first_invalid s = None.
Proof.
  induction s as [|c s IH]; [reflexivity |]. rewrite all_chars_cons.
  intros [Hc Hs]%andb_true_iff. cbn [replace_first_invalid].
  now rewrite Hc, (IH Hs).
Qed.

Lemma underscored_chars s : all_chars uid_char (underscored s) = true.
Proof.
  induction s as [|c s IH]; [reflexivity |]. cbn [underscored].
  rewrite all_chars_cons, IH, andb_true_r. now destruct (uid_char c) eqn:Hc.
Qed.

Lemma replace_first_invalid_underscored s s' :
  replace_first_invalid s = Some s' -> underscored s' = underscored s.
Proof.
  revert s'. induction s as [|c s IH]; intros s'; [discriminate |].
  cbn [replace_first_invalid]. destruct (uid_char c) eqn:Hc.
  - destruct (replace_first_invalid s) as [r|]; [| discriminate].
    intros [= <-]. cbn [underscored]. now rewrite (IH r eq_refl).
  - intros [= <-]. cbn [underscored]. now rewrite Hc.
Qed.

Lemma underscored_clean s : all_chars uid_char s = true -> underscored s = s.
Proof.
  induction s as [|c s IH]; [reflexivity |]. rewrite all_chars_cons.
  intros [Hc Hs]%andb_true_iff. cbn [underscored]. now rewrite Hc, (IH Hs).
Qed.

(** The first loop replaces every character that the pattern matches. *)
Lemma replace_invalid_loop_underscored rounds s :
  count_invalid s <= rounds -> replace_invalid_loop rounds s = underscored s.
Proof.
  intros Hrounds.
  pose proof (replace_invalid_loop_done rounds s Hrounds) as Hdone.
  assert (Hsame : forall n t, underscored (replace_invalid_loop n t) = underscored t).
  { induction n as [|n IH]; intros t; [reflexivity |]. cbn [replace_invalid_loop].
    destruct (replace_first_invalid t) as [t'|] eqn:Hstep; [| reflexivity].
    now rewrite IH, (replace_first_invalid_underscored _ _ Hstep). }
  now rewrite <- (Hsame rounds s), (underscored_clean _ Hdone).
Qed.

Lemma squeezed_cons c c' s :
  squeezed (String c (String c' s))
  = if is_underscore c && is_underscore c' then squeezed (String c' s)
    else String c (squeezed (String c' s)).
Proof. reflexivity. Qed.

Lemma squeezed_clean s : no_double_underscore s = true -> squeezed s = s.
Proof.
  induction s as [|c s IH]; [reflexivity |]. destruct s as [|c' s]; [reflexivity |].
  rewrite no_double_underscore_cons, squeezed_cons.
  intros [Hcc Hs]%andb_true_iff. apply negb_true_iff in Hcc.
  now rewrite Hcc, (IH Hs).
Qed.

Lemma squeezed_skip s :
  squeezed (String "_" (skip_underscores s)) = squeezed (String "_" s).
Proof.
  induction s as [|c s IH]; [reflexivity |]. cbn [skip_underscores].
  destruct (is_underscore c) eqn:Hc; [| reflexivity].
  apply is_underscore_eq in Hc as ->. rewrite IH, (squeezed_cons "_" "_" s).
  reflexivity.
Qed.

Lemma replace_first_run_head s s' :
  replace_first_run s = Some s' ->
  match s, s' with
  | String c _, String c' _ => c' = c
  | _, _ => False
  end.
Proof.
  destruct s as [|c s]; [discriminate |]. destruct s as [|d s]; [discriminate |].
  rewrite replace_first_run_cons.
  destruct (is_underscore c && is_underscore d) eqn:Hcd.
  - intros [= <-]. apply andb_true_iff in Hcd as [Hc _].
    symmetry. now apply is_underscore_eq.
  - destruct (replace_first_run (String d s)); [| discriminate]. now intros [= <-].
Qed.

Lemma replace_first_run_squeezed s s' :
  replace_first_run s = Some s' -> squeezed s' = squeezed s.
Proof.
  revert s'. induction s as [|c s IH]; intros s'; [discriminate |].
  destruct s as [|d s]; [discriminate |]. rewrite replace_first_run_cons.
  destruct (is_underscore c && is_underscore d) eqn:Hcd.
  - intros [= <-]. rewrite squeezed_cons, Hcd.
    apply andb_true_iff in Hcd as [_ Hd%is_underscore_eq]. subst d.
    cbn [skip_underscores]. change (is_underscore "_") with true. cbv iota.
    apply squeezed_skip.
  - destruct (replace_first_run (String d s)) as [t|] eqn:Hstep; [| discriminate].
    intros [= <-]. pose proof (replace_first_run_head _ _ Hstep) as Hhead.
    destruct t as [|d' t]; [contradiction |]. subst d'.
    rewrite !squeezed_cons, Hcd. now rewrite (IH _ eq_refl).
Qed.

(** The second loop leaves one underscore of every run. *)
Lemma replace_runs_loop_squeezed rounds s :
  String.length s <= rounds -> replace_runs_loop rounds s = squeezed s.
Proof.
  intros Hrounds.
  pose proof (replace_runs_loop_done rounds s Hrounds) as Hdone.
  assert (Hsame : forall n t, squeezed (replace_runs_loop n t) = squeezed t).
  { induction n as [|n IH]; intros t; [reflexivity |]. cbn [replace_runs_loop].
    destruct (replace_first_run t) as [t'|] eqn:Hstep; [| reflexivity].
    now rewrite IH, (replace_first_run_squeezed _ _ Hstep). }
  now rewrite <- (Hsame rounds s), (squeezed_clean _ Hdone).
Qed.

(** X1: [validate_uid] returns, for every argument, the text obtained by
    replacing each character outside [A-Za-z0-9_-] by an underscore,
    appending the UUID drawn, putting "javascript" in front unless the text
    starts with a letter or digit, and keeping one underscore of every run;
    a missing or empty argument gives the UUID alone as the text. *)
Theorem validate_uid_closed_form (H : Host) (uid : option string) (w : World) :
  validate_uid H uid w
  = (Ok (uid_closed_form uid (randomUUID H (uuids_drawn w))), draw w).
Proof.
  rewrite validate_uid_run. f_equal. f_equal. unfold uid_text, uid_closed_form.
  rewrite replace_runs_loop_squeezed by lia.
  destruct (JS.truthy uid); cbn [negb].
  - rewrite replace_invalid_loop_underscored by apply count_invalid_length.
    now destruct (starts_alnum _).
  - now destruct (starts_alnum _).
Qed.

Lemma no_underscore_no_double u :
  all_chars not_underscore u = true -> no_double_underscore u = true.
Proof. intros Hu. apply replace_first_run_none, replace_first_run_clean, Hu. Qed.

Lemma no_double_underscore_append s u :
  no_double_underscore s = true -> all_chars not_underscore u = true ->
  no_double_underscore (s +:+ u) = true.
Proof.
  intros Hs Hu. induction s as [|c s IH]; [now apply no_underscore_no_double |].
  destruct s as [|c' s].
  - change (String c "" +:+ u) with (String c u). destruct u as [|d u]; [reflexivity |].
    rewrite no_double_underscore_cons.
    rewrite (no_underscore_no_double _ Hu), andb_true_r.
    rewrite all_chars_cons in Hu. apply andb_true_iff in Hu as [Hd _].
    unfold not_underscore in Hd. apply negb_true_iff in Hd. rewrite Hd.
    now rewrite andb_false_r.
  - rewrite no_double_underscore_cons in Hs. apply andb_true_iff in Hs as [Hcc Hs].
    change (String c (String c' s) +:+ u) with (String c (String c' (s +:+ u))).
    rewrite no_double_underscore_cons, Hcc. exact (IH Hs).
Qed.

(** X2: an id that is well formed already comes back as it is, followed
    by the UUID drawn: nothing is replaced, prefixed or collapsed. *)
Theorem validate_uid_keeps_valid (H : Host) (s : string) (w : World) :
  canonical_uuids H ->
  well_formed_uid s = true ->
  validate_uid H (Some s) w = (Ok (s +:+ randomUUID H (uuids_drawn w)), draw w).
Proof.
  intros Hcanon Hs. specialize (Hcanon (uuids_drawn w)).
  set (u := randomUUID H (uuids_drawn w)) in *.
  unfold well_formed_uid in Hs.
  apply andb_true_iff in Hs as [[Hstart Hchars]%andb_true_iff Hdouble].
  rewrite validate_uid_closed_form. fold u. unfold uid_closed_form.
  destruct s as [|c s]; [discriminate |].
  change (JS.truthy (Some (String c s))) with true.
  change (JS.str (Some (String c s))) with (String c s). cbv iota.
  rewrite (underscored_clean _ Hchars).
  change (starts_alnum (String c s +:+ u)) with (starts_alnum (String c s)).
  rewrite Hstart, squeezed_clean; [reflexivity |].
  apply no_double_underscore_append; [exact Hdouble | now apply is_uuid_no_underscore].
Qed.

Lemma validate_uid_keeps_valid_witness :
  well_formed_uid "MyItem-received-update-ON" = true
  /\ validate_uid Demo.host (Some "MyItem-received-update-ON") Demo.world
     = (Ok "MyItem-received-update-ON00000000-0000-4000-8000-000000000000",
        draw Demo.world).
Proof.
  split; [reflexivity |].
  apply (validate_uid_keeps_valid Demo.host "MyItem-received-update-ON" Demo.world).
  - exact Demo_uuid_canonical.
  - reflexivity.
Defined.

(** X3: without an argument, or with [null] or the empty string, the id
    is the UUID drawn and nothing else. *)
Theorem validate_uid_of_nothing (H : Host) (uid : option string) (w : World) :
  canonical_uuids H ->
  JS.truthy uid = false ->
  validate_uid H uid w = (Ok (randomUUID H (uuids_drawn w)), draw w).
Proof.
  intros Hcanon Huid. specialize (Hcanon (uuids_drawn w)).
  rewrite validate_uid_closed_form. unfold uid_closed_form.
  rewrite Huid, (is_uuid_starts_alnum _ Hcanon), squeezed_clean; [reflexivity |].
  now apply no_underscore_no_double, is_uuid_no_underscore.
Qed.

Lemma validate_uid_of_nothing_witness :
  JS.truthy (Some "") = false
  /\ validate_uid Demo.host (Some "") Demo.world
     = (Ok "00000000-0000-4000-8000-000000000000", draw Demo.world).
Proof.
  split; [reflexivity |].
  apply (validate_uid_of_nothing Demo.host (Some "") Demo.world).
  - exact Demo_uuid_canonical.
  - reflexivity.
Defined.

(** X4: the id always ends with the UUID drawn for it, so two calls that
    draw different UUIDs return different ids, whatever their arguments
    (the same argument twice included). *)
Theorem validate_uid_never_collides (H : Host) (uid1 uid2 : option string)
    (w1 w2 : World) :
  canonical_uuids H ->
  randomUUID H (uuids_drawn w1) <> randomUUID H (uuids_drawn w2) ->
  exists prefix1 prefix2,
    validate_uid H uid1 w1
    = (Ok (prefix1 +:+ randomUUID H (uuids_drawn w1)), draw w1)
    /\ validate_uid H uid2 w2
       = (Ok (prefix2 +:+ randomUUID H (uuids_drawn w2)), draw w2)
    /\ prefix1 +:+ randomUUID H (uuids_drawn w1)
       <> prefix2 +:+ randomUUID H (uuids_drawn w2).
Proof.
  intros Hcanon Hdiff.
  destruct (uid_text_suffix uid1 _ (Hcanon (uuids_drawn w1))) as [p1 E1].
  destruct (uid_text_suffix uid2 _ (Hcanon (uuids_drawn w2))) as [p2 E2].
  exists p1, p2. rewrite !validate_uid_run, E1, E2.
  split; [reflexivity |]. split; [reflexivity |].
  intros Heq. apply Hdiff. apply (append_same_length_suffix p1 p2); [| exact Heq].
  now rewrite !is_uuid_length by apply Hcanon.
Qed.

Lemma validate_uid_never_collides_witness :
  randomUUID Demo.host 0 <> randomUUID Demo.host 1
  /\ exists prefix1 prefix2,
       validate_uid Demo.host (Some "MyRule") Demo.world
       = (Ok (prefix1 +:+ randomUUID Demo.host 0), draw Demo.world)
       /\ validate_uid Demo.host (Some "MyRule") (draw Demo.world)
          = (Ok (prefix2 +:+ randomUUID Demo.host 1), draw (draw Demo.world))
       /\ prefix1 +:+ randomUUID Demo.host 0 <> prefix2 +:+ randomUUID Demo.host 1.
Proof.
  split; [vm_compute; discriminate |].
  apply (validate_uid_never_collides Demo.host (Some "MyRule") (Some "MyRule")
           Demo.world (draw Demo.world)).
  - exact Demo_uuid_canonical.
  - vm_compute; discriminate.
Defined.

(** X5: an id whose first character is not a letter or digit gets
    "javascript" in front of it. *)
Theorem validate_uid_marks_bad_start (H : Host) (c : ascii) (s : string) (w : World) :
  is_alnum c = false ->
  validate_uid H (Some (String c s)) w
  = (Ok ("javascript"
         +:+ squeezed (underscored (String c s) +:+ randomUUID H (uuids_drawn w))),
     draw w).
Proof.
  intros Hc. rewrite validate_uid_closed_form. unfold uid_closed_form.
  change (JS.truthy (Some (String c s))) with true.
  change (JS.str (Some (String c s))) with (String c s). cbv iota.
  cbn [underscored].
  set (c' := if uid_char c then c else "_"%char).
  assert (Hc' : is_alnum c' = false) by (subst c'; now destruct (uid_char c)).
  set (rest := underscored s +:+ randomUUID H (uuids_drawn w)).
  change (String c' (underscored s) +:+ randomUUID H (uuids_drawn w))
    with (String c' rest).
  cbn [starts_alnum]. rewrite Hc'. reflexivity.
Qed.

Lemma validate_uid_marks_bad_start_witness :
  is_alnum "_" = false
  /\ validate_uid Demo.host (Some "__a  b__c_") Demo.world
     = (Ok "javascript_a_b_c_00000000-0000-4000-8000-000000000000", draw Demo.world).
Proof.
  split; [reflexivity |].
  rewrite (validate_uid_marks_bad_start Demo.host "_" "_a  b__c_" Demo.world eq_refl).
  vm_compute. reflexivity.
Defined.

(** ** The parser's variables *)

Lemma parse_round_kept H expr st st' :
  parse_round H expr st = Ok st' ->
  filled_in_order (snd st) = true ->
  slots_kept (snd st) (snd st') /\ filled_in_order (snd st') = true.
Proof.
  destruct st as [input_list v]. unfold parse_round, take_tokens. cbn [snd].
  intros Hround Horder.
  split_ifs; try discriminate; injection Hround as <-; cbn [snd];
    destruct v as [[a|] [b|] [c|] [d|] [e|]];
    unfold filled_in_order, slots_kept, kept in *;
    cbn [set_target_type set_trigger_target set_trigger_type set_old_state
         set_new_state target_type trigger_target trigger_type old_state new_state
         JS.not_null negb andb orb] in *;
    try discriminate;
    (split; [repeat split; intros x Hx; first [exact Hx | discriminate Hx]
            | reflexivity]).
Qed.

(** X6: the loop of the parser never changes a variable that is set, and
    it sets them in order: target_type, then trigger_target, then
    trigger_type, then the states. *)
Theorem parse_loop_fills_in_order (H : Host) (expr : string) (rounds : nat)
    (st st' : list string * Slots) :
  filled_in_order (snd st) = true ->
  parse_loop H expr rounds st = Ok st' ->
  slots_kept (snd st) (snd st') /\ filled_in_order (snd st') = true.
Proof.
  revert st. induction rounds as [|n IH]; intros st Horder; simpl.
  - intros [= <-]. split; [| exact Horder]. repeat split; intros x Hx; exact Hx.
  - destruct (0 <? length (fst st))%nat.
    + destruct (parse_round H expr st) as [st1|] eqn:Hround; [| discriminate].
      intros Hloop.
      destruct (parse_round_kept _ _ _ _ Hround Horder) as [Hkept1 Horder1].
      destruct (IH st1 Horder1 Hloop) as [Hkept Horder'].
      split; [| exact Horder'].
      destruct Hkept1 as (K1 & K2 & K3 & K4 & K5).
      destruct Hkept as (L1 & L2 & L3 & L4 & L5).
      repeat split; intros x Hx; auto.
    + intros [= <-]. split; [| exact Horder]. repeat split; intros x Hx; exact Hx.
Qed.

Lemma parse_loop_fills_in_order_witness :
  filled_in_order (mkSlots (Some "Item") None None None None) = true
  /\ slots_kept (mkSlots (Some "Item") None None None None)
       (mkSlots (Some "Item") (Some "Test_Switch_1") (Some "changed") None (Some "ON"))
  /\ filled_in_order
       (mkSlots (Some "Item") (Some "Test_Switch_1") (Some "changed") None (Some "ON"))
     = true.
Proof.
  split; [reflexivity |].
  apply (parse_loop_fills_in_order Demo.host "Item Test_Switch_1 changed to ON" 5
           (["Test_Switch_1"; "changed"; "to"; "ON"],
            mkSlots (Some "Item") None None None None)
           ([], mkSlots (Some "Item") (Some "Test_Switch_1") (Some "changed") None
                  (Some "ON"))).
  - reflexivity.
  - vm_compute. reflexivity.
Defined.

Lemma split_not_empty s : JS.split s <> [].
Proof.
  induction s as [|c s IH]; [discriminate |]. cbn [JS.split].
  destruct (Ascii.eqb c " "); [discriminate |].
  destruct (JS.split s); discriminate.
Qed.

Lemma split_tokens_no_space s : forallb no_space (JS.split s) = true.
Proof.
  induction s as [|c s IH]; [reflexivity |]. cbn [JS.split].
  destruct (Ascii.eqb c " ") eqn:Hc; [exact IH |].
  destruct (JS.split s) as [|h t]; cbn [forallb] in *.
  - unfold no_space. cbn [all_chars]. now rewrite Hc.
  - apply andb_true_iff in IH as [Hh Ht]. rewrite Ht, andb_true_r.
    unfold no_space in *. rewrite all_chars_cons, Hc, Hh. reflexivity.
Qed.

Lemma forallb_drop {A} (p : A -> bool) n (l : list A) :
  forallb p l = true -> forallb p (drop n l) = true.
Proof.
  revert l. induction n as [|n IH]; intros l; [now rewrite drop_0 |].
  destruct l as [|x l]; [reflexivity |]. cbn [forallb drop].
  intros [_ Hl]%andb_true_iff. now apply IH.
Qed.

Lemma first_token_no_space input_list :
  forallb no_space input_list = true ->
  no_space (JS.join "" (JS.slice0 1 input_list)) = true.
Proof.
  destruct input_list as [|t rest]; [reflexivity |]. cbn [forallb].
  now intros [Ht _]%andb_true_iff.
Qed.

Lemma has_two_phrases s :
  JS.has ["Member of"; "Descendent of"] (Some s) = true ->
  s = "Member of" \/ s = "Descendent of".
Proof.
  cbn [JS.has existsb]. rewrite orb_false_r.
  intros [Hs | Hs]%orb_true_iff; apply String.eqb_eq in Hs; auto.
Qed.

Lemma parse_round_target_shape H expr st st' :
  parse_round H expr st = Ok st' ->
  forallb no_space (fst st) = true -> target_shape (target_type (snd st)) = true ->
  forallb no_space (fst st') = true /\ target_shape (target_type (snd st')) = true.
Proof.
  destruct st as [input_list v]. unfold parse_round, take_tokens, JS.spliced.
  cbn [fst snd]. intros Hround Htokens Hshape.
  pose proof (first_token_no_space _ Htokens) as Hfirst.
  split_ifs; try discriminate; injection Hround as <-; cbn [fst snd];
    (split; [first [assumption | repeat apply forallb_drop; assumption] |]);
    cbn [set_target_type set_trigger_target set_trigger_type set_old_state
         set_new_state target_type];
    try assumption.
  - change (target_shape (Some (next_two input_list)) = true).
    match goal with
    | E : JS.has _ (Some _) = true |- _ =>
        apply has_two_phrases in E as [E | E]; rewrite E; reflexivity
    end.
  - change (target_shape (Some (JS.join "" (JS.slice0 1 input_list))) = true).
    unfold target_shape. now rewrite Hfirst.
Qed.

Lemma parse_loop_target_shape H expr rounds st st' :
  parse_loop H expr rounds st = Ok st' ->
  forallb no_space (fst st) = true -> target_shape (target_type (snd st)) = true ->
  target_shape (target_type (snd st')) = true.
Proof.
  revert st. induction rounds as [|n IH]; intros st; simpl; [now intros [= <-] |].
  destruct (0 <? length (fst st))%nat; [| now intros [= <-]].
  destruct (parse_round H expr st) as [st1|] eqn:Hround; [| discriminate].
  intros Hloop Htokens Hshape.
  destruct (parse_round_target_shape _ _ _ _ Hround Htokens Hshape) as [Ht1 Hs1].
  eapply IH; eassumption.
Qed.

Lemma parse_target_shape H expr v :
  parse H expr = Ok v -> target_shape (target_type v) = true.
Proof.
  unfold parse. destruct (1 <? length (JS.split expr))%nat.
  - destruct (parse_loop _ _ _ _) as [[rest v']|] eqn:Hloop; [| discriminate].
    intros [= <-].
    apply (parse_loop_target_shape _ _ _ _ _ Hloop);
      [apply split_tokens_no_space | reflexivity].
  - now intros [= <-].
Qed.

Lemma select_some v n :
  target_shape (target_type v) = true ->
  JS.has ["Item"; "Member of"; "Descendent of"; "Thing"; "Channel"; "System"; "Time";
          "Item Event"] (target_type v) = true ->
  select v n <> None.
Proof.
  unfold select. destruct (target_type v) as [t|]; [| discriminate].
  cbn [JS.has existsb target_shape JS.eq]. intros Hshape Hin.
  repeat match type of Hin with
         | _ || _ = true => apply orb_true_iff in Hin as [Hin | Hin]
         end;
    try discriminate; apply String.eqb_eq in Hin; subst t;
    try (cbn; destruct (JS.has lifecycle (trigger_type v)); discriminate).
Qed.

(** X7: [when] never returns [undefined]: for every expression it returns
    one of its inner functions or throws the generic error.  The entry
    "Item Event" of the list of valid target types cannot come out of the
    parser, whose target types are single tokens or the two phrases
    "Member of" and "Descendent of". *)
Theorem when_returns_function (H : Host) (expr : string) (w : World) :
  fst (when H expr w) <> Ok None.
Proof.
  unfold when. destruct (when_try H expr w) as [[f|e] w1] eqn:Htry.
  - cbn [fst]. intros [= ->]. revert Htry. unfold when_try, bind, lift.
    destruct (parse H expr) as [v|] eqn:Hparse; [| discriminate].
    destruct (validate H expr v) as [[]|] eqn:Hval; [| discriminate].
    unfold LOG. rewrite validate_uid_run. unfold ret. intros [= Hselect _].
    revert Hselect. apply select_some; [eapply parse_target_shape; eassumption |].
    unfold validate in Hval. apply throw_if_ok in Hval as [Hfirst _].
    injection Hfirst as Hfirst. apply orb_false_iff in Hfirst as [_ Hfirst].
    now apply negb_false_iff in Hfirst.
  - destruct e; cbn; discriminate.
Qed.

(** ** Running [when] on one expression *)

Lemma attached_same_heap specs func object w1 w w' :
  heap w1 = heap w -> attached specs func object w1 w' -> attached specs func object w w'.
Proof. unfold attached. now intros ->. Qed.

Lemma decorate_builds H expr v f func w object a type_uid cfg e :
  parse H expr = Ok v -> validate H expr v = Ok tt ->
  (forall n, select v (Some n) = Some (Closure f v (Some n))) ->
  (forall n func,
     call H (Closure f v (Some n)) func
     = (let! trigger := build H (Some n) type_uid cfg in
        do! LOG (e n) in add_trigger func (Some trigger))) ->
  heap w !! func = Some object -> triggers_of object = Some a ->
  exists w',
    decorate H expr func w = (Ok func, w')
    /\ attached [Some (mkTrigger (expression_id H expr w) type_uid cfg)] func object w w'.
Proof.
  intros Hparse Hval Hsel Hcall Hobj Ha.
  destruct (when_run H expr v w Hparse Hval) as (w1 & Hwhen & Hheap & Hdrawn).
  unfold decorate. rewrite (bind_ok _ _ _ _ _ Hwhen), Hsel, Hcall.
  rewrite <- Hheap in Hobj.
  set (n := uid_text (Some expr) (randomUUID H (uuids_drawn w))).
  destruct (single_run (build H (Some n) type_uid cfg) (e n)
              func w1 object a (build_builds H _ type_uid cfg) Hobj Ha)
    as (t & w' & Hrun & Ht & _ & Hatt).
  exists w'. split; [exact Hrun |].
  rewrite build_run in Ht. injection Ht as <-. rewrite Hdrawn in Hatt.
  now apply (attached_same_heap _ _ _ w1).
Qed.

Lemma split_append a b : JS.split (a +:+ " " +:+ b) = (JS.split a ++ JS.split b)%list.
Proof.
  change (a +:+ " " +:+ b) with (a +:+ String " " b).
  induction a as [|c a IH]; [reflexivity |].
  change (String c a +:+ String " " b) with (String c (a +:+ String " " b)).
  cbn [JS.split]. rewrite IH. destruct (Ascii.eqb c " "); [reflexivity |].
  destruct (JS.split a) as [|h t] eqn:Hsplit; [now apply split_not_empty in Hsplit |].
  reflexivity.
Qed.

Ltac one_of_the_words :=
  repeat match goal with
         | Hx : JS.has _ (Some _) = true |- _ => cbn [JS.has existsb lifecycle] in Hx
         | Hx : _ || _ = true |- _ => apply orb_true_iff in Hx as [Hx | Hx]
         | Hx : String.eqb _ _ = true |- _ => apply String.eqb_eq in Hx; subst
         | Hx : false = true |- _ => discriminate Hx
         end.

Lemma parse_loop_step H expr n st st' :
  parse_round H expr st = Ok st' -> (0 <? length (fst st))%nat = true ->
  parse_loop H expr (S n) st = parse_loop H expr n st'.
Proof. intros Hround Hlen. cbn [parse_loop]. now rewrite Hlen, Hround. Qed.

Lemma parse_loop_throw H expr n st e :
  parse_round H expr st = Throw e -> (0 <? length (fst st))%nat = true ->
  parse_loop H expr (S n) st = Throw e.
Proof. intros Hround Hlen. cbn [parse_loop]. now rewrite Hlen, Hround. Qed.

Lemma parse_loop_empty H expr n v : parse_loop H expr n ([], v) = Ok ([], v).
Proof. now destruct n. Qed.

Lemma when_parse_throws H expr message w :
  parse H expr = Throw (RangeError message) ->
  when H expr w = (Ok (Some BadTrigger), logged (LogWarn message) w).
Proof. intros Hparse. unfold when, when_try. now rewrite Hparse. Qed.

Lemma when_try_heap H expr w r w1 : when_try H expr w = (r, w1) -> heap w1 = heap w.
Proof.
  unfold when_try, bind, lift, LOG, ret.
  destruct (parse H expr) as [v|]; cbv beta iota; [| now intros [= _ <-]].
  destruct (validate H expr v); cbv beta iota; [| now intros [= _ <-]].
  rewrite validate_uid_run. now intros [= _ <-].
Qed.

Lemma when_heap H expr w r w1 : when H expr w = (r, w1) -> heap w1 = heap w.
Proof.
  unfold when. destruct (when_try H expr w) as [[f|e] w0] eqn:Htry;
    apply when_try_heap in Htry.
  - now intros [= _ <-].
  - destruct e; unfold bind, LOG, ret, throw; cbv beta iota; now intros [= _ <-].
Qed.

(** ** Lifecycle events of items and things *)

(** X8: "Item added", "Item X removed", "Thing modified" and the like,
    for every registry: the callback gets one generic event trigger on
    the topic openhab/* for the source openhab/items/ or openhab/things/,
    followed by the name and a slash when a name is given, and for the
    event type of the keyword (modified is ...UpdatedEvent).  The registry
    is not asked whether X exists.  X may be any word but cron. *)
Theorem lifecycle_expression (H : Host) (T K : string) (target : option string)
    (func : loc) (w : World) (object : gmap string value) (a : list (option Trigger)) :
  JS.has ["Item"; "Thing"] (Some T) = true ->
  JS.has lifecycle (Some K) = true ->
  (forall X, target = Some X -> no_space X = true /\ X <> "cron") ->
  heap w !! func = Some object -> triggers_of object = Some a ->
  let expr := lifecycle_expression_text T target K in
  let source := (if String.eqb T "Item" then "items" else "things")
                +:+ (if JS.truthy target then "/" +:+ JS.str target else "") in
  exists w',
    decorate H expr func w = (Ok func, w')
    /\ attached
         [Some (mkTrigger (expression_id H expr w) "core.GenericEventTrigger"
                  (<["eventTypes" := JStr (lifecycle_event T K)]>
                     (<["eventSource" := JStr ("openhab/" +:+ source +:+ "/")]>
                        (<["eventTopic" := JStr "openhab/*"]> ∅))))]
         func object w w'.
Proof.
  intros HT HK Htarget Hobj Ha expr source. subst expr source.
  assert (Hparse : parse H (lifecycle_expression_text T target K)
                   = Ok (mkSlots (Some T) (Some (default "" target)) (Some K) None None)).
  { destruct target as [X|].
    - destruct (Htarget X eq_refl) as [HX Hcron].
      apply String.eqb_neq in Hcron.
      change (parse H (JS.join " " [T; X; K])
              = Ok (mkSlots (Some T) (Some X) (Some K) None None)).
      unfold parse. cbn [JS.has existsb lifecycle] in HT, HK.
      repeat match goal with
             | Hx : _ || _ = true |- _ => apply orb_true_iff in Hx as [Hx | Hx]
             | Hx : String.eqb _ _ = true |- _ => apply String.eqb_eq in Hx; subst
             | Hx : false = true |- _ => discriminate Hx
             end;
        (rewrite split_join; [| discriminate | cbn [forallb]; rewrite HX; reflexivity]);
        cbn; rewrite Hcron; reflexivity.
    - cbn [JS.has existsb lifecycle] in HT, HK.
      repeat match goal with
             | Hx : _ || _ = true |- _ => apply orb_true_iff in Hx as [Hx | Hx]
             | Hx : String.eqb _ _ = true |- _ => apply String.eqb_eq in Hx; subst
             | Hx : false = true |- _ => discriminate Hx
             end; reflexivity. }
  cbn [JS.has existsb lifecycle] in HT, HK.
  eapply (decorate_builds H _ _ (if String.eqb T "Item" then Fn_item_event_trigger else Fn_thing_event_trigger) func w object a _ _
      (fun n => LogTrace (if String.eqb T "Item" then "when: Created item_event_trigger: '{}'" else "when: Created thing_event_trigger: '{}'") [Some n]) Hparse);
    try assumption;
    repeat match goal with
           | Hx : _ || _ = true |- _ => apply orb_true_iff in Hx as [Hx | Hx]
           | Hx : String.eqb _ _ = true |- _ => apply String.eqb_eq in Hx; subst
           | Hx : false = true |- _ => discriminate Hx
           end;
    try reflexivity;
    intros; destruct target as [[|c X]|]; reflexivity.
Qed.

Lemma lifecycle_expression_witness :
  exists w',
    decorate Demo.host "Item Test_Switch_1 modified" Demo.MyRule Demo.world
    = (Ok Demo.MyRule, w')
    /\ attached
         [Some (mkTrigger
                  (expression_id Demo.host "Item Test_Switch_1 modified" Demo.world)
                  "core.GenericEventTrigger"
                  (<["eventTypes" := JStr "ItemUpdatedEvent"]>
                     (<["eventSource" := JStr "openhab/items/Test_Switch_1/"]>
                        (<["eventTopic" := JStr "openhab/*"]> ∅))))]
         Demo.MyRule Demo.MyRule_object Demo.world w'.
Proof.
  refine (lifecycle_expression Demo.host "Item" "modified" (Some "Test_Switch_1")
            Demo.MyRule Demo.world Demo.MyRule_object [] _ _ _ _ _).
  - reflexivity.
  - reflexivity.
  - intros X [= <-]. split; [reflexivity | discriminate].
  - vm_compute; reflexivity.
  - vm_compute; reflexivity.
Defined.

(** ** Cron expressions *)

Lemma parse_cron H tokens :
  tokens <> [] -> forallb no_space tokens = true ->
  JS.has ["received update"; "received command"] (Some (next_two tokens)) = false ->
  JS.has ["changed"; "triggered"] (head tokens) = false ->
  parse H ("Time cron " +:+ JS.join " " tokens)
  = if isValidExpression H (JS.join " " tokens)
    then Ok (mkSlots (Some "Time") (Some "cron") (Some (JS.join " " tokens)) None None)
    else Throw (RangeError (not_a_cron_expression ("Time cron " +:+ JS.join " " tokens)
                              (JS.join " " tokens))).
Proof.
  intros Hne Htokens Htwo Hone.
  set (expr := "Time cron " +:+ JS.join " " tokens).
  assert (Hsplit : JS.split expr = "Time" :: "cron" :: tokens).
  { subst expr. destruct tokens as [|t rest]; [congruence |].
    change ("Time cron " +:+ JS.join " " (t :: rest))
      with (JS.join " " ("Time" :: "cron" :: t :: rest)).
    apply split_join; [discriminate | exact Htokens]. }
  unfold parse. rewrite Hsplit.
  destruct tokens as [|t rest]; [congruence |].
  change (1 <? length ("Time" :: "cron" :: t :: rest))%nat with true. cbv iota.
  cbn [length].
  rewrite (parse_loop_step H expr _
             ("Time" :: "cron" :: t :: rest, mkSlots None None None None None)
             ("cron" :: t :: rest, mkSlots (Some "Time") None None None None)
             eq_refl eq_refl).
  rewrite (parse_loop_step H expr _
             ("cron" :: t :: rest, mkSlots (Some "Time") None None None None)
             (t :: rest, mkSlots (Some "Time") (Some "cron") None None None)
             eq_refl eq_refl).
  cbn [JS.has existsb] in Htwo, Hone.
  apply orb_false_iff in Htwo as [Hupdate [Hcommand _]%orb_false_iff].
  apply orb_false_iff in Hone as [Hchanged [Htriggered _]%orb_false_iff].
  assert (Hround : parse_round H expr
                     (t :: rest, mkSlots (Some "Time") (Some "cron") None None None)
                   = if isValidExpression H (JS.join " " (t :: rest))
                     then Ok ([], mkSlots (Some "Time") (Some "cron")
                                    (Some (JS.join " " (t :: rest))) None None)
                     else Throw (RangeError (not_a_cron_expression expr
                                               (JS.join " " (t :: rest))))).
  { unfold parse_round.
    cbn [target_type trigger_target trigger_type JS.not_null negb].
    rewrite Hupdate, Hcommand.
    unfold JS.eq at 1. cbn [head]. rewrite Hchanged.
    unfold JS.eq at 1. rewrite Htriggered.
    change (JS.eq (Some "cron") "cron") with true.
    change (JS.eq (Some "Time") "Time") with true. cbv iota.
    unfold take_tokens, JS.slice0, JS.spliced.
    rewrite firstn_all, skipn_all.
    destruct (isValidExpression H (JS.join " " (t :: rest))); reflexivity. }
  destruct (isValidExpression H (JS.join " " (t :: rest))) eqn:Hvalid.
  - rewrite (parse_loop_step H expr _ _ _ Hround eq_refl).
    now rewrite parse_loop_empty.
  - now rewrite (parse_loop_throw H expr _ _ _ Hround eq_refl).
Qed.

(** X9: "Time cron" followed by tokens that do not start with one of the
    keywords: all the tokens, joined by spaces, are handed to the host as
    the cron expression.  When the host accepts it the callback gets one
    cron trigger with that expression; when it does not, [when] logs the
    warning about the cron expression and returns the function that
    marks the callback. *)
Theorem cron_expression (H : Host) (tokens : list string) (func : loc) (w : World)
    (object : gmap string value) (a : list (option Trigger)) :
  tokens <> [] -> forallb no_space tokens = true ->
  JS.has ["received update"; "received command"] (Some (next_two tokens)) = false ->
  JS.has ["changed"; "triggered"] (head tokens) = false ->
  heap w !! func = Some object -> triggers_of object = Some a ->
  let c := JS.join " " tokens in
  let expr := "Time cron " +:+ c in
  if isValidExpression H c
  then exists w',
         decorate H expr func w = (Ok func, w')
         /\ attached [Some (mkTrigger (expression_id H expr w) "timer.GenericCronTrigger"
                              (<["cronExpression" := JStr c]> ∅))]
              func object w w'
  else when H expr w
       = (Ok (Some BadTrigger), logged (LogWarn (not_a_cron_expression expr c)) w).
Proof.
  intros Hne Htokens Htwo Hone Hobj Ha c expr.
  pose proof (parse_cron H tokens Hne Htokens Htwo Hone) as Hparse.
  fold c expr in Hparse. destruct (isValidExpression H c).
  - eapply (decorate_builds H expr _ Fn_cron_trigger func w object a _ _
              (fun n => LogTrace "when: Created cron_trigger: '{}'" [Some n]) Hparse);
      try assumption; try reflexivity.
    unfold validate, not_lifecycle. cbn [target_type trigger_type JS.not_null negb].
    destruct (JS.has lifecycle (Some c)); reflexivity.
  - now apply when_parse_throws.
Qed.

Lemma cron_expression_witness :
  exists w',
    decorate Demo.host "Time cron 55 55 5 * * ?" Demo.MyRule Demo.world
    = (Ok Demo.MyRule, w')
    /\ attached
         [Some (mkTrigger (expression_id Demo.host "Time cron 55 55 5 * * ?" Demo.world)
                  "timer.GenericCronTrigger"
                  (<["cronExpression" := JStr "55 55 5 * * ?"]> ∅))]
         Demo.MyRule Demo.MyRule_object Demo.world w'.
Proof.
  refine (cron_expression Demo.host ["55"; "55"; "5"; "*"; "*"; "?"]
            Demo.MyRule Demo.world Demo.MyRule_object [] _ _ _ _ _ _).
  - discriminate.
  - reflexivity.
  - reflexivity.
  - reflexivity.
  - vm_compute; reflexivity.
  - vm_compute; reflexivity.
Defined.

(** ** The system target *)

(** X10: after "System", one word or "shuts down": only "started" is
    accepted, and gives one start level trigger for level 20; anything
    else, "shuts down" included, makes [when] log the warning about the
    trigger target and return the function that marks the callback. *)
Theorem system_expression (H : Host) (X : string) (func : loc) (w : World)
    (object : gmap string value) (a : list (option Trigger)) :
  no_space X = true \/ X = "shuts down" ->
  heap w !! func = Some object -> triggers_of object = Some a ->
  let expr := "System " +:+ X in
  if String.eqb X "started"
  then exists w',
         decorate H expr func w = (Ok func, w')
         /\ attached [Some (mkTrigger (expression_id H expr w)
                              "core.SystemStartlevelTrigger"
                              (<["startlevel" := JNum 20]> ∅))]
              func object w w'
  else when H expr w = (Ok (Some BadTrigger), logged (LogWarn (not_started expr X)) w).
Proof.
  intros HX Hobj Ha expr.
  assert (Hparse : parse H expr = Ok (mkSlots (Some "System") (Some X) None None None)).
  { destruct HX as [HX | ->]; [| reflexivity].
    subst expr. change ("System " +:+ X) with (JS.join " " ["System"; X]).
    unfold parse. rewrite split_join;
      [reflexivity | discriminate | cbn [forallb]; now rewrite HX]. }
  assert (Hval : validate H expr (mkSlots (Some "System") (Some X) None None None)
                 = if String.eqb X "started" then Ok tt
                   else Throw (RangeError (not_started expr X))).
  { unfold validate. cbn -[String.eqb String.append]. 
    destruct (String.eqb X "started"); reflexivity. }
  destruct (String.eqb X "started").
  - eapply (decorate_builds H expr _ Fn_system_trigger func w object a _ _
              (fun n => LogTrace "when: Created system_trigger: '{}'" [Some n]) Hparse);
      try assumption; reflexivity.
  - exact (when_throws H expr _ _ w Hparse Hval).
Qed.

Lemma system_expression_witness :
  when Demo.host "System shuts down" Demo.world
  = (Ok (Some BadTrigger),
     logged (LogWarn (not_started "System shuts down" "shuts down")) Demo.world).
Proof.
  refine (system_expression Demo.host "shuts down" Demo.MyRule Demo.world
            Demo.MyRule_object [] _ _ _).
  - right. reflexivity.
  - vm_compute; reflexivity.
  - vm_compute; reflexivity.
Defined.

(** ** Channels *)

Lemma parse_channel H uid event :
  no_space uid = true ->
  (forall E, event = Some E -> no_space E = true) ->
  parse H (channel_expression_text uid event)
  = Ok (mkSlots (Some "Channel") (Some uid) (Some "triggered") None event).
Proof.
  intros Huid Hevent. unfold parse. destruct event as [E|].
  - change (channel_expression_text uid (Some E))
      with (JS.join " " ["Channel"; uid; "triggered"; E]).
    rewrite split_join;
      [reflexivity | discriminate
      | cbn [forallb]; now rewrite Huid, (Hevent E eq_refl)].
  - change (channel_expression_text uid None)
      with (JS.join " " ["Channel"; uid; "triggered"]).
    rewrite split_join;
      [reflexivity | discriminate | cbn [forallb]; now rewrite Huid].
Qed.

Lemma validate_channel H expr uid event :
  validate H expr (mkSlots (Some "Channel") (Some uid) (Some "triggered") None event)
  = match ChannelUID H (Some uid) with
    | None => Throw IllegalArgument
    | Some c =>
        match things_getChannel H c with
        | None => Throw (because expr ("Channel '" +:+ uid +:+ "' does not exist"))
        | Some channel =>
            if same_kind (kind channel) TRIGGER then Ok tt
            else Throw (because expr ("'" +:+ uid +:+ "' is not a trigger Channel"))
        end
    end.
Proof.
  unfold validate, target_channel, not_lifecycle. cbn -[String.append].
  destruct (ChannelUID H (Some uid)) as [c|]; [| reflexivity].
  cbn -[String.append]. destruct (things_getChannel H c) as [channel|]; [| reflexivity].
  cbn -[String.append]. destruct (same_kind (kind channel) TRIGGER); reflexivity.
Qed.

(** X11: "Channel uid triggered", with or without an event: when the
    host takes the text for a channel UID and has a channel of the
    trigger kind for it, the callback gets one channel event trigger for
    that UID, with the event when one is given.  A channel that is
    missing or of another kind makes [when] log a warning and return the
    function that marks the callback; a text that the host does not take
    for a channel UID makes [when] throw the generic error. *)
Theorem channel_expression (H : Host) (uid : string) (event : option string)
    (func : loc) (w : World) (object : gmap string value) (a : list (option Trigger)) :
  no_space uid = true ->
  (forall E, event = Some E -> no_space E = true) ->
  heap w !! func = Some object -> triggers_of object = Some a ->
  let expr := channel_expression_text uid event in
  match ChannelUID H (Some uid) with
  | None =>
      when H expr w
      = (Throw generic_error, logged (LogError (get_stacktrace H IllegalArgument "when")) w)
  | Some c =>
      match things_getChannel H c with
      | None =>
          when H expr w
          = (Ok (Some BadTrigger),
             logged (LogWarn ("when: '" +:+ expr +:+ "' could not be parsed because "
                              +:+ "Channel '" +:+ uid +:+ "' does not exist")) w)
      | Some channel =>
          if same_kind (kind channel) TRIGGER
          then exists w',
                 decorate H expr func w = (Ok func, w')
                 /\ attached
                      [Some (mkTrigger (expression_id H expr w) "core.ChannelEventTrigger"
                               (put_unless_null "event" event
                                  (<["channelUID" := JStr uid]> ∅)))]
                      func object w w'
          else when H expr w
               = (Ok (Some BadTrigger),
                  logged (LogWarn ("when: '" +:+ expr +:+ "' could not be parsed because "
                                   +:+ "'" +:+ uid +:+ "' is not a trigger Channel")) w)
      end
  end.
Proof.
  intros Huid Hevent Hobj Ha expr.
  pose proof (parse_channel H uid event Huid Hevent) as Hparse. fold expr in Hparse.
  pose proof (validate_channel H expr uid event) as Hval.
  destruct (ChannelUID H (Some uid)) as [c|].
  - destruct (things_getChannel H c) as [channel|].
    + destruct (same_kind (kind channel) TRIGGER).
      * eapply (decorate_builds H expr _ Fn_channel_trigger func w object a _ _
                  (fun n => LogTrace "when: Created channel_trigger: '{}'" [Some n])
                  Hparse Hval);
          try assumption; reflexivity.
      * exact (when_throws H expr _ _ w Hparse Hval).
    + exact (when_throws H expr _ _ w Hparse Hval).
  - exact (when_throws H expr _ _ w Hparse Hval).
Qed.

Lemma channel_expression_witness :
  exists w',
    decorate Demo.host "Channel astro:sun:local:eclipse#event triggered START"
      Demo.MyRule Demo.world
    = (Ok Demo.MyRule, w')
    /\ attached
         [Some (mkTrigger
                  (expression_id Demo.host
                     "Channel astro:sun:local:eclipse#event triggered START" Demo.world)
                  "core.ChannelEventTrigger"
                  (<["event" := JStr "START"]>
                     (<["channelUID" := JStr "astro:sun:local:eclipse#event"]> ∅)))]
         Demo.MyRule Demo.MyRule_object Demo.world w'.
Proof.
  refine (channel_expression Demo.host "astro:sun:local:eclipse#event" (Some "START")
            Demo.MyRule Demo.world Demo.MyRule_object [] _ _ _ _).
  - reflexivity.
  - now intros E [= <-].
  - vm_compute; reflexivity.
  - vm_compute; reflexivity.
Defined.

(** X12: [validate_channel_uid] and [when] never agree on a channel:
    the UIDs that [validate_channel_uid] hands back are those of channels
    that [when] reports as not existing, and for a channel that [when]
    accepts [validate_channel_uid] logs that it is not valid and returns
    [null]. *)
Theorem validators_disagree_on_channels (H : Host) (uid : string) (w w0 : World) :
  no_space uid = true ->
  let expr := "Channel " +:+ uid +:+ " triggered" in
  (forall c,
      fst (validate_channel_uid H (ChannelString uid) w0) = Ok (Some c) ->
      when H expr w
      = (Ok (Some BadTrigger),
         logged (LogWarn ("when: '" +:+ expr +:+ "' could not be parsed because "
                          +:+ "Channel '" +:+ uid +:+ "' does not exist")) w))
  /\ (forall f v n,
        fst (when H expr w) = Ok (Some (Closure f v n)) ->
        exists c,
          ChannelUID H (Some uid) = Some c
          /\ validate_channel_uid H (ChannelString uid) w0
             = (Ok None, logged (not_a_valid_channel c) w0)).
Proof.
  intros Huid expr.
  assert (Hparse : parse H expr
                   = Ok (mkSlots (Some "Channel") (Some uid) (Some "triggered") None None))
    by (apply (parse_channel H uid None Huid); discriminate).
  pose proof (validate_channel H expr uid None) as Hval.
  unfold validate_channel_uid, lift, bind, ret.
  destruct (ChannelUID H (Some uid)) as [c|]; cbn [or_throw].
  - destruct (things_getChannel H c) as [channel|]; cbn [is_null negb].
    + split; [discriminate |]. intros f v n _. exists c. split; reflexivity.
    + split.
      * intros _ _. exact (when_throws H expr _ _ w Hparse Hval).
      * intros f v n. rewrite (when_throws H expr _ _ w Hparse Hval). discriminate.
  - split; [discriminate |].
    intros f v n. rewrite (when_throws H expr _ _ w Hparse Hval). discriminate.
Qed.

Lemma validators_disagree_on_channels_witness :
  fst (when Demo.host "Channel astro:sun:local:eclipse#event triggered" Demo.world)
  = Ok (Some (Closure Fn_channel_trigger
                (mkSlots (Some "Channel") (Some "astro:sun:local:eclipse#event")
                   (Some "triggered") None None)
                (Some ("Channel_astro_sun_local_eclipse_event_triggered"
                       +:+ "00000000-0000-4000-8000-000000000000"))))
  /\ exists c,
       ChannelUID Demo.host (Some "astro:sun:local:eclipse#event") = Some c
       /\ validate_channel_uid Demo.host (ChannelString "astro:sun:local:eclipse#event")
            Demo.world
          = (Ok None, logged (not_a_valid_channel c) Demo.world).
Proof.
  split; [vm_compute; reflexivity |].
  refine (proj2 (validators_disagree_on_channels Demo.host
                   "astro:sun:local:eclipse#event" Demo.world Demo.world _) _ _ _ _).
  - reflexivity.
  - vm_compute; reflexivity.
Defined.

(** ** Things *)

(** X13: "Thing uid changed" and "Thing uid received update", without a
    status: when the host takes the text for a Thing UID and the registry
    has the Thing, the callback gets one generic event trigger for the
    source openhab/things/uid/ and the event type of a status change or
    of a status report.  A Thing that is missing makes [when] log a
    warning and return the function that marks the callback; a text that
    the host does not take for a Thing UID makes [when] throw the generic
    error. *)
Theorem thing_expression (H : Host) (uid K : string)
    (func : loc) (w : World) (object : gmap string value) (a : list (option Trigger)) :
  no_space uid = true ->
  JS.has ["changed"; "received update"] (Some K) = true ->
  heap w !! func = Some object -> triggers_of object = Some a ->
  let expr := "Thing " +:+ uid +:+ " " +:+ K in
  match ThingUID H (Some uid) with
  | None =>
      when H expr w
      = (Throw generic_error, logged (LogError (get_stacktrace H IllegalArgument "when")) w)
  | Some thing_uid =>
      match things_get H thing_uid with
      | None =>
          when H expr w
          = (Ok (Some BadTrigger),
             logged (LogWarn ("when: '" +:+ expr +:+ "' could not be parsed because "
                              +:+ "Thing '" +:+ uid +:+ "' is not in the ThingRegistry")) w)
      | Some _ =>
          exists w',
            decorate H expr func w = (Ok func, w')
            /\ attached
                 [Some (mkTrigger (expression_id H expr w) "core.GenericEventTrigger"
                          (<["eventTypes" := JStr (if String.eqb K "changed"
                                                   then "ThingStatusInfoChangedEvent"
                                                   else "ThingStatusInfoEvent")]>
                             (<["eventSource" :=
                                  JStr ("openhab/things"
                                        +:+ (if JS.truthy (Some uid) then "/" +:+ uid else "")
                                        +:+ "/")]>
                                (<["eventTopic" := JStr "openhab/*"]> ∅))))]
                 func object w w'
      end
  end.
Proof.
  intros Huid HK Hobj Ha expr.
  assert (Hparse : parse H expr = Ok (mkSlots (Some "Thing") (Some uid) (Some K) None None)).
  { subst expr. unfold parse. cbn [JS.has existsb] in HK.
    apply orb_true_iff in HK as [HK | [HK | HK]%orb_true_iff];
      [| | discriminate HK]; apply String.eqb_eq in HK; subst K.
    - change ("Thing " +:+ uid +:+ " " +:+ "changed")
        with (JS.join " " ["Thing"; uid; "changed"]).
      rewrite split_join;
        [reflexivity | discriminate | cbn [forallb]; now rewrite Huid].
    - change ("Thing " +:+ uid +:+ " " +:+ "received update")
        with (JS.join " " ["Thing"; uid; "received"; "update"]).
      rewrite split_join;
        [reflexivity | discriminate | cbn [forallb]; now rewrite Huid]. }
  assert (Hlife : JS.has lifecycle (Some K) = false).
  { cbn [JS.has existsb] in HK.
    apply orb_true_iff in HK as [HK | [HK | HK]%orb_true_iff];
      [| | discriminate HK]; apply String.eqb_eq in HK; now subst K. }
  assert (Hval : validate H expr (mkSlots (Some "Thing") (Some uid) (Some K) None None)
                 = match ThingUID H (Some uid) with
                   | None => Throw IllegalArgument
                   | Some thing_uid =>
                       if is_null (things_get H thing_uid)
                       then Throw (because expr ("Thing '" +:+ uid
                                                 +:+ "' is not in the ThingRegistry"))
                       else Ok tt
                   end).
  { unfold validate, not_lifecycle.
    cbn [target_type trigger_target trigger_type old_state new_state]. rewrite Hlife.
    cbn -[String.append]. destruct (ThingUID H (Some uid)) as [thing_uid|]; [| reflexivity].
    cbn -[String.append]. destruct (things_get H thing_uid); reflexivity. }
  destruct (ThingUID H (Some uid)) as [thing_uid|].
  - destruct (things_get H thing_uid) as [thing|].
    + eapply (decorate_builds H expr _ Fn_thing_trigger func w object a _ _
                (fun n => LogTrace "when: Created thing_trigger: '{}'" [Some n])
                Hparse Hval).
      * intros n. unfold select. cbn [target_type trigger_type]. rewrite Hlife. reflexivity.
      * intros n f. cbn [call]. unfold thing_trigger.
        cbn [new_state old_state JS.not_null orb trigger_type trigger_target JS.eq].
        unfold ThingEventTrigger, GenericEventTrigger. reflexivity.
      * assumption.
      * assumption.
    + exact (when_throws H expr _ _ w Hparse Hval).
  - exact (when_throws H expr _ _ w Hparse Hval).
Qed.

Lemma thing_expression_witness :
  exists w',
    decorate Demo.host "Thing kodi:kodi:familyroom changed" Demo.MyRule Demo.world
    = (Ok Demo.MyRule, w')
    /\ attached
         [Some (mkTrigger
                  (expression_id Demo.host "Thing kodi:kodi:familyroom changed" Demo.world)
                  "core.GenericEventTrigger"
                  (<["eventTypes" := JStr "ThingStatusInfoChangedEvent"]>
                     (<["eventSource" := JStr "openhab/things/kodi:kodi:familyroom/"]>
                        (<["eventTopic" := JStr "openhab/*"]> ∅))))]
         Demo.MyRule Demo.MyRule_object Demo.world w'.
Proof.
  refine (thing_expression Demo.host "kodi:kodi:familyroom" "changed"
            Demo.MyRule Demo.world Demo.MyRule_object [] _ _ _ _).
  - reflexivity.
  - reflexivity.
  - vm_compute; reflexivity.
  - vm_compute; reflexivity.
Defined.

(** ** Items *)

(** X14: an item that the registry does not have, for every registry:
    with "Item" the expression passes, [when] returns its function, and
    the exception of the registry comes out of that function when it is
    applied, with no trigger and no marker stored on any callback; with
    "Member of" and "Descendent of" the exception is raised inside [when],
    which logs it and throws the generic error. *)
Theorem missing_item_escapes (H : Host) (X K : string) (func : loc) (w : World) :
  no_space X = true ->
  JS.has ["changed"; "received update"; "received command"] (Some K) = true ->
  getItem H (Some X) = None ->
  (exists w',
     decorate H ("Item " +:+ X +:+ " " +:+ K) func w = (Throw ItemNotFound, w')
     /\ heap w' = heap w)
  /\ forall T, JS.has ["Member of"; "Descendent of"] (Some T) = true ->
       when H (T +:+ " " +:+ X +:+ " " +:+ K) w
       = (Throw generic_error, logged (LogError (get_stacktrace H ItemNotFound "when")) w).
Proof.
  intros HX HK Hitem.
  assert (Hparse : forall T, JS.has ["Item"; "Member of"; "Descendent of"] (Some T) = true ->
            parse H (T +:+ " " +:+ X +:+ " " +:+ K)
            = Ok (mkSlots (Some T) (Some X) (Some K) None None)).
  { intros T HT. unfold parse. rewrite !split_append, (split_no_space X HX).
    one_of_the_words; reflexivity. }
  split.
  - pose proof (Hparse "Item" eq_refl) as Hitem_parse.
    assert (Hval : validate H ("Item " +:+ X +:+ " " +:+ K)
                     (mkSlots (Some "Item") (Some X) (Some K) None None) = Ok tt)
      by (one_of_the_words; reflexivity).
    destruct (when_run H _ _ w Hitem_parse Hval) as (w1 & Hwhen & Hheap & _).
    exists w1. split; [| exact Hheap].
    unfold decorate. rewrite (bind_ok _ _ _ _ _ Hwhen).
    assert (Hselect : forall n,
              select (mkSlots (Some "Item") (Some X) (Some K) None None) n
              = Some (Closure Fn_item_trigger
                        (mkSlots (Some "Item") (Some X) (Some K) None None) n))
      by (intros n; one_of_the_words; reflexivity).
    rewrite Hselect. cbn [call]. unfold item_trigger.
    cbn [trigger_target]. rewrite Hitem. reflexivity.
  - intros T HT.
    apply (when_throws H _ _ ItemNotFound w (Hparse T ltac:(one_of_the_words; reflexivity))).
    unfold validate, target_item, not_lifecycle. cbn [trigger_target]. rewrite Hitem.
    one_of_the_words; reflexivity.
Qed.

Lemma missing_item_escapes_witness :
  getItem Demo.host (Some "NoSuchItem") = None
  /\ exists w',
       decorate Demo.host "Item NoSuchItem received update" Demo.MyRule Demo.world
       = (Throw ItemNotFound, w')
       /\ heap w' = heap Demo.world.
Proof.
  split; [reflexivity |].
  refine (proj1 (missing_item_escapes Demo.host "NoSuchItem" "received update"
                   Demo.MyRule Demo.world _ _ _)).
  - reflexivity.
  - reflexivity.
  - reflexivity.
Defined.

Lemma parse_item_received H X K Y :
  no_space X = true -> no_space Y = true ->
  JS.has ["received update"; "received command"] (Some K) = true ->
  parse H ("Item " +:+ X +:+ " " +:+ K +:+ " " +:+ Y)
  = Ok (mkSlots (Some "Item") (Some X) (Some K) None (Some Y)).
Proof.
  intros HX HY HK. unfold parse.
  change ("Item " +:+ X +:+ " " +:+ K +:+ " " +:+ Y)
    with ("Item" +:+ " " +:+ X +:+ " " +:+ K +:+ " " +:+ Y).
  rewrite !split_append, (split_no_space X HX), (split_no_space Y HY).
  one_of_the_words; reflexivity.
Qed.

(** X15: "Item X received update Y" for an item of the registry: when
    the item's data types parse Y, the callback gets one state update
    trigger for the item with that state; when they do not, [when] logs
    that Y is not a valid state and returns the function that marks the
    callback. *)
Theorem item_update_expression (H : Host) (X Y : string) (item : Item)
    (func : loc) (w : World) (object : gmap string value) (a : list (option Trigger)) :
  no_space X = true -> no_space Y = true ->
  getItem H (Some X) = Some item ->
  heap w !! func = Some object -> triggers_of object = Some a ->
  let expr := "Item " +:+ X +:+ " received update " +:+ Y in
  match parseState H (acceptedDataTypes item) Y with
  | None =>
      when H expr w
      = (Ok (Some BadTrigger),
         logged (LogWarn ("when: '" +:+ expr +:+ "' could not be parsed because '"
                          +:+ Y +:+ "' is not a valid state for '" +:+ X +:+ "'")) w)
  | Some _ =>
      exists t w',
        decorate H expr func w = (Ok func, w')
        /\ attached [Some t] func object w w'
        /\ typeUID t = "core.ItemStateUpdateTrigger"
        /\ configuration t
           = <["state" := JStr Y]> (<["itemName" := JStr (name item)]> ∅)
  end.
Proof.
  intros HX HY Hitem Hobj Ha expr.
  set (v := mkSlots (Some "Item") (Some X) (Some "received update") None (Some Y)).
  assert (Hparse : parse H expr = Ok v)
    by exact (parse_item_received H X "received update" Y HX HY eq_refl).
  assert (Hval : validate H expr v
                 = if is_null (parseState H (acceptedDataTypes item) Y)
                   then Throw (because expr ("'" +:+ Y +:+ "' is not a valid state for '"
                                             +:+ X +:+ "'"))
                   else Ok tt).
  { unfold validate, state_rejected, command_parsed, target_item.
    cbn -[String.append]. rewrite Hitem. cbn -[String.append].
    destruct (parseState H (acceptedDataTypes item) Y); reflexivity. }
  destruct (parseState H (acceptedDataTypes item) Y) as [state|].
  - destruct (decorate_item_run H expr v "received update" item [item] func w object a
                Hparse Hval eq_refl eq_refl eq_refl Hitem eq_refl Hobj Ha)
      as (w' & Hrun & _ & Hheap).
    exists (member_spec H v "received update" item (S (uuids_drawn w))), w'.
    split; [exact Hrun |].
    split; [eapply (heap_with_attached [_]); eassumption |].
    split; reflexivity.
  - exact (when_throws H expr v _ w Hparse Hval).
Qed.

Lemma item_update_expression_witness :
  exists t w',
    decorate Demo.host "Item Test_Switch_1 received update ON" Demo.MyRule Demo.world
    = (Ok Demo.MyRule, w')
    /\ attached [Some t] Demo.MyRule Demo.MyRule_object Demo.world w'
    /\ typeUID t = "core.ItemStateUpdateTrigger"
    /\ configuration t
       = <["state" := JStr "ON"]> (<["itemName" := JStr "Test_Switch_1"]> ∅).
Proof.
  refine (item_update_expression Demo.host "Test_Switch_1" "ON" Demo.Test_Switch_1
            Demo.MyRule Demo.world Demo.MyRule_object [] _ _ _ _ _).
  - reflexivity.
  - reflexivity.
  - reflexivity.
  - vm_compute; reflexivity.
  - vm_compute; reflexivity.
Defined.

(** X16: "Item X received command Y" for an item of the registry, for
    every host: the test on the parsed command is inverted, so when the
    item's command types parse Y, [when] logs that Y is not a valid
    command and returns the function that marks the callback, and when
    they do not, the callback gets one command trigger for the item with
    the command Y. *)
Theorem item_command_expression (H : Host) (X C : string) (item : Item)
    (func : loc) (w : World) (object : gmap string value) (a : list (option Trigger)) :
  no_space X = true -> no_space C = true ->
  getItem H (Some X) = Some item ->
  heap w !! func = Some object -> triggers_of object = Some a ->
  let expr := "Item " +:+ X +:+ " received command " +:+ C in
  match parseCommand H (acceptedCommandTypes item) C with
  | Some _ =>
      when H expr w
      = (Ok (Some BadTrigger),
         logged (LogWarn ("when: '" +:+ expr +:+ "' could not be parsed because '"
                          +:+ C +:+ "' is not a valid command for '" +:+ X +:+ "'")) w)
  | None =>
      exists t w',
        decorate H expr func w = (Ok func, w')
        /\ attached [Some t] func object w w'
        /\ typeUID t = "core.ItemCommandTrigger"
        /\ configuration t
           = <["command" := JStr C]> (<["itemName" := JStr (name item)]> ∅)
  end.
Proof.
  intros HX HC Hitem Hobj Ha expr.
  set (v := mkSlots (Some "Item") (Some X) (Some "received command") None (Some C)).
  assert (Hparse : parse H expr = Ok v)
    by exact (parse_item_received H X "received command" C HX HC eq_refl).
  pose proof (command_check H expr X C item Hitem) as Hval. fold v in Hval.
  destruct (parseCommand H (acceptedCommandTypes item) C) as [command|].
  - exact (when_throws H expr v _ w Hparse Hval).
  - destruct (decorate_item_run H expr v "received command" item [item] func w object a
                Hparse Hval eq_refl eq_refl eq_refl Hitem eq_refl Hobj Ha)
      as (w' & Hrun & _ & Hheap).
    exists (member_spec H v "received command" item (S (uuids_drawn w))), w'.
    split; [exact Hrun |].
    split; [eapply (heap_with_attached [_]); eassumption |].
    split; reflexivity.
Qed.

Lemma item_command_expression_witness :
  exists t w',
    decorate Demo.host "Item Test_Switch_1 received command FOO" Demo.MyRule Demo.world
    = (Ok Demo.MyRule, w')
    /\ attached [Some t] Demo.MyRule Demo.MyRule_object Demo.world w'
    /\ typeUID t = "core.ItemCommandTrigger"
    /\ configuration t
       = <["command" := JStr "FOO"]> (<["itemName" := JStr "Test_Switch_1"]> ∅).
Proof.
  refine (item_command_expression Demo.host "Test_Switch_1" "FOO" Demo.Test_Switch_1
            Demo.MyRule Demo.world Demo.MyRule_object [] _ _ _ _ _).
  - reflexivity.
  - reflexivity.
  - reflexivity.
  - vm_compute; reflexivity.
  - vm_compute; reflexivity.
Defined.

(** ** Keywords and target types *)



Lemma Ok_eq {A} (x y : A) : Ok x = Ok y -> x = y.
Proof. congruence. Qed.






(** ** The rule decorator *)

Lemma call_ok H c func w f' w' object :
  heap w !! func = Some object ->
  call H c func w = (Ok f', w') ->
  f' = func /\ exists specs, attached specs func object w w'.
Proof.
  intros Hobj Hrun. destruct c as [f v n|].
  - assert (Hdec : f = Fn_item_trigger \/ f <> Fn_item_trigger)
      by (destruct f; auto; right; discriminate).
    destruct Hdec as [-> | Hf].
    + cbn [call] in Hrun.
      destruct (item_trigger_ok H v func w f' w' object Hobj Hrun) as [-> [specs Hatt]].
      eauto.
    + destruct (closure_builds H f v n func Hf) as (m & e & Hm & Hcall).
      rewrite Hcall in Hrun.
      destruct (single_ok m e func w f' w' object Hm Hobj Hrun) as [-> [t Hatt]].
      eauto.
  - cbn [call] in Hrun. unfold bad_trigger in Hrun.
    apply add_trigger_ok in Hrun as [-> (object' & a & Hobj' & Ha & ->)].
    split; [reflexivity |]. exists [None].
    assert (object' = object) as -> by congruence.
    now apply store_attached.
Qed.

Lemma marked_triggers_of o a :
  triggers_of o = Some a -> marked o -> In None a.
Proof.
  intros Ha (a0 & Ha0 & Hin). unfold triggers_of in Ha. rewrite Ha0 in Ha. congruence.
Qed.

Lemma attached_marked specs func object w w' :
  attached specs func object w w' -> marked object \/ In None specs ->
  exists object', heap w' !! func = Some object' /\ marked object'.
Proof.
  intros [_ (object' & Hobj' & _ & Hspecs)] Hmarked. exists object'.
  split; [exact Hobj' |]. destruct specs as [|s specs].
  - subst object'. destruct Hmarked as [Hm | []]. exact Hm.
  - destruct Hspecs as (a & Ha & Htriggers). exists (a ++ s :: specs)%list.
    split; [exact Htriggers |]. apply in_or_app.
    destruct Hmarked as [Hm | Hin]; [left | now right].
    eapply marked_triggers_of; eassumption.
Qed.

Lemma rejected_when H expr w :
  rejected H expr = true ->
  exists message, when H expr w = (Ok (Some BadTrigger), logged (LogWarn message) w).
Proof.
  unfold rejected. destruct (parse H expr) as [v|[]] eqn:Hparse; try discriminate.
  - destruct (validate H expr v) as [|[]] eqn:Hval; try discriminate. intros _.
    eexists. exact (when_throws H expr v _ w Hparse Hval).
  - intros _. eexists. unfold when, when_try. rewrite Hparse. reflexivity.
Qed.

Lemma decorate_ok H expr func w f' w' object :
  heap w !! func = Some object ->
  decorate H expr func w = (Ok f', w') ->
  f' = func
  /\ (marked object \/ rejected H expr = true ->
      exists object', heap w' !! func = Some object' /\ marked object')
  /\ exists object', heap w' !! func = Some object'.
Proof.
  intros Hobj. unfold decorate, bind.
  destruct (when H expr w) as [[[c|]|] w1] eqn:Hwhen; try discriminate.
  intros Hcall.
  assert (Hheap : heap w1 = heap w) by exact (when_heap _ _ _ _ _ Hwhen).
  rewrite <- Hheap in Hobj.
  destruct (call_ok H c func w1 f' w' object Hobj Hcall) as [-> [specs Hatt]].
  split; [reflexivity |]. split.
  - intros [Hm | Hrej].
    + apply (attached_marked specs func object w1 w' Hatt). now left.
    + destruct (rejected_when H expr w Hrej) as [message Hbad].
      rewrite Hbad in Hwhen. injection Hwhen as <- <-.
      cbn [call] in Hcall. unfold bad_trigger in Hcall.
      apply add_trigger_ok in Hcall as [_ (o & a & Ho & Ha & ->)].
      exists (with_triggers (a ++ [None]) o). cbn [store heap].
      rewrite lookup_insert_eq. split; [reflexivity |].
      exists (a ++ [None])%list. unfold with_triggers. rewrite lookup_insert_eq.
      split; [reflexivity |]. apply in_or_app. right. now left.
  - destruct Hatt as [_ (object' & Hobj' & _)]. eauto.
Qed.

Lemma decorate_all_marked H exprs func w f' w' object :
  heap w !! func = Some object ->
  decorate_all H exprs func w = (Ok f', w') ->
  marked object \/ existsb (rejected H) exprs = true ->
  f' = func /\ exists object', heap w' !! func = Some object' /\ marked object'.
Proof.
  revert w object. induction exprs as [|expr rest IH]; intros w object Hobj.
  - cbn. intros [= <- <-] [Hm | Hfalse]; [eauto | discriminate].
  - cbn [decorate_all existsb]. unfold bind at 1.
    destruct (decorate H expr func w) as [[f1|] w1] eqn:Hfirst; [| discriminate].
    destruct (decorate_ok H expr func w f1 w1 object Hobj Hfirst)
      as (-> & Hmark & object1 & Hobj1).
    intros Hrest Hcause. apply (IH w1 object1 Hobj1 Hrest).
    destruct Hcause as [Hm | [Hrej | Hlater]%orb_true_iff]; [| | now right].
    + destruct (Hmark (or_introl Hm)) as (o & Ho & Hmo). left. congruence.
    + destruct (Hmark (or_intror Hrej)) as (o & Ho & Hmo). left. congruence.
Qed.

Lemma marked_has_null a : In None a -> existsb (@is_null Trigger) a = true.
Proof. intros Hin. apply existsb_exists. now exists None. Qed.

Lemma decorator_refuses_marked A H c object e o :
  heap (world e) !! object = Some o -> marked o ->
  exists c' e',
    decorator A H c object e = (Ok None, c', e')
    /\ rules e' = rules e /\ world e' = world e.
Proof.
  intros Hobj (a & Ha & Hin). unfold decorator. rewrite Hobj, Ha.
  destruct (instanceof_Function A object); [| do 2 eexists; split; [reflexivity | auto]].
  destruct a as [|t rest]; [destruct Hin |].
  rewrite (marked_has_null _ Hin). do 2 eexists; split; [reflexivity | auto].
Qed.

(** X18: one expression that the parser or the validation rejects is
    enough to keep a callback from becoming a rule: after any sequence of
    [when] decorations that returned, one of them rejected, the
    decorator of [rule] returns [null] for the callback, adds no rule
    and leaves every object as it was, whatever the other expressions
    attached before or after. *)
Theorem rejected_expression_blocks_rule (A : Automation) (H : Host) (c : RuleArgs)
    (exprs : list string) (func f' : loc) (w w' : World) (o : gmap string value)
    (registered : list SimpleRule) (entries : list RuleLogEntry) :
  existsb (rejected H) exprs = true ->
  heap w !! func = Some o ->
  decorate_all H exprs func w = (Ok f', w') ->
  exists c' e',
    decorator A H c f' (mkEngine w' registered entries) = (Ok None, c', e')
    /\ rules e' = registered /\ world e' = w'.
Proof.
  intros Hrej Hobj Hrun.
  destruct (decorate_all_marked H exprs func w f' w' o Hobj Hrun (or_intror Hrej))
    as (-> & object' & Hobj' & Hmarked).
  exact (decorator_refuses_marked A H c func (mkEngine w' registered entries) object'
           Hobj' Hmarked).
Qed.

Lemma rejected_expression_blocks_rule_witness :
  rejected Demo.host "Item Test_Switch_1 wobbles" = true
  /\ exists c' e',
       decorator DemoRules.automation Demo.host (rule (Some "My rule") None None false)
         Demo.MyRule
         (mkEngine
            (snd (decorate_all Demo.host
                    ["System started"; "Item Test_Switch_1 wobbles";
                     "Item Test_Switch_1 changed"] Demo.MyRule Demo.world))
            [] [])
       = (Ok None, c', e')
       /\ rules e' = []
       /\ world e'
          = snd (decorate_all Demo.host
                   ["System started"; "Item Test_Switch_1 wobbles";
                    "Item Test_Switch_1 changed"] Demo.MyRule Demo.world).
Proof.
  split; [vm_compute; reflexivity |].
  refine (rejected_expression_blocks_rule DemoRules.automation Demo.host _
            ["System started"; "Item Test_Switch_1 wobbles"; "Item Test_Switch_1 changed"]
            Demo.MyRule Demo.MyRule Demo.world _ Demo.MyRule_object [] [] _ _ _).
  - vm_compute; reflexivity.
  - vm_compute; reflexivity.
  - vm_compute; reflexivity.
Defined.

Lemma decorator_run A H c object e o trigger rest :
  heap (world e) !! object = Some o ->
  o !! "triggers" = Some (VArray (trigger :: rest)) ->
  existsb is_null (trigger :: rest) = false ->
  instanceof_Function A object = true ->
  SimpleRule_throws A = None ->
  let c' := with_name (or_else (rule_name c) (o !! "name")) c in
  let simple_rule := new_SimpleRule c' (<["log" := VObject]> o) (trigger :: rest) in
  decorator A H c object e
  = (Ok (Some object), c',
     mkEngine
       (mkWorld (<[object := registered_object A o e]> (heap (world e)))
          (uuids_drawn (world e)) (log (world e)))
       (rules e ++ [simple_rule])
       (rules_log e ++ [mkRuleLogEntry DEBUG "Added rule [{}]"
                          [Some (getName simple_rule)]])).
Proof.
  intros Hobj Ha Hnull Hfun Hthrows c' simple_rule.
  unfold decorator. rewrite Hobj, Hfun, Ha, Hnull. cbn [negb].
  unfold function_rule. rewrite Hthrows. unfold addRule, LOG_rules, set_object.
  cbn [world rules rules_log heap uuids_drawn log]. rewrite lookup_insert_eq.
  rewrite insert_insert_eq. reflexivity.
Qed.

(** X19: a callback that is a function and has triggers, none of them
    [null], becomes a rule once: the decorator returns the callback, the
    manager holds one more rule, with the triggers of the callback, no
    other object changes, and the callback has the UID of the rule and no
    triggers any more, so that [when] starts a new list on it.  A second
    application of the same decorator returns [null], adds no rule and
    changes no object. *)
Theorem rule_registers_once (A : Automation) (H : Host) (c : RuleArgs) (object : loc)
    (e : Engine) (o : gmap string value) (trigger : option Trigger)
    (rest : list (option Trigger)) :
  heap (world e) !! object = Some o ->
  o !! "triggers" = Some (VArray (trigger :: rest)) ->
  existsb is_null (trigger :: rest) = false ->
  instanceof_Function A object = true ->
  SimpleRule_throws A = None ->
  exists c' e' simple_rule o',
    decorator A H c object e = (Ok (Some object), c', e')
    /\ rules e' = (rules e ++ [simple_rule])%list
    /\ getTriggers simple_rule = trigger :: rest
    /\ heap (world e') !! object = Some o'
    /\ o' !! "UID" = Some (VStr (rule_UID A (length (rules e))))
    /\ triggers_of o' = Some []
    /\ (forall other, other ≠ object ->
          heap (world e') !! other = heap (world e) !! other)
    /\ exists c'' e'',
         decorator A H c' object e' = (Ok None, c'', e'')
         /\ rules e'' = rules e' /\ world e'' = world e'.
Proof.
  intros Hobj Ha Hnull Hfun Hthrows.
  pose proof (decorator_run A H c object e o trigger rest Hobj Ha Hnull Hfun Hthrows)
    as Hrun. cbv zeta in Hrun.
  do 4 eexists. split; [exact Hrun |]. cbn [rules world heap].
  split; [reflexivity |]. split; [reflexivity |].
  split; [apply lookup_insert_eq |].
  split; [unfold registered_object; rewrite lookup_insert_ne by discriminate;
          apply lookup_insert_eq |].
  split; [unfold triggers_of, registered_object; now rewrite lookup_insert_eq |].
  split; [intros other Hother; now apply lookup_insert_ne |].
  unfold decorator. cbn [world heap]. rewrite lookup_insert_eq, Hfun.
  unfold registered_object at 1. rewrite lookup_insert_eq.
  do 2 eexists. split; [reflexivity |]. split; reflexivity.
Qed.

Lemma rule_registers_once_witness :
  exists c' e' simple_rule o',
    decorator DemoRules.automation Demo.host (rule None None None false)
      DemoRules.first DemoRules.engine
    = (Ok (Some DemoRules.first), c', e')
    /\ rules e' = ([] ++ [simple_rule])%list
    /\ getTriggers simple_rule = [Some DemoRules.startup]
    /\ heap (world e') !! DemoRules.first = Some o'
    /\ o' !! "UID" = Some (VStr (rule_UID DemoRules.automation 0))
    /\ triggers_of o' = Some []
    /\ (forall other, other ≠ DemoRules.first ->
          heap (world e') !! other = heap (world DemoRules.engine) !! other)
    /\ exists c'' e'',
         decorator DemoRules.automation Demo.host c' DemoRules.first e'
         = (Ok None, c'', e'')
         /\ rules e'' = rules e' /\ world e'' = world e'.
Proof.
  refine (rule_registers_once DemoRules.automation Demo.host _ DemoRules.first
            DemoRules.engine DemoRules.first_object (Some DemoRules.startup) []
            _ _ _ _ _).
  - vm_compute; reflexivity.
  - vm_compute; reflexivity.
  - reflexivity.
  - reflexivity.
  - reflexivity.
Defined.

(** X20: the decorator assigns the name it falls back on to the variable
    it captured, so a decorator made without a name and applied to two
    callbacks names both rules after the first callback. *)
Theorem decorator_keeps_first_name (A : Automation) (H : Host)
    (description : option string) (tags : option (list string)) (visible : bool)
    (f1 f2 : loc) (e : Engine) (o1 o2 : gmap string value)
    (t1 t2 : option Trigger) (a1 a2 : list (option Trigger)) :
  f1 <> f2 ->
  heap (world e) !! f1 = Some o1 -> heap (world e) !! f2 = Some o2 ->
  o1 !! "triggers" = Some (VArray (t1 :: a1)) ->
  o2 !! "triggers" = Some (VArray (t2 :: a2)) ->
  existsb is_null (t1 :: a1) = false -> existsb is_null (t2 :: a2) = false ->
  instanceof_Function A f1 = true -> instanceof_Function A f2 = true ->
  SimpleRule_throws A = None ->
  truthy (o1 !! "name") = true ->
  exists c1 e1 c2 e2 r1 r2,
    decorator A H (rule None description tags visible) f1 e = (Ok (Some f1), c1, e1)
    /\ decorator A H c1 f2 e1 = (Ok (Some f2), c2, e2)
    /\ rules e2 = (rules e ++ [r1; r2])%list
    /\ Some (getName r1) = o1 !! "name"
    /\ getName r2 = getName r1.
Proof.
  intros Hne Hobj1 Hobj2 Ha1 Ha2 Hnull1 Hnull2 Hfun1 Hfun2 Hthrows Hname.
  pose proof (decorator_run A H (rule None description tags visible) f1 e o1 t1 a1
                Hobj1 Ha1 Hnull1 Hfun1 Hthrows) as Hrun1. cbv zeta in Hrun1.
  set (c1 := with_name (or_else (rule_name (rule None description tags visible))
                          (o1 !! "name"))
               (rule None description tags visible)) in *.
  set (r1 := new_SimpleRule c1 (<["log" := VObject]> o1) (t1 :: a1)) in *.
  match type of Hrun1 with _ = (_, _, ?y) => set (e1 := y) in * end.
  assert (Hobj2' : heap (world e1) !! f2 = Some o2).
  { subst e1. cbn [world heap]. rewrite lookup_insert_ne by congruence. exact Hobj2. }
  pose proof (decorator_run A H c1 f2 e1 o2 t2 a2 Hobj2' Ha2 Hnull2 Hfun2 Hthrows)
    as Hrun2. cbv zeta in Hrun2.
  set (c2 := with_name (or_else (rule_name c1) (o2 !! "name")) c1) in *.
  set (r2 := new_SimpleRule c2 (<["log" := VObject]> o2) (t2 :: a2)) in *.
  match type of Hrun2 with _ = (_, _, ?y) => set (e2 := y) in * end.
  exists c1, e1, c2, e2, r1, r2.
  split; [exact Hrun1 |]. split; [exact Hrun2 |].
  split; [subst e2 e1; cbn [rules]; now rewrite <- app_assoc |].
  assert (Hc1 : rule_name c1 = o1 !! "name") by reflexivity.
  assert (Hc2 : rule_name c2 = o1 !! "name").
  { subst c2. cbn [with_name rule_name]. unfold or_else. now rewrite Hc1, Hname. }
  subst r1 r2. unfold new_SimpleRule. cbn [getName]. rewrite Hc1, Hc2.
  unfold or_else. rewrite !Hname.
  destruct (o1 !! "name"); [split; reflexivity | discriminate].
Qed.

Lemma decorator_keeps_first_name_witness :
  exists c1 e1 c2 e2 r1 r2,
    decorator DemoRules.automation Demo.host (rule None None None false)
      DemoRules.first DemoRules.engine
    = (Ok (Some DemoRules.first), c1, e1)
    /\ decorator DemoRules.automation Demo.host c1 DemoRules.second e1
       = (Ok (Some DemoRules.second), c2, e2)
    /\ rules e2 = (rules DemoRules.engine ++ [r1; r2])%list
    /\ Some (getName r1) = DemoRules.first_object !! "name"
    /\ getName r2 = getName r1.
Proof.
  refine (decorator_keeps_first_name DemoRules.automation Demo.host None None false
            DemoRules.first DemoRules.second DemoRules.engine
            DemoRules.first_object DemoRules.second_object
            (Some DemoRules.startup) (Some DemoRules.midnight) [] []
            _ _ _ _ _ _ _ _ _ _ _).
  - discriminate.
  - vm_compute; reflexivity.
  - vm_compute; reflexivity.
  - vm_compute; reflexivity.
  - vm_compute; reflexivity.
  - reflexivity.
  - reflexivity.
  - reflexivity.
  - reflexivity.
  - reflexivity.
  - vm_compute; reflexivity.
Defined.

(** ** [validate_item] *)

(** X21: [validate_item] on a name never returns [null] and never logs:
    the comparison with a new array is false for every registry, so the
    item of the registry is returned, and for a name that the registry
    does not have its exception is thrown. *)
Theorem validate_item_by_name (H : Host) (item_name : string) (w : World) :
  validate_item H (ItemName item_name) w
  = (match getItem H (Some item_name) with
     | Some item => Ok (Some item)
     | None => Throw ItemNotFound
     end, w).
Proof.
  unfold validate_item, identical_to_new_array, lift, bind.
  destruct (getItem H (Some item_name)); reflexivity.
Qed.

(** ** The extension provider *)

(** X22: after any calls of [addValue] and [addPreset] on a new provider,
    every default preset is a preset, and the presets are the keys of
    the value names. *)
Theorem provider_presets (calls : list provider_call) (name : string) :
  let p := provider_after calls (JavascriptExtensionProvider name) in
  getDefaultPresets p ⊆ getPresets p /\ dom (preset_values p) = getPresets p.
Proof.
  cbv zeta. unfold provider_after.
  assert (Hstart : default_presets (JavascriptExtensionProvider name)
                     ⊆ presets (JavascriptExtensionProvider name)
                   /\ dom (preset_values (JavascriptExtensionProvider name))
                      = presets (JavascriptExtensionProvider name)).
  { cbn. split; [reflexivity | apply dom_empty_L]. }
  revert Hstart. generalize (JavascriptExtensionProvider name) as p.
  induction calls as [|call rest IH]; intros p Hp; [exact Hp |].
  cbn [foldl]. apply IH. destruct Hp as [Hdefault Hdom].
  destruct call as [n v | preset_name value_names is_default]; cbn.
  - auto.
  - rewrite dom_insert_L, Hdom. split; [| reflexivity].
    destruct is_default; [now apply union_mono_l |].
    etrans; [exact Hdefault | apply union_subseteq_r].
Qed.

(** X23: [importPreset] exports the value names of the preset, whatever
    the order in which the set hands them out: each name with its value,
    or with [null] when no value was added under the name; a preset that
    was never added exports nothing. *)
Theorem importPreset_lookup (p : ExtensionProvider) (preset name : string) :
  importPreset p preset !! name
  = if decide (name ∈ default ∅ (preset_values p !! preset))
    then Some (values p !! name) else None.
Proof.
  unfold importPreset.
  pose (P := fun (export_values : gmap string (option value)) (X : gset string) =>
               export_values !! name
               = if decide (name ∈ X) then Some (values p !! name) else None).
  apply (set_fold_ind_L P); subst P; cbv beta.
  - rewrite lookup_empty. destruct (decide (name ∈ (∅ : gset string))) as [Hin|];
      [now apply not_elem_of_empty in Hin | reflexivity].
  - intros x X r Hx IH. destruct (decide (name = x)) as [-> | Hne].
    + rewrite lookup_insert_eq.
      destruct (decide (x ∈ {[x]} ∪ X)) as [|Hout]; [reflexivity |].
      exfalso. apply Hout, elem_of_union_l, elem_of_singleton_2. reflexivity.
    + rewrite lookup_insert_ne by congruence. rewrite IH.
      destruct (decide (name ∈ X)) as [Hin | Hout],
               (decide (name ∈ {[x]} ∪ X)) as [Hin' | Hout']; try reflexivity.
      * exfalso. apply Hout'. now apply elem_of_union_r.
      * exfalso. apply elem_of_union in Hin' as [Hin' | Hin']; [| contradiction].
        apply elem_of_singleton_1 in Hin'. contradiction.
Qed.

(** ** [String.prototype.format] *)

Lemma word_prefix_append s :
  fst (word_prefix s) +:+ snd (word_prefix s) = s.
Proof.
  induction s as [|c s IH]; [reflexivity |]. cbn [word_prefix].
  destruct (is_word c); [| reflexivity].
  destruct (word_prefix s) as [key rest]. cbn [fst snd] in *. cbn. now rewrite IH.
Qed.

Lemma placeholder_text s key rest :
  placeholder s = Some (key, rest) -> s = "{" +:+ key +:+ "}" +:+ rest.
Proof.
  unfold placeholder. destruct s as [|c r]; [discriminate |].
  destruct (Ascii.eqb c "{") eqn:Hc; [| discriminate].
  apply Ascii.eqb_eq in Hc. subst c.
  pose proof (word_prefix_append r) as Hr.
  destruct (word_prefix r) as [[|k key'] [|c' rest']]; try discriminate.
  destruct (Ascii.eqb c' "}") eqn:Hc'; [| discriminate].
  apply Ascii.eqb_eq in Hc'. subst c'. intros [= <- <-].
  cbn [fst snd] in Hr. now rewrite <- Hr.
Qed.

Lemma placeholder_length s key rest :
  placeholder s = Some (key, rest) -> String.length rest < String.length s.
Proof.
  intros Hp. apply placeholder_text in Hp. subst s.
  rewrite !length_append. cbn. lia.
Qed.



Lemma format_loop_enough args rounds s :
  String.length s <= rounds -> format_loop rounds args s = format args s.
Proof.
  unfold format. remember (String.length s) as bound eqn:Hbound.
  assert (Hle : String.length s <= bound) by lia. rewrite Hbound. clear Hbound.
  revert s rounds Hle. induction bound as [|bound IH]; intros s rounds Hle Hlen.
  - destruct s; [now destruct rounds | cbn in Hle; lia].
  - destruct s as [|c r]; [now destruct rounds |].
    destruct rounds as [|n]; [cbn in Hlen; lia |].
    cbn [String.length format_loop] in *.
    destruct (placeholder (String c r)) as [[key rest]|] eqn:Hp.
    + apply placeholder_length in Hp as Hlt. cbn [String.length] in Hlt.
      rewrite (IH rest n), (IH rest (String.length r)); try lia. reflexivity.
    + rewrite (IH r n); try lia. reflexivity.
Qed.

(** X25: a placeholder with a defined key is replaced by the value, and
    the search goes on after the placeholder: the value is not searched
    for placeholders. *)
Theorem format_placeholder (args : string -> option string) (key rest x : string) :
  key <> "" -> all_chars is_word key = true -> args key = Some x ->
  format args ("{" +:+ key +:+ "}" +:+ rest) = x +:+ format args rest.
Proof.
  intros Hkey Hword Hx.
  assert (Hprefix : forall k, all_chars is_word k = true ->
            word_prefix (k +:+ String "}" rest) = (k, String "}" rest)).
  { induction k as [|c k IH]; [reflexivity |].
    rewrite all_chars_cons. intros [Hc Hk]%andb_true_iff.
    change (String c k +:+ String "}" rest) with (String c (k +:+ String "}" rest)).
    cbn [word_prefix]. now rewrite Hc, (IH Hk). }
  assert (Hp : placeholder ("{" +:+ key +:+ "}" +:+ rest) = Some (key, rest)).
  { change ("{" +:+ key +:+ "}" +:+ rest) with (String "{" (key +:+ String "}" rest)).
    unfold placeholder. cbn [Ascii.eqb Bool.eqb]. rewrite (Hprefix key Hword).
    destruct key; [congruence | reflexivity]. }
  unfold format at 1.
  change (String.length ("{" +:+ key +:+ "}" +:+ rest))
    with (S (String.length (key +:+ String "}" rest))).
  cbn [format_loop]. rewrite Hp, Hx. cbn [default]. f_equal.
  apply format_loop_enough. rewrite length_append. cbn. lia.
Qed.

Lemma format_placeholder_witness :
  format DemoRules.on_and_off "{0} and {1}"
  = "ON" +:+ format DemoRules.on_and_off " and {1}".
Proof.
  apply (format_placeholder DemoRules.on_and_off "0" " and {1}" "ON").
  - discriminate.
  - reflexivity.
  - reflexivity.
Defined.

(** ** Things and their status *)

Lemma parse_round_states H expr st st' :
  parse_round H expr st = Ok st' ->
  filled_in_order (snd st) = true ->
  states_fit (snd st) = true ->
  states_fit (snd st') = true.
Proof.
  destruct st as [input_list v]. unfold parse_round, take_tokens.
  cbn [fst snd]. intros Hround Horder Hfits.
  split_ifs; try discriminate; apply Ok_eq in Hround; subst st'; cbn [snd];
    destruct v as [[a|] [b|] [c|] [d|] [e|]];
    unfold filled_in_order, states_fit in *;
    cbn [set_target_type set_trigger_target set_trigger_type set_old_state
         set_new_state target_type trigger_target trigger_type old_state new_state
         JS.not_null negb andb orb] in *;
    try discriminate; try assumption; try reflexivity.
  all: repeat match goal with
              | E : _ && _ = true |- _ => apply andb_true_iff in E as [? ?]
              end;
    repeat match goal with
           | E : ?x = true |- context [?x] => rewrite E
           end;
    cbn [andb orb]; try reflexivity.
  all: try (rewrite ?orb_true_r; reflexivity).
  all: cbn [JS.eq JS.has existsb] in *;
    repeat match goal with
           | E : _ || _ = true |- _ => apply orb_true_iff in E as [E | E]
           | E : String.eqb _ _ = true |- _ => apply String.eqb_eq in E; subst
           | E : false = true |- _ => discriminate E
           end;
    reflexivity.
Qed.

Lemma parse_loop_states H expr rounds st st' :
  parse_loop H expr rounds st = Ok st' ->
  filled_in_order (snd st) = true ->
  states_fit (snd st) = true ->
  states_fit (snd st') = true.
Proof.
  revert st. induction rounds as [|n IH]; intros st; simpl; [now intros [= <-] |].
  destruct (0 <? length (fst st))%nat; [| now intros [= <-]].
  destruct (parse_round H expr st) as [st1|] eqn:Hround; [| discriminate].
  intros Hloop Horder Hfits.
  apply (IH st1 Hloop).
  - now apply (parse_round_kept _ _ _ _ Hround).
  - now apply (parse_round_states _ _ _ _ Hround).
Qed.

Lemma parse_states H expr v : parse H expr = Ok v -> states_fit v = true.
Proof.
  unfold parse. destruct (1 <? length (JS.split expr))%nat.
  - destruct (parse_loop _ _ _ _) as [[rest v']|] eqn:Hloop; [| discriminate].
    intros [= <-].
    apply (parse_loop_states _ _ _ _ _ Hloop); reflexivity.
  - now intros [= <-].
Qed.

Lemma when_closure H expr w c :
  fst (when H expr w) = Ok (Some c) -> c <> BadTrigger ->
  exists v n,
    parse H expr = Ok v /\ validate H expr v = Ok tt /\ select v n = Some c.
Proof.
  unfold when, when_try, bind, lift, LOG, ret.
  destruct (parse H expr) as [v|e]; cbv beta iota.
  - destruct (validate H expr v) as [[]|e] eqn:Hval; cbv beta iota.
    + rewrite validate_uid_run. cbn [fst]. intros [= Hselect] _.
      exists v. eexists. split; [reflexivity |]. split; [exact Hval | exact Hselect].
    + destruct e; cbn [fst]; try discriminate. intros [= <-]. congruence.
  - destruct e; cbn [fst]; try discriminate. intros [= <-]. congruence.
Qed.

Lemma attach_built H n type_uid cfg e func w object a :
  heap w !! func = Some object -> triggers_of object = Some a ->
  exists t w',
    (let! trigger := build H n type_uid cfg in
     do! LOG e in add_trigger func (Some trigger)) w = (Ok func, w')
    /\ attached [Some t] func object w w'
    /\ typeUID t = type_uid /\ configuration t = cfg.
Proof.
  intros Hobj Ha.
  destruct (single_run (build H n type_uid cfg) e func w object a
              (build_builds H n type_uid cfg) Hobj Ha)
    as (t & w' & Hrun & Ht & _ & Hatt).
  exists t, w'. rewrite build_run in Ht. injection Ht as <-. auto.
Qed.

(** X26: on a platform whose status enumeration has no members named
    old_state and new_state, a function that [when] returns for a Thing
    never holds a status: the parser sets a status only after "changed"
    or "received update", and the validation then rejects it.  So such a
    function only ever attaches a generic event trigger, and the two
    builders of status triggers are not reached through [when]. *)
Theorem thing_status_triggers_unreachable (H : Host) (expr : string) (w : World)
    (f : inner_function) (v : Slots) (n : option string) :
  ThingStatus H "old_state" = None -> ThingStatus H "new_state" = None ->
  fst (when H expr w) = Ok (Some (Closure f v n)) ->
  target_type v = Some "Thing" ->
  old_state v = None /\ new_state v = None
  /\ forall func w1 object a,
       heap w1 !! func = Some object -> triggers_of object = Some a ->
       exists t w2,
         call H (Closure f v n) func w1 = (Ok func, w2)
         /\ attached [Some t] func object w1 w2
         /\ typeUID t = "core.GenericEventTrigger".
Proof.
  intros Hold Hnew Hwhen Htarget.
  destruct (when_closure H expr w _ Hwhen) as (v' & n' & Hparse & Hval & Hselect);
    [discriminate |].
  assert (v' = v /\ n' = n) as [-> ->].
  { unfold select in Hselect. split_ifs; simplify_eq; auto. }
  pose proof (parse_states H expr v Hparse) as Hfit.
  assert (Hstates : old_state v = None /\ new_state v = None).
  { unfold validate in Hval.
    do 8 (apply throw_if_ok in Hval as [_ Hval]).
    apply throw_if_ok in Hval as [Hc9 Hval].
    apply throw_if_ok in Hval as [Hc10 _].
    injection Hc9 as Hc9. injection Hc10 as Hc10.
    unfold not_lifecycle, states_fit in *. rewrite Hold in Hc9. rewrite Hnew in Hc10.
    rewrite Htarget in *. cbn [is_null] in *.
    destruct (old_state v) as [o|], (new_state v) as [s|],
             (trigger_type v) as [k|]; cbn [JS.not_null JS.eq JS.has] in *;
      try discriminate; auto;
      exfalso;
      repeat match goal with
             | E : _ && _ = true |- _ => apply andb_true_iff in E as [? ?]
             end;
      cbn [negb orb existsb] in *;
      repeat match goal with
             | E : _ || _ = true |- _ => apply orb_true_iff in E as [E | E]
             | E : String.eqb _ _ = true |- _ => apply String.eqb_eq in E; subst
             | E : false = true |- _ => discriminate E
             end;
      discriminate. }
  destruct Hstates as [Ho Hs]. split; [exact Ho |]. split; [exact Hs |].
  intros func w1 object a Hobj Ha.
  unfold select in Hselect. rewrite Htarget in Hselect.
  cbn [JS.has JS.eq existsb] in Hselect. cbn in Hselect.
  destruct (JS.has lifecycle (trigger_type v)); injection Hselect as <-; cbn [call];
    unfold thing_event_trigger, thing_trigger; rewrite ?Ho, ?Hs; cbn [JS.not_null orb];
    unfold ThingEventTrigger, GenericEventTrigger;
    match goal with
    | |- context [bind (build H n ?ty ?cfg) (fun trigger => bind (LOG ?e) _)] =>
        destruct (attach_built H n ty cfg e func w1 object a Hobj Ha)
          as (t & w2 & Hrun & Hatt & Hty & _)
    end;
    exists t, w2; auto.
Qed.

Lemma thing_status_triggers_unreachable_witness :
  old_state (mkSlots (Some "Thing") (Some "kodi:kodi:familyroom") (Some "changed")
               None None) = None
  /\ new_state (mkSlots (Some "Thing") (Some "kodi:kodi:familyroom") (Some "changed")
                  None None) = None.
Proof.
  pose proof (thing_status_triggers_unreachable Demo.host
                "Thing kodi:kodi:familyroom changed" Demo.world Fn_thing_trigger
                (mkSlots (Some "Thing") (Some "kodi:kodi:familyroom") (Some "changed")
                   None None)
                (Some ("Thing_kodi_kodi_familyroom_changed"
                       +:+ "00000000-0000-4000-8000-000000000000")))
    as Hthing.
  destruct Hthing as (Hold & Hnew & _).
  - reflexivity.
  - reflexivity.
  - vm_compute; reflexivity.
  - reflexivity.
  - split; [exact Hold | exact Hnew].
Defined.

(** ** What the decorator of [rule] returns *)

(** X27: applied to a callback object, the decorator of [rule] never
    throws: it returns the callback or [null].  It returns the callback
    exactly when it has added one rule, which carries the triggers of the
    callback, none of them [null]; and when it returns [null] it has added
    no rule and has logged one warning or error. *)
Theorem decorator_outcomes (A : Automation) (H : Host) (c : RuleArgs) (object : loc)
    (e : Engine) (o : gmap string value) :
  heap (world e) !! object = Some o ->
  exists r c' e',
    decorator A H c object e = (Ok r, c', e')
    /\ match r with
       | Some f =>
           f = object
           /\ exists simple_rule,
                rules e' = (rules e ++ [simple_rule])%list
                /\ o !! "triggers" = Some (VArray (getTriggers simple_rule))
                /\ existsb is_null (getTriggers simple_rule) = false
       | None =>
           rules e' = rules e
           /\ exists entry,
                rules_log e' = (rules_log e ++ [entry])%list
                /\ entry_level entry <> DEBUG
       end.
Proof.
  intros Hobj. unfold decorator. rewrite Hobj.
  destruct (instanceof_Function A object).
  - destruct (o !! "triggers") as [[| | | | |[|trigger rest]|]|] eqn:Ha;
      try (do 3 eexists; split; [reflexivity |]; split; [reflexivity |];
           eexists; split; [reflexivity | discriminate]).
    destruct (existsb is_null (trigger :: rest)) eqn:Hnull; cbn [negb].
    + do 3 eexists. split; [reflexivity |]. split; [reflexivity |].
      eexists. split; [reflexivity | discriminate].
    + unfold function_rule. destruct (SimpleRule_throws A) as [x|].
      * do 3 eexists. split; [reflexivity |]. split; [reflexivity |].
        eexists. split; [reflexivity | discriminate].
      * unfold addRule, LOG_rules, set_object.
        cbn [world rules rules_log heap uuids_drawn log]. rewrite lookup_insert_eq.
        do 3 eexists. split; [reflexivity |]. split; [reflexivity |].
        eexists. split; [reflexivity |]. split; [reflexivity | exact Hnull].
  - do 3 eexists. split; [reflexivity |]. split; [reflexivity |].
    eexists. split; [reflexivity | discriminate].
Qed.

Lemma decorator_outcomes_witness :
  exists r c' e',
    decorator DemoRules.automation Demo.host (rule (Some "Startup") None None true)
      DemoRules.first DemoRules.engine
    = (Ok r, c', e')
    /\ match r with
       | Some f =>
           f = DemoRules.first
           /\ exists simple_rule,
                rules e' = (rules DemoRules.engine ++ [simple_rule])%list
                /\ DemoRules.first_object !! "triggers"
                   = Some (VArray (getTriggers simple_rule))
                /\ existsb is_null (getTriggers simple_rule) = false
       | None =>
           rules e' = rules DemoRules.engine
           /\ exists entry,
                rules_log e' = (rules_log DemoRules.engine ++ [entry])%list
                /\ entry_level entry <> DEBUG
       end.
Proof.
  apply (decorator_outcomes DemoRules.automation Demo.host _ DemoRules.first
           DemoRules.engine DemoRules.first_object).
  vm_compute; reflexivity.
Defined.

(** ** Item metadata *)

Lemma ms_bind_ok {A B} (m : MS A) (k : A -> MS B) s a s1 :
  m s = (Ok a, s1) -> ms_bind m k s = k a s1.
Proof. unfold ms_bind. now intros ->. Qed.

Lemma get_metadata_run K item_name namespace s :
  valid_key K namespace item_name = true ->
  exists s',
    get_metadata K item_name namespace s = (Ok (registry s !! (namespace, item_name)), s')
    /\ registry s' = registry s.
Proof.
  intros Hkey. unfold get_metadata, new_MetadataKey, trace, ms_bind, registry_get, ms_ret.
  rewrite Hkey. eexists. split; reflexivity.
Qed.

Lemma remove_metadata_run K item_name namespace s :
  valid_key K namespace item_name = true -> namespace <> "" ->
  exists s',
    remove_metadata K item_name (Some namespace) s = (Ok tt, s')
    /\ registry s' = delete (namespace, item_name) (registry s).
Proof.
  intros Hkey Hns. unfold remove_metadata.
  replace (JS.truthy (Some namespace)) with true
    by (destruct namespace; [congruence | reflexivity]).
  unfold new_MetadataKey, trace, ms_bind, registry_remove, ms_ret.
  change (JS.str (Some namespace)) with namespace.
  rewrite Hkey. eexists. split; reflexivity.
Qed.

Lemma add_run K item_name namespace message arguments metadata s :
  valid_key K namespace item_name = true ->
  registry s !! (namespace, item_name) = None ->
  exists s',
    (do* trace message arguments in
     let* key := new_MetadataKey K namespace item_name in
     registry_add key metadata) s = (Ok tt, s')
    /\ registry s' = <[(namespace, item_name) := metadata]> (registry s).
Proof.
  intros Hkey Hnone. unfold new_MetadataKey, trace, ms_bind, registry_add, ms_ret.
  rewrite Hkey. cbn [registry]. rewrite Hnone. eexists. split; reflexivity.
Qed.

Lemma set_metadata_overwrite K item_name namespace configuration value s :
  valid_key K namespace item_name = true -> namespace <> "" ->
  exists s',
    set_metadata K item_name namespace configuration value true s = (Ok tt, s')
    /\ registry s'
       = <[(namespace, item_name) := mkMetadata value (entries_of configuration)]>
           (registry s).
Proof.
  intros Hkey Hns. unfold set_metadata.
  destruct (remove_metadata_run K item_name namespace s Hkey Hns) as (s1 & Hremove & Hr1).
  rewrite (ms_bind_ok _ _ _ _ _ Hremove).
  destruct (get_metadata_run K item_name namespace s1 Hkey) as (s2 & Hget & Hr2).
  rewrite (ms_bind_ok _ _ _ _ _ Hget).
  assert (Hnone : registry s2 !! (namespace, item_name) = None)
    by (rewrite Hr2, Hr1; apply lookup_delete_eq).
  assert (Hadd := add_run K item_name namespace
                    ("set_metadata: adding or overwriting metadata namespace with "
                     +:+ "[value: {}, configuration: {}]: Item [{}], namespace [{}]")
                    [Text value; Json (entries_of configuration); Text (Some item_name);
                     Text (Some namespace)]
                    (mkMetadata value (entries_of configuration)) s2 Hkey Hnone).
  destruct Hadd as (s3 & Hadd & Hr3).
  exists s3. split.
  - destruct (registry s1 !! (namespace, item_name)); exact Hadd.
  - rewrite Hr3, Hr2, Hr1. apply insert_delete_eq.
Qed.

Lemma set_metadata_new K item_name namespace configuration value s :
  valid_key K namespace item_name = true ->
  registry s !! (namespace, item_name) = None ->
  exists s',
    set_metadata K item_name namespace configuration value false s = (Ok tt, s')
    /\ registry s'
       = <[(namespace, item_name) := mkMetadata value (entries_of configuration)]>
           (registry s).
Proof.
  intros Hkey Hnone. unfold set_metadata. unfold ms_ret at 1, ms_bind at 1.
  destruct (get_metadata_run K item_name namespace s Hkey) as (s2 & Hget & Hr2).
  rewrite (ms_bind_ok _ _ _ _ _ Hget), Hnone.
  rewrite <- Hr2 in Hnone.
  destruct (add_run K item_name namespace
              ("set_metadata: adding or overwriting metadata namespace with "
               +:+ "[value: {}, configuration: {}]: Item [{}], namespace [{}]")
              [Text value; Json (entries_of configuration); Text (Some item_name);
               Text (Some namespace)]
              (mkMetadata value (entries_of configuration)) s2 Hkey Hnone)
    as (s3 & Hadd & Hr3).
  exists s3. split; [exact Hadd | now rewrite Hr3, Hr2].
Qed.

Lemma set_metadata_object_throws K item_name namespace entries value metadata s :
  valid_key K namespace item_name = true ->
  registry s !! (namespace, item_name) = Some metadata ->
  exists s',
    set_metadata K item_name namespace (JSObject entries) value false s
    = (Throw (TypeError "new_configuration.forEach is not a function"), s')
    /\ registry s' = registry s.
Proof.
  intros Hkey Hsome. unfold set_metadata. unfold ms_ret at 1, ms_bind at 1.
  destruct (get_metadata_run K item_name namespace s Hkey) as (s2 & Hget & Hr2).
  rewrite (ms_bind_ok _ _ _ _ _ Hget), Hsome.
  exists s2. split; [reflexivity | exact Hr2].
Qed.

(** X28: [set_value] with a value always stores it: afterwards
    [get_value] returns it, the namespace keeps the configuration it had,
    or has an empty one when it is new, and no other entry of the
    registry changes. *)
Theorem set_value_then_get_value (K : MetadataHost) (item_name namespace : string)
    (value : string) (s : Store) :
  valid_key K namespace item_name = true ->
  namespace <> "" ->
  exists s',
    set_value K item_name namespace (Some value) s = (Ok tt, s')
    /\ fst (get_value K item_name namespace s') = Ok (JStr value)
    /\ registry s'
       = <[(namespace, item_name) :=
             mkMetadata (Some value)
               (from_option metadata_configuration ∅
                  (registry s !! (namespace, item_name)))]> (registry s).
Proof.
  intros Hkey Hns. unfold set_value. unfold trace at 1, ms_bind at 1.
  set (s0 := mkStore _ _).
  destruct (get_metadata_run K item_name namespace s0 Hkey) as (s1 & Hget & Hr1).
  rewrite (ms_bind_ok _ _ _ _ _ Hget).
  change (registry s0) with (registry s) in *.
  assert (Hset : exists s',
            match registry s !! (namespace, item_name) with
            | Some metadata =>
                set_metadata K item_name namespace
                  (JavaMap (metadata_configuration metadata)) (Some value) true
            | None => set_metadata K item_name namespace (JSObject ∅) (Some value) false
            end s1 = (Ok tt, s')
            /\ registry s'
               = <[(namespace, item_name) :=
                     mkMetadata (Some value)
                       (from_option metadata_configuration ∅
                          (registry s !! (namespace, item_name)))]> (registry s)).
  { destruct (registry s !! (namespace, item_name)) as [metadata|] eqn:Hold.
    - destruct (set_metadata_overwrite K item_name namespace
                  (JavaMap (metadata_configuration metadata)) (Some value) s1 Hkey Hns)
        as (s' & Hrun & Hr). exists s'. split; [exact Hrun | now rewrite Hr, Hr1].
    - rewrite <- Hr1 in Hold.
      destruct (set_metadata_new K item_name namespace (JSObject ∅) (Some value) s1 Hkey Hold)
        as (s' & Hrun & Hr). exists s'. split; [exact Hrun | now rewrite Hr, Hr1]. }
  destruct Hset as (s' & Hrun & Hr). exists s'.
  split; [exact Hrun |]. split; [| exact Hr].
  unfold get_value. unfold trace at 1, ms_bind at 1. set (s2 := mkStore _ _).
  destruct (get_metadata_run K item_name namespace s2 Hkey) as (s3 & Hget3 & _).
  rewrite (ms_bind_ok _ _ _ _ _ Hget3).
  change (registry s2) with (registry s'). rewrite Hr, lookup_insert_eq. reflexivity.
Qed.

Lemma set_value_then_get_value_witness :
  exists s',
    set_value DemoRules.metadata_host "Test_Switch_1" "homekit" (Some "Fan")
      DemoRules.store = (Ok tt, s')
    /\ fst (get_value DemoRules.metadata_host "Test_Switch_1" "homekit" s')
       = Ok (JStr "Fan")
    /\ registry s'
       = <[("homekit", "Test_Switch_1") :=
             mkMetadata (Some "Fan")
               (from_option metadata_configuration ∅
                  (registry DemoRules.store !! ("homekit", "Test_Switch_1")))]>
           (registry DemoRules.store).
Proof.
  apply (set_value_then_get_value DemoRules.metadata_host "Test_Switch_1" "homekit"
           "Fan" DemoRules.store).
  - reflexivity.
  - discriminate.
Defined.

(** X29: on a namespace that has metadata, [set_key_value] and
    [remove_key_value] always throw a [TypeError] and leave the registry
    as it was, and so does [set_metadata] without [overwrite] for a
    configuration given as a JavaScript object: [merge_configuration]
    calls [forEach] on the JavaScript object. *)
Theorem key_value_functions_throw (K : MetadataHost) (item_name namespace key : string)
    (value : jsval) (metadata : Metadata) (s : Store) :
  valid_key K namespace item_name = true ->
  registry s !! (namespace, item_name) = Some metadata ->
  (exists s',
     set_key_value K item_name namespace key value s
     = (Throw (TypeError "new_configuration.forEach is not a function"), s')
     /\ registry s' = registry s)
  /\ (exists s',
        remove_key_value K item_name namespace key s
        = (Throw (TypeError "new_configuration.forEach is not a function"), s')
        /\ registry s' = registry s)
  /\ forall entries v,
       exists s',
         set_metadata K item_name namespace (JSObject entries) v false s
         = (Throw (TypeError "new_configuration.forEach is not a function"), s')
         /\ registry s' = registry s.
Proof.
  intros Hkey Hsome. split; [| split].
  - unfold set_key_value. unfold trace at 1, ms_bind at 1. set (s0 := mkStore _ _).
    destruct (get_metadata_run K item_name namespace s0 Hkey) as (s1 & Hget & Hr1).
    rewrite (ms_bind_ok _ _ _ _ _ Hget).
    change (registry s0) with (registry s). rewrite Hsome.
    exists s1. split; [reflexivity | exact Hr1].
  - unfold remove_key_value. unfold trace at 1, ms_bind at 1. set (s0 := mkStore _ _).
    destruct (get_metadata_run K item_name namespace s0 Hkey) as (s1 & Hget & Hr1).
    rewrite (ms_bind_ok _ _ _ _ _ Hget).
    change (registry s0) with (registry s). rewrite Hsome.
    exists s1. split; [reflexivity | exact Hr1].
  - intros entries v.
    exact (set_metadata_object_throws K item_name namespace entries v metadata s
             Hkey Hsome).
Qed.

Lemma key_value_functions_throw_witness :
  exists s',
    set_key_value DemoRules.metadata_host "Test_Switch_1" "homekit" "name" (JStr "Fan")
      DemoRules.store
    = (Throw (TypeError "new_configuration.forEach is not a function"), s')
    /\ registry s' = registry DemoRules.store.
Proof.
  refine (proj1 (key_value_functions_throw DemoRules.metadata_host "Test_Switch_1"
                   "homekit" "name" (JStr "Fan")
                   (mkMetadata (Some "Lighting") (<["name" := JStr "Switch"]> ∅))
                   DemoRules.store _ _)).
  - reflexivity.
  - vm_compute; reflexivity.
Defined.

(** X30: on a namespace without metadata, [set_key_value] adds an entry
    with no value and the one key, and changes no other entry. *)
Theorem set_key_value_creates (K : MetadataHost) (item_name namespace key : string)
    (value : jsval) (s : Store) :
  valid_key K namespace item_name = true ->
  registry s !! (namespace, item_name) = None ->
  exists s',
    set_key_value K item_name namespace key value s = (Ok tt, s')
    /\ registry s'
       = <[(namespace, item_name) := mkMetadata None (<[key := value]> ∅)]> (registry s).
Proof.
  intros Hkey Hnone. unfold set_key_value. unfold trace at 1, ms_bind at 1.
  set (s0 := mkStore _ _).
  destruct (get_metadata_run K item_name namespace s0 Hkey) as (s1 & Hget & Hr1).
  rewrite (ms_bind_ok _ _ _ _ _ Hget).
  change (registry s0) with (registry s) in *. rewrite Hnone.
  unfold ms_ret at 1, ms_bind at 1.
  rewrite <- Hr1 in Hnone.
  destruct (set_metadata_new K item_name namespace (JSObject (<[key := value]> ∅)) None
              s1 Hkey Hnone) as (s' & Hrun & Hr).
  exists s'. split; [exact Hrun | now rewrite Hr, Hr1].
Qed.

Lemma set_key_value_creates_witness :
  exists s',
    set_key_value DemoRules.metadata_host "Test_Switch_1" "alexa" "category"
      (JStr "LIGHT") DemoRules.store = (Ok tt, s')
    /\ registry s'
       = <[("alexa", "Test_Switch_1") :=
             mkMetadata None (<["category" := JStr "LIGHT"]> ∅)]>
           (registry DemoRules.store).
Proof.
  apply (set_key_value_creates DemoRules.metadata_host "Test_Switch_1" "alexa" "category"
           (JStr "LIGHT") DemoRules.store).
  - reflexivity.
  - vm_compute; reflexivity.
Defined.
